(** * Dynamic-fee transaction data (package types)

    A shallow embedding of [TxInternalDataDynamicFee] and its methods:
    the constructors, [SerializeForSign], [Equal], [ValidateSignature],
    [Validate], [Execute], the JSON conversion and the wire encoding.

    Go values that the code shares and mutates live in an explicit store:
    [*big.Int] cells and the backing arrays of slices are addressed by
    locations, a pointer is an [option loc] ([None] is Go's nil) and a slice
    is a header over a backing array.  A run-time panic (nil dereference,
    index out of range) is a distinct outcome, separate from a returned
    [error].

    The file has two parts: the definitions (run time, field container,
    operations, encodings, sample data), then the lemmas and theorems in
    the same order. *)

From Stdlib Require Import ZArith Lia.
From Stdlib Require Strings.Byte.
From stdpp Require Import gmap strings list fin_maps numbers.

Set Default Proof Using "Type".

(* ===================================================================== *)
(** ** The Go run time: outcomes, store, big integers, slices            *)
(* ===================================================================== *)

Definition loc := positive.

(** What a Go call can do: return, or panic. *)
Inductive outcome (A : Type) : Type :=
| Done (a : A)
| Panic (why : string).
Arguments Done {A} a.
Arguments Panic {A} why.

Definition nil_dereference : string := "invalid memory address or nil pointer dereference".
Definition index_out_of_range : string := "index out of range".

(** [common.Address] is a 20-byte array and [common.Hash] a 32-byte array;
    both are compared as a whole, so each is kept as the big-endian number
    of its bytes. *)
Definition common_Address := Z.
Definition common_Hash := Z.

(** A slice header.  Capacity is left out: nothing here appends. *)
Inductive slice : Type :=
| SliceNil
| Slice (arr : loc) (off len : nat).

Definition slice_len (s : slice) : nat :=
  match s with SliceNil => 0 | Slice _ _ n => n end.

Definition slice_is_nil (s : slice) : bool :=
  match s with SliceNil => true | Slice _ _ _ => false end.

(** Modelled from the spec: [AccessList] and [AccessTuple] are declared
    outside this file; the data model gives an access list as an ordered
    sequence of (address, ordered sequence of 32-byte storage keys).  The
    storage keys of a tuple are never written here, so they are kept as an
    immutable value, [None] being the nil slice. *)
Record AccessTuple : Type := mkAccessTuple {
  Address : common_Address;
  StorageKeys : option (list common_Hash)
}.

Global Instance byte_eq_dec : EqDecision Byte.byte := Strings.Byte.byte_eq_dec.
Global Instance AccessTuple_eq_dec : EqDecision AccessTuple.
Proof. solve_decision. Defined.

Record heap : Type := mkHeap {
  bigInts : gmap loc Z;                       (* big.Int objects *)
  byteArrays : gmap loc (list Byte.byte);     (* backing arrays of []byte *)
  tupleArrays : gmap loc (list AccessTuple)   (* backing arrays of AccessList *)
}.

Definition empty_heap : heap := mkHeap ∅ ∅ ∅.

Definition with_bigInts (f : gmap loc Z → gmap loc Z) (h : heap) : heap :=
  mkHeap (f (bigInts h)) (byteArrays h) (tupleArrays h).
Definition with_byteArrays (f : gmap loc (list Byte.byte) → gmap loc (list Byte.byte))
    (h : heap) : heap :=
  mkHeap (bigInts h) (f (byteArrays h)) (tupleArrays h).
Definition with_tupleArrays (f : gmap loc (list AccessTuple) → gmap loc (list AccessTuple))
    (h : heap) : heap :=
  mkHeap (bigInts h) (byteArrays h) (f (tupleArrays h)).

(** Computations over the store that may panic. *)
Definition M (A : Type) : Type := heap → outcome (A * heap).

Definition ret {A} (a : A) : M A := λ h, Done (a, h).
Definition panic {A} (why : string) : M A := λ _, Panic why.
Definition bind {A B} (m : M A) (k : A → M B) : M B :=
  λ h, match m h with
       | Done (a, h') => k a h'
       | Panic why => Panic why
       end.

Notation "'let*' x ':=' m 'in' k" := (bind m (λ x, k))
  (at level 10, x pattern, m at level 100, k at level 200).
Notation "m ';;' k" := (bind m (λ _, k))
  (at level 100, k at level 200, right associativity).

(** *** math/big *)

(** [new(big.Int)] *)
Definition big_new : M (option loc) :=
  λ h, let l := fresh (dom (bigInts h)) in
       Done (Some l, with_bigInts (insert l 0%Z) h).

(** [*x] for a [*big.Int]. *)
Definition big_load (x : option loc) : M Z :=
  λ h, match x with
       | None => Panic nil_dereference
       | Some l => match bigInts h !! l with
                   | Some v => Done (v, h)
                   | None => Panic nil_dereference
                   end
       end.

(** [z.Set(x)]: nothing happens when both are the same pointer; otherwise
    both are dereferenced. *)
Definition big_Set (z x : option loc) : M (option loc) :=
  if decide (z = x) then ret z
  else match z with
       | None => panic nil_dereference
       | Some lz =>
           let* v := big_load x in
           let* _ := big_load z in
           λ h, Done (z, with_bigInts (insert lz v) h)
       end.

(** [x.Cmp(y)]: -1, 0 or 1; equal pointers compare equal without a
    dereference. *)
Definition big_Cmp (x y : option loc) : M Z :=
  if decide (x = y) then ret 0%Z
  else
    let* vx := big_load x in
    let* vy := big_load y in
    ret (match (vx ?= vy)%Z with Lt => (-1)%Z | Eq => 0%Z | Gt => 1%Z end).

(** [x.Uint64()]: the low 64 bits of the magnitude. *)
Definition big_Uint64 (x : option loc) : M Z :=
  let* v := big_load x in ret (Z.abs v mod 2 ^ 64)%Z.

(** *** Slices *)

Section arrays.
Context {A : Type}.

(** The elements a slice denotes in an array store. *)
Definition slice_read (m : gmap loc (list A)) (s : slice) : list A :=
  match s with
  | SliceNil => []
  | Slice a off n => take n (drop off (default [] (m !! a)))
  end.

(** [make([]T, n)]: a new backing array of [n] zero values. *)
Definition array_make (zero : A) (n : nat) (m : gmap loc (list A))
    : slice * gmap loc (list A) :=
  let a := fresh (dom m) in (Slice a 0 n, <[a := replicate n zero]> m).

(** The built-in [copy(dst, src)]: the first [min (len dst) (len src)]
    elements of [src] overwrite the front of [dst]; the count is returned
    with the store. *)
Definition array_copy (dst src : slice) (m : gmap loc (list A))
    : nat * gmap loc (list A) :=
  let n := slice_len dst `min` slice_len src in
  let data := take n (slice_read m src) in
  match dst with
  | SliceNil => (0, m)
  | Slice a off _ =>
      (length data,
       alter (λ arr, take off arr ++ data ++ drop (off + length data) arr) a m)
  end.
End arrays.

Definition zero_byte : Byte.byte := Byte.x00.
Definition zero_tuple : AccessTuple := mkAccessTuple 0%Z None.

(** Modelled from the spec: [common.CopyBytes] is declared outside this
    file; the constructor is said to copy mutable byte inputs defensively.
    A nil slice stays nil, anything else is copied into a new array. *)
Definition common_CopyBytes (b : slice) : M slice :=
  λ h, match b with
       | SliceNil => Done (SliceNil, h)
       | Slice _ _ n =>
           let '(c, m1) := array_make zero_byte n (byteArrays h) in
           let '(_, m2) := array_copy c b m1 in
           Done (c, with_byteArrays (λ _, m2) h)
       end.

(* ===================================================================== *)
(** ** The field container                                               *)
(* ===================================================================== *)

(** The struct.  [uint64] fields are numbers below [2^64]; the three
    signature fields V, R and S of the source are [SigV], [SigR] and [SigS]
    ([S] is the successor of [nat]).  [Recipient] is the pointed-to address
    or nil; [Hash] likewise. *)
Record TxInternalDataDynamicFee : Type := mkTx {
  ChainID : option loc;
  AccountNonce : Z;
  GasTipCap : option loc;
  GasFeeCap : option loc;
  GasLimit : Z;
  Recipient : option common_Address;
  Amount : option loc;
  Payload : slice;
  AccessList : slice;
  SigV : option loc;
  SigR : option loc;
  SigS : option loc;
  Hash : option common_Hash
}.

Definition set_ChainID (x : option loc) (t : TxInternalDataDynamicFee) :=
  mkTx x (AccountNonce t) (GasTipCap t) (GasFeeCap t) (GasLimit t) (Recipient t)
       (Amount t) (Payload t) (AccessList t) (SigV t) (SigR t) (SigS t) (Hash t).
Definition set_AccountNonce (x : Z) (t : TxInternalDataDynamicFee) :=
  mkTx (ChainID t) x (GasTipCap t) (GasFeeCap t) (GasLimit t) (Recipient t)
       (Amount t) (Payload t) (AccessList t) (SigV t) (SigR t) (SigS t) (Hash t).
Definition set_GasTipCap (x : option loc) (t : TxInternalDataDynamicFee) :=
  mkTx (ChainID t) (AccountNonce t) x (GasFeeCap t) (GasLimit t) (Recipient t)
       (Amount t) (Payload t) (AccessList t) (SigV t) (SigR t) (SigS t) (Hash t).
Definition set_GasFeeCap (x : option loc) (t : TxInternalDataDynamicFee) :=
  mkTx (ChainID t) (AccountNonce t) (GasTipCap t) x (GasLimit t) (Recipient t)
       (Amount t) (Payload t) (AccessList t) (SigV t) (SigR t) (SigS t) (Hash t).
Definition set_GasLimit (x : Z) (t : TxInternalDataDynamicFee) :=
  mkTx (ChainID t) (AccountNonce t) (GasTipCap t) (GasFeeCap t) x (Recipient t)
       (Amount t) (Payload t) (AccessList t) (SigV t) (SigR t) (SigS t) (Hash t).
Definition set_Recipient (x : option common_Address) (t : TxInternalDataDynamicFee) :=
  mkTx (ChainID t) (AccountNonce t) (GasTipCap t) (GasFeeCap t) (GasLimit t) x
       (Amount t) (Payload t) (AccessList t) (SigV t) (SigR t) (SigS t) (Hash t).
Definition set_Amount (x : option loc) (t : TxInternalDataDynamicFee) :=
  mkTx (ChainID t) (AccountNonce t) (GasTipCap t) (GasFeeCap t) (GasLimit t) (Recipient t)
       x (Payload t) (AccessList t) (SigV t) (SigR t) (SigS t) (Hash t).
Definition set_Payload (x : slice) (t : TxInternalDataDynamicFee) :=
  mkTx (ChainID t) (AccountNonce t) (GasTipCap t) (GasFeeCap t) (GasLimit t) (Recipient t)
       (Amount t) x (AccessList t) (SigV t) (SigR t) (SigS t) (Hash t).
Definition set_AccessList (x : slice) (t : TxInternalDataDynamicFee) :=
  mkTx (ChainID t) (AccountNonce t) (GasTipCap t) (GasFeeCap t) (GasLimit t) (Recipient t)
       (Amount t) (Payload t) x (SigV t) (SigR t) (SigS t) (Hash t).

(** [SetHash] *)
Definition SetHash (hash : option common_Hash) (t : TxInternalDataDynamicFee) :=
  mkTx (ChainID t) (AccountNonce t) (GasTipCap t) (GasFeeCap t) (GasLimit t) (Recipient t)
       (Amount t) (Payload t) (AccessList t) (SigV t) (SigR t) (SigS t) hash.

(** [setSignatureValues] *)
Definition setSignatureValues (chainID v r s : option loc) (t : TxInternalDataDynamicFee) :=
  mkTx chainID (AccountNonce t) (GasTipCap t) (GasFeeCap t) (GasLimit t) (Recipient t)
       (Amount t) (Payload t) (AccessList t) v r s (Hash t).

(** [newEmptyTxInternalDataDynamicFee]: every field at its zero value. *)
Definition newEmptyTxInternalDataDynamicFee : TxInternalDataDynamicFee :=
  mkTx None 0 None None 0 None None SliceNil SliceNil None None None None.

(** [[]byte{}] and [AccessList{}]: empty slices that are not nil. *)
Definition empty_bytes : M slice :=
  λ h, let '(s, m) := array_make zero_byte 0 (byteArrays h) in
       Done (s, with_byteArrays (λ _, m) h).
Definition empty_AccessList : M slice :=
  λ h, let '(s, m) := array_make zero_tuple 0 (tupleArrays h) in
       Done (s, with_tupleArrays (λ _, m) h).

(** [newTxInternalDataDynamicFee] *)
Definition newTxInternalDataDynamicFee : M TxInternalDataDynamicFee :=
  let* chainID := big_new in
  let* gasTipCap := big_new in
  let* gasFeeCap := big_new in
  let* amount := big_new in
  let* payload := empty_bytes in
  let* accessList := empty_AccessList in
  let* v := big_new in
  let* r := big_new in
  let* s := big_new in
  ret (mkTx chainID 0 gasTipCap gasFeeCap 0 None amount payload accessList v r s None).

(** [newTxInternalDataDynamicFeeWithValues] *)
Definition newTxInternalDataDynamicFeeWithValues
    (nonce : Z) (to : option common_Address) (amount : option loc) (gasLimit : Z)
    (gasTipCap gasFeeCap : option loc) (data : slice) (accessList : slice)
    (chainID : option loc) : M TxInternalDataDynamicFee :=
  let* d := newTxInternalDataDynamicFee in
  let d := set_AccountNonce nonce d in
  let d := set_Recipient to d in
  let d := set_GasLimit gasLimit d in
  let* d := (if decide (0 < slice_len data)
             then let* p := common_CopyBytes data in ret (set_Payload p d)
             else ret d) in
  (if decide (amount ≠ None) then big_Set (Amount d) amount ;; ret tt else ret tt) ;;
  (if decide (gasTipCap ≠ None) then big_Set (GasTipCap d) gasTipCap ;; ret tt else ret tt) ;;
  (if decide (gasFeeCap ≠ None) then big_Set (GasFeeCap d) gasFeeCap ;; ret tt else ret tt) ;;
  (if slice_is_nil accessList then ret tt
   else λ h, let '(_, m) := array_copy (AccessList d) accessList (tupleArrays h) in
             Done (tt, with_tupleArrays (λ _, m) h)) ;;
  (if decide (chainID ≠ None) then big_Set (ChainID d) chainID ;; ret tt else ret tt) ;;
  ret d.

(** The access list an instance denotes in a store. *)
Definition access_list_of (h : heap) (t : TxInternalDataDynamicFee) : list AccessTuple :=
  slice_read (tupleArrays h) (AccessList t).
Definition payload_of (h : heap) (t : TxInternalDataDynamicFee) : list Byte.byte :=
  slice_read (byteArrays h) (Payload t).


(* ===================================================================== *)
(** ** Construction from a keyed map                                     *)
(* ===================================================================== *)

(** The dynamic values ([interface{}]) that occur as map values and in
    the signing payload, tagged with their Go type.  [V_nil] is the nil
    interface. *)
Inductive Value : Type :=
| V_nil
| V_uint64 (n : Z)
| V_Address (a : common_Address)
| V_AddressPtr (p : option common_Address)
| V_bigInt (p : option loc)
| V_bytes (s : slice)
| V_AccessList (s : slice)
| V_string (s : string).

(** Modelled from the spec: the key tokens [TxValueKey...] are declared
    outside this file.  [TxValueKeyType] is an unsigned integer type; the
    numbers below are the positions of the tokens in their declaration and
    only their being distinct matters. *)
Abbreviation TxValueKeyType := N (only parsing).
Definition TxValueKeyNonce : TxValueKeyType := 0.
Definition TxValueKeyTo : TxValueKeyType := 1.
Definition TxValueKeyAmount : TxValueKeyType := 2.
Definition TxValueKeyGasLimit : TxValueKeyType := 3.
Definition TxValueKeyData : TxValueKeyType := 5.
Definition TxValueKeyAccessList : TxValueKeyType := 13.
Definition TxValueKeyChainID : TxValueKeyType := 14.
Definition TxValueKeyGasTipCap : TxValueKeyType := 15.
Definition TxValueKeyGasFeeCap : TxValueKeyType := 16.

(** The error values returned by this file: package-level variables, each
    a fixed value whatever the input was.  [ErrOther] stands for errors
    produced by collaborators (JSON decoding, the execution engine). *)
Inductive error : Type :=
| errValueKeyNonceMustUint64
| errValueKeyToMustAddress
| errValueKeyAmountMustBigInt
| errValueKeyDataMustByteSlice
| errValueKeyGasLimitMustUint64
| errValueKeyGasFeeCapMustBigInt
| errValueKeyGasTipCapMustBigInt
| errValueKeyAccessListInvalid
| errValueKeyChainIDInvalid
| errUndefinedKeyRemains
| ErrPrecompiledContractAddress
| ErrOther (msg : string).

(** A line of the diagnostic log: [logger.Warn(msg, k.String())].  The
    method [String] of a key is declared outside this file, so the entry
    keeps the key whose name is printed. *)
Inductive LogEntry : Type :=
| LogWarn (msg : string) (key : TxValueKeyType).

(** Type assertions [values[k].(T)]: they fail on a missing key, on the nil
    interface and on any other dynamic type. *)
Definition assert_uint64 (v : option Value) : option Z :=
  match v with Some (V_uint64 n) => Some n | _ => None end.
Definition assert_Address (v : option Value) : option common_Address :=
  match v with Some (V_Address a) => Some a | _ => None end.
Definition assert_bigInt (v : option Value) : option (option loc) :=
  match v with Some (V_bigInt p) => Some p | _ => None end.
Definition assert_bytes (v : option Value) : option slice :=
  match v with Some (V_bytes s) => Some s | _ => None end.
Definition assert_AccessList (v : option Value) : option slice :=
  match v with Some (V_AccessList s) => Some s | _ => None end.

(** What the caller observes of a construction from a map: the pair
    returned ([inl d] for [(d, nil)], [inr e] for [(nil, e)]), the map as
    the call leaves it (a Go map is shared with the caller) and the lines
    logged. *)
Record MapOutcome : Type := mkMapOutcome {
  mo_result : TxInternalDataDynamicFee + error;
  mo_values : gmap TxValueKeyType Value;
  mo_log : list LogEntry
}.

(** [al = make(AccessList, len(v)); copy(al, v)] *)
Definition make_and_copy_AccessList (v : slice) : M slice :=
  λ h, let '(s, m1) := array_make zero_tuple (slice_len v) (tupleArrays h) in
       let '(_, m2) := array_copy s v m1 in
       Done (s, with_tupleArrays (λ _, m2) h).

Definition fail_with (e : error) (values : gmap TxValueKeyType Value) : M MapOutcome :=
  ret (mkMapOutcome (inr e) values []).

(** [newTxInternalDataDynamicFeeWithMap].  The loop over the keys left in
    the map logs them in the order the map yields them. *)
Definition newTxInternalDataDynamicFeeWithMap (values : gmap TxValueKeyType Value)
    : M MapOutcome :=
  let* d := newTxInternalDataDynamicFee in
  match assert_uint64 (values !! TxValueKeyNonce) with
  | None => fail_with errValueKeyNonceMustUint64 values
  | Some v =>
  let d := set_AccountNonce v d in
  let values := delete TxValueKeyNonce values in
  match assert_Address (values !! TxValueKeyTo) with
  | None => fail_with errValueKeyToMustAddress values
  | Some v =>
  let d := set_Recipient (Some v) d in
  let values := delete TxValueKeyTo values in
  match assert_bigInt (values !! TxValueKeyAmount) with
  | None => fail_with errValueKeyAmountMustBigInt values
  | Some v =>
  big_Set (Amount d) v ;;
  let values := delete TxValueKeyAmount values in
  match assert_bytes (values !! TxValueKeyData) with
  | None => fail_with errValueKeyDataMustByteSlice values
  | Some v =>
  let* p := common_CopyBytes v in
  let d := set_Payload p d in
  let values := delete TxValueKeyData values in
  match assert_uint64 (values !! TxValueKeyGasLimit) with
  | None => fail_with errValueKeyGasLimitMustUint64 values
  | Some v =>
  let d := set_GasLimit v d in
  let values := delete TxValueKeyGasLimit values in
  match assert_bigInt (values !! TxValueKeyGasFeeCap) with
  | None => fail_with errValueKeyGasFeeCapMustBigInt values
  | Some v =>
  big_Set (GasFeeCap d) v ;;
  let values := delete TxValueKeyGasFeeCap values in
  match assert_bigInt (values !! TxValueKeyGasTipCap) with
  | None => fail_with errValueKeyGasTipCapMustBigInt values
  | Some v =>
  big_Set (GasTipCap d) v ;;
  let values := delete TxValueKeyGasTipCap values in
  match assert_AccessList (values !! TxValueKeyAccessList) with
  | None => fail_with errValueKeyAccessListInvalid values
  | Some v =>
  let* al := make_and_copy_AccessList v in
  let d := set_AccessList al d in
  let values := delete TxValueKeyAccessList values in
  match assert_bigInt (values !! TxValueKeyChainID) with
  | None => fail_with errValueKeyChainIDInvalid values
  | Some v =>
  big_Set (ChainID d) v ;;
  let values := delete TxValueKeyChainID values in
  if decide (size values ≠ 0)
  then ret (mkMapOutcome (inr errUndefinedKeyRemains) values
              ((λ kv, LogWarn "unnecessary key" kv.1) <$> map_to_list values))
  else ret (mkMapOutcome (inl d) values [])
  end end end end end end end end end.

(** The nine keys the constructor requires, in the order it consumes them. *)
Definition required_keys : list TxValueKeyType :=
  [TxValueKeyNonce; TxValueKeyTo; TxValueKeyAmount; TxValueKeyData;
   TxValueKeyGasLimit; TxValueKeyGasFeeCap; TxValueKeyGasTipCap;
   TxValueKeyAccessList; TxValueKeyChainID].

(** A map holding exactly the required keys, each with a value of the
    type the constructor asserts. *)
Definition complete_values (nonce : Z) (to : common_Address) (amount : option loc)
    (data : slice) (gasLimit : Z) (gasFeeCap gasTipCap : option loc)
    (accessList : slice) (chainID : option loc) : gmap TxValueKeyType Value :=
  <[TxValueKeyNonce := V_uint64 nonce]> (
  <[TxValueKeyTo := V_Address to]> (
  <[TxValueKeyAmount := V_bigInt amount]> (
  <[TxValueKeyData := V_bytes data]> (
  <[TxValueKeyGasLimit := V_uint64 gasLimit]> (
  <[TxValueKeyGasFeeCap := V_bigInt gasFeeCap]> (
  <[TxValueKeyGasTipCap := V_bigInt gasTipCap]> (
  <[TxValueKeyAccessList := V_AccessList accessList]> (
  <[TxValueKeyChainID := V_bigInt chainID]> ∅)))))))).

(** A pointer to a [big.Int] that exists in the store. *)
Definition big_allocated (h : heap) (p : option loc) : Prop :=
  ∃ l, p = Some l ∧ is_Some (bigInts h !! l).

(** Between two stores no [big.Int] cell was written: every cell of the
    later store is a cell of the earlier one with the same content, or a
    cell allocated since that still holds its initial zero. *)
Definition big_cells_unmutated (h h' : heap) : Prop :=
  ∀ l, bigInts h' !! l = bigInts h !! l
       ∨ (bigInts h !! l = None ∧ bigInts h' !! l = Some 0%Z).

(* ===================================================================== *)
(** ** Signing payload                                                   *)
(* ===================================================================== *)

(** [SerializeForSign]: the eight values handed to the signer. *)
Definition SerializeForSign (t : TxInternalDataDynamicFee) : list Value :=
  [ V_uint64 (AccountNonce t);
    V_bigInt (GasTipCap t);
    V_bigInt (GasFeeCap t);
    V_uint64 (GasLimit t);
    V_AddressPtr (Recipient t);
    V_bigInt (Amount t);
    V_bytes (Payload t);
    V_AccessList (AccessList t) ].

(* ===================================================================== *)
(** ** Equality                                                          *)
(* ===================================================================== *)

(** The other implementations of the interface [TxInternalData] are kept
    apart by their type tag only. *)
Inductive TxInternalData : Type :=
| TxDynamicFee (t : TxInternalDataDynamicFee)
| TxOtherType (typ : Z).

(** Go's [a && b]: [b] is evaluated only when [a] holds. *)
Definition and_then (a b : M bool) : M bool :=
  let* x := a in if x then b else ret false.
Infix "<&&>" := and_then (at level 41, right associativity).

(** [x.Cmp(y) == 0] *)
Definition big_Cmp_is_0 (x y : option loc) : M bool :=
  let* c := big_Cmp x y in ret (c =? 0)%Z.

(** Modelled from the spec: [equalRecipient] is declared outside this
    file; equality requires the recipients to agree: both absent, or both
    present with the same address. *)
Definition equalRecipient (a b : option common_Address) : bool :=
  match a, b with
  | None, None => true
  | Some x, Some y => (x =? y)%Z
  | _, _ => false
  end.

(** [reflect.DeepEqual] on storage keys, tuples and access lists: a nil
    slice equals only a nil slice (an empty one that is not nil differs
    from it), lengths must agree, and elements are compared in order. *)
Fixpoint DeepEqual_list {A} (eq : A → A → bool) (xs ys : list A) : bool :=
  match xs, ys with
  | [], [] => true
  | x :: xs', y :: ys' => eq x y && DeepEqual_list eq xs' ys'
  | _, _ => false
  end.

Definition DeepEqual_StorageKeys (a b : option (list common_Hash)) : bool :=
  match a, b with
  | None, None => true
  | Some xs, Some ys => DeepEqual_list Z.eqb xs ys
  | _, _ => false
  end.

Definition DeepEqual_AccessTuple (a b : AccessTuple) : bool :=
  (Address a =? Address b)%Z && DeepEqual_StorageKeys (StorageKeys a) (StorageKeys b).

Definition DeepEqual_AccessList (a b : slice) : M bool :=
  λ h, Done (bool_decide (slice_is_nil a = slice_is_nil b)
             && DeepEqual_list DeepEqual_AccessTuple
                  (slice_read (tupleArrays h) a) (slice_read (tupleArrays h) b), h).

(** [Equal] *)
Definition Equal (t : TxInternalDataDynamicFee) (a : TxInternalData) : M bool :=
  match a with
  | TxOtherType _ => ret false
  | TxDynamicFee ta =>
      big_Cmp_is_0 (ChainID t) (ChainID ta) <&&>
      ret (AccountNonce t =? AccountNonce ta)%Z <&&>
      big_Cmp_is_0 (GasFeeCap t) (GasFeeCap ta) <&&>
      big_Cmp_is_0 (GasTipCap t) (GasTipCap ta) <&&>
      ret (GasLimit t =? GasLimit ta)%Z <&&>
      ret (equalRecipient (Recipient t) (Recipient ta)) <&&>
      big_Cmp_is_0 (Amount t) (Amount ta) <&&>
      DeepEqual_AccessList (AccessList t) (AccessList ta) <&&>
      big_Cmp_is_0 (SigV t) (SigV ta) <&&>
      big_Cmp_is_0 (SigR t) (SigR ta) <&&>
      big_Cmp_is_0 (SigS t) (SigS ta)
  end.

(** The number a [*big.Int] points to in a store, if any. *)
Definition big_value (h : heap) (p : option loc) : option Z :=
  match p with Some l => bigInts h !! l | None => None end.

(** Every [*big.Int] field of an instance points to a cell of the store. *)
Definition tx_allocated (h : heap) (t : TxInternalDataDynamicFee) : Prop :=
  big_allocated h (ChainID t) ∧ big_allocated h (GasTipCap t)
  ∧ big_allocated h (GasFeeCap t) ∧ big_allocated h (Amount t)
  ∧ big_allocated h (SigV t) ∧ big_allocated h (SigR t) ∧ big_allocated h (SigS t).

(** Agreement of two instances on the fields [Equal] inspects, by value. *)
Definition agree_without_payload (h : heap) (t ta : TxInternalDataDynamicFee) : Prop :=
  big_value h (ChainID t) = big_value h (ChainID ta)
  ∧ AccountNonce t = AccountNonce ta
  ∧ big_value h (GasFeeCap t) = big_value h (GasFeeCap ta)
  ∧ big_value h (GasTipCap t) = big_value h (GasTipCap ta)
  ∧ GasLimit t = GasLimit ta
  ∧ Recipient t = Recipient ta
  ∧ big_value h (Amount t) = big_value h (Amount ta)
  ∧ (slice_is_nil (AccessList t) = slice_is_nil (AccessList ta)
     ∧ access_list_of h t = access_list_of h ta)
  ∧ big_value h (SigV t) = big_value h (SigV ta)
  ∧ big_value h (SigR t) = big_value h (SigR ta)
  ∧ big_value h (SigS t) = big_value h (SigS ta).

(* ===================================================================== *)
(** ** Signature range validation                                        *)
(* ===================================================================== *)

(** The order of the secp256k1 group and its half. *)
Definition secp256k1N : Z :=
  0xFFFFFFFFFFFFFFFFFFFFFFFFFFFFFFFEBAAEDCE6AF48A03BBFD25E8CD0364141%Z.
Definition secp256k1halfN : Z := (secp256k1N / 2)%Z.

(** Modelled from the spec: [crypto.ValidateSignatureValues] is declared
    outside this file.  It is the range check of a signature triple: [r]
    and [s] must be at least 1 and below the group order and the recovery
    id must be 0 or 1; its fourth argument switches the low-S mode on, in
    which an [s] above half the group order is refused as well.  The spec
    says of this layer that the low-S mode is not used: [ValidateSignature]
    passes [false]. *)
Definition crypto_ValidateSignatureValues (v : Z) (r s : option loc) (homestead : bool)
    : M bool :=
  let* rv := big_load r in
  if (rv <? 1)%Z then ret false else
  let* sv := big_load s in
  if (sv <? 1)%Z then ret false else
  if homestead && (secp256k1halfN <? sv)%Z then ret false else
  ret ((rv <? secp256k1N)%Z && (sv <? secp256k1N)%Z && ((v =? 0)%Z || (v =? 1)%Z)).

(** [ValidateSignature]: [byte(t.V.Uint64())] keeps the low 8 bits. *)
Definition ValidateSignature (t : TxInternalDataDynamicFee) : M bool :=
  let* v64 := big_Uint64 (SigV t) in
  let v := (v64 mod 2 ^ 8)%Z in
  crypto_ValidateSignatureValues v (SigR t) (SigS t) false.

(* ===================================================================== *)
(** ** Validation                                                        *)
(* ===================================================================== *)

Section validation.
(** The state database is only passed along. *)
Context {StateDB : Type}.
(** [common.IsPrecompiledContractAddress], declared outside this file:
    the set of reserved precompiled-contract addresses. *)
Variable common_IsPrecompiledContractAddress : common_Address → bool.

(** [ValidateMutableValue]; [None] is the nil error. *)
Definition ValidateMutableValue (t : TxInternalDataDynamicFee) (stateDB : StateDB)
    (currentBlockNumber : Z) : option error :=
  None.

(** [Validate] *)
Definition Validate (t : TxInternalDataDynamicFee) (stateDB : StateDB)
    (currentBlockNumber : Z) : option error :=
  match Recipient t with
  | Some to =>
      if common_IsPrecompiledContractAddress to
      then Some ErrPrecompiledContractAddress
      else ValidateMutableValue t stateDB currentBlockNumber
  | None => ValidateMutableValue t stateDB currentBlockNumber
  end.
End validation.

(* ===================================================================== *)
(** ** Execution dispatch                                                *)
(* ===================================================================== *)

(** [ContractRef]: all that is used of a sender is its address. *)
Record ContractRef : Type := mkContractRef { ContractRef_Address : common_Address }.

(** [params.CodeFormat] *)
Inductive CodeFormat : Type := CodeFormatEVM.

(** What the two collaborators return: [vm.Create] gives output, created
    address, gas used and error; [vm.Call] gives output, gas used and
    error. *)
Definition CreateResult : Type := slice * common_Address * Z * option error.
Definition CallResult : Type := slice * Z * option error.

(** A call made on a collaborator: [stateDB.IncNonce], [vm.Create] or
    [vm.Call], with its arguments. *)
Inductive Invocation : Type :=
| InvIncNonce (addr : common_Address)
| InvCreate (caller : ContractRef) (code : slice) (gas : Z) (value : option loc)
            (codeFormat : CodeFormat)
| InvCall (caller : ContractRef) (addr : common_Address) (input : slice) (gas : Z)
          (value : option loc).

(** A program over the collaborators: it returns, or makes a call and goes
    on with what the call returns. *)
Inductive Prog (R : Type) : Type :=
| Return (r : R)
| IncNonce (addr : common_Address) (k : Prog R)
| Create (caller : ContractRef) (code : slice) (gas : Z) (value : option loc)
         (codeFormat : CodeFormat) (k : CreateResult → Prog R)
| Call (caller : ContractRef) (addr : common_Address) (input : slice) (gas : Z)
       (value : option loc) (k : CallResult → Prog R).
Arguments Return {R} r.
Arguments IncNonce {R} addr k.
Arguments Create {R} caller code gas value codeFormat k.
Arguments Call {R} caller addr input gas value k.

(** [Execute] *)
Definition Execute (t : TxInternalDataDynamicFee) (sender : ContractRef)
    (currentBlockNumber : Z) (gas : Z) (value : option loc) : Prog CallResult :=
  match Recipient t with
  | None =>
      Create sender (Payload t) gas value CodeFormatEVM
        (λ '(ret, _, usedGas, err), Return (ret, usedGas, err))
  | Some to =>
      IncNonce (ContractRef_Address sender)
        (Call sender to (Payload t) gas value
           (λ '(ret, usedGas, err), Return (ret, usedGas, err)))
  end.

(** An execution engine and state database over some state [W]. *)
Record Engine (W : Type) : Type := mkEngine {
  eng_IncNonce : common_Address → W → W;
  eng_Create : ContractRef → slice → Z → option loc → CodeFormat → W → CreateResult * W;
  eng_Call : ContractRef → common_Address → slice → Z → option loc → W → CallResult * W
}.
Arguments eng_IncNonce {W} _ _ _.
Arguments eng_Create {W} _ _ _ _ _ _ _.
Arguments eng_Call {W} _ _ _ _ _ _ _.

(** Running a program on an engine: the value returned, the final state
    and the calls made, in order. *)
Fixpoint run {W R} (E : Engine W) (p : Prog R) (w : W) : R * W * list Invocation :=
  match p with
  | Return r => (r, w, [])
  | IncNonce addr k =>
      let '(r, w', tr) := run E k (eng_IncNonce E addr w) in
      (r, w', InvIncNonce addr :: tr)
  | Create caller code gas value fmt k =>
      let '(res, w1) := eng_Create E caller code gas value fmt w in
      let '(r, w', tr) := run E (k res) w1 in
      (r, w', InvCreate caller code gas value fmt :: tr)
  | Call caller addr input gas value k =>
      let '(res, w1) := eng_Call E caller addr input gas value w in
      let '(r, w', tr) := run E (k res) w1 in
      (r, w', InvCall caller addr input gas value :: tr)
  end.

(** The nonce increments among the calls made. *)
Definition nonce_increments (tr : list Invocation) : list common_Address :=
  omap (λ i, match i with InvIncNonce a => Some a | _ => None end) tr.

(* ===================================================================== *)
(** ** JSON                                                              *)
(* ===================================================================== *)

Definition set_SigV (x : option loc) (t : TxInternalDataDynamicFee) :=
  mkTx (ChainID t) (AccountNonce t) (GasTipCap t) (GasFeeCap t) (GasLimit t) (Recipient t)
       (Amount t) (Payload t) (AccessList t) x (SigR t) (SigS t) (Hash t).
Definition set_SigR (x : option loc) (t : TxInternalDataDynamicFee) :=
  mkTx (ChainID t) (AccountNonce t) (GasTipCap t) (GasFeeCap t) (GasLimit t) (Recipient t)
       (Amount t) (Payload t) (AccessList t) (SigV t) x (SigS t) (Hash t).
Definition set_SigS (x : option loc) (t : TxInternalDataDynamicFee) :=
  mkTx (ChainID t) (AccountNonce t) (GasTipCap t) (GasFeeCap t) (GasLimit t) (Recipient t)
       (Amount t) (Payload t) (AccessList t) (SigV t) (SigR t) x (Hash t).

(** Modelled from the spec: [TxSignatureJSON] is declared outside this
    file; a signature is rendered as a triple of hex quantities v, r, s.
    A [*hexutil.Big] is a [*big.Int] under another name, so each component
    is a pointer to a cell, nil when the sub-field was not given. *)
Record TxSignatureJSON : Type := mkTxSignatureJSON {
  sig_V : option loc;
  sig_R : option loc;
  sig_S : option loc
}.

(** [TxInternalDataDynamicFeeJSON].  [TxSignaturesJSON] is a slice of
    pointers to triples, read only by index: it is the list of its
    elements, a nil pointer being [None]. *)
Record TxInternalDataDynamicFeeJSON : Type := mkTxJSON {
  js_Type : Z;
  js_TypeStr : string;
  js_AccountNonce : Z;
  js_MaxPriorityFeePerGas : option loc;
  js_MaxFeePerGas : option loc;
  js_GasLimit : Z;
  js_Recipient : option common_Address;
  js_Amount : option loc;
  js_Payload : slice;
  js_TxSignatures : list (option TxSignatureJSON);
  js_AccessList : slice;
  js_ChainID : option loc;
  js_Hash : option common_Hash
}.

(** [js.TxSignatures[0]] followed by a field access: the index must exist
    and the pointer found there must not be nil. *)
Definition first_signature (sigs : list (option TxSignatureJSON)) : M TxSignatureJSON :=
  match sigs with
  | [] => panic index_out_of_range
  | None :: _ => panic nil_dereference
  | Some sig :: _ => ret sig
  end.

Section json.
(** [json.Unmarshal(bytes, js)] into an empty [TxInternalDataDynamicFeeJSON]:
    the decoder is a collaborator; it fills the struct, allocating the
    cells it points to, or reports an error. *)
Variable json_Unmarshal : list Byte.byte → M (TxInternalDataDynamicFeeJSON + error).

(** [UnmarshalJSON]: the instance as the call leaves it and the error
    returned. *)
Definition UnmarshalJSON (t : TxInternalDataDynamicFee) (bytes : list Byte.byte)
    : M (TxInternalDataDynamicFee * option error) :=
  let* r := json_Unmarshal bytes in
  match r with
  | inr err => ret (t, Some err)
  | inl js =>
      let t := set_AccountNonce (js_AccountNonce js) t in
      let t := set_GasTipCap (js_MaxPriorityFeePerGas js) t in
      let t := set_GasFeeCap (js_MaxFeePerGas js) t in
      let t := set_GasLimit (js_GasLimit js) t in
      let t := set_Recipient (js_Recipient js) t in
      let t := set_Amount (js_Amount js) t in
      let t := set_Payload (js_Payload js) t in
      let t := set_AccessList (js_AccessList js) t in
      let* sig := first_signature (js_TxSignatures js) in
      let t := set_SigV (sig_V sig) t in
      let* sig := first_signature (js_TxSignatures js) in
      let t := set_SigR (sig_R sig) t in
      let* sig := first_signature (js_TxSignatures js) in
      let t := set_SigS (sig_S sig) t in
      let t := SetHash (js_Hash js) t in
      let t := set_ChainID (js_ChainID js) t in
      ret (t, None)
  end.
End json.

(* ===================================================================== *)
(** ** Wire encoding                                                     *)
(* ===================================================================== *)

(** Modelled from the spec: the package [rlp] is outside this file.  The
    wire encoding is the structured, self-describing binary encoding
    (RLP) of every field in declaration order, the cached hash left out
    and an absent recipient encoded as the empty string.  An item is a
    byte string or a list of items; each carries a prefix that tells its
    kind and the length of its content; integers are big-endian without
    leading zero bytes. *)

Definition byte_to_Z (b : Byte.byte) : Z := Z.of_N (Byte.to_N b).
Definition byte_of_Z (z : Z) : Byte.byte := default Byte.x00 (Byte.of_N (Z.to_N z)).
Arguments byte_to_Z : simpl never.
Arguments byte_of_Z : simpl never.

(** The [w] low bytes of a number, most significant first. *)
Fixpoint be_fixed (w : nat) (n : Z) : list Byte.byte :=
  match w with
  | 0 => []
  | S w' => be_fixed w' (n / 256) ++ [byte_of_Z (n mod 256)]
  end.

(** The number a big-endian byte string denotes. *)
Definition be_value (bs : list Byte.byte) : Z :=
  foldl (λ acc b, acc * 256 + byte_to_Z b)%Z 0%Z bs.

(** How many bytes a number needs: none for zero. *)
Definition byte_length (n : Z) : nat :=
  if (n <=? 0)%Z then 0 else Z.to_nat (Z.log2 n / 8 + 1).

(** Big-endian bytes without leading zeros. *)
Definition be_bytes (n : Z) : list Byte.byte := be_fixed (byte_length n) n.

(** The prefix of an item whose content has [len] bytes: [base + len] for
    a short one, else [base + 55 + k] followed by the [k] bytes of [len]. *)
Definition rlp_header (base : Z) (len : nat) : list Byte.byte :=
  if decide (len < 56) then [byte_of_Z (base + Z.of_nat len)]
  else let lb := be_bytes (Z.of_nat len) in
       byte_of_Z (base + 55 + Z.of_nat (length lb)) :: lb.

Definition encode_string (bs : list Byte.byte) : list Byte.byte :=
  match bs with
  | [b] => if (byte_to_Z b <? 128)%Z then [b] else rlp_header 128 1 ++ [b]
  | _ => rlp_header 128 (length bs) ++ bs
  end.

Definition encode_list (content : list Byte.byte) : list Byte.byte :=
  rlp_header 192 (length content) ++ content.

Definition encode_uint (n : Z) : list Byte.byte := encode_string (be_bytes n).

Inductive rlp_kind : Type := KString | KList.

(** Cuts [n] bytes of content off the input. *)
Definition take_content (k : rlp_kind) (n : nat) (bs : list Byte.byte)
    : option (rlp_kind * list Byte.byte * list Byte.byte) :=
  if decide (n ≤ length bs) then Some (k, take n bs, drop n bs) else None.

(** The long form: [ll] bytes of length, then the content. *)
Definition take_long (k : rlp_kind) (ll : nat) (bs : list Byte.byte)
    : option (rlp_kind * list Byte.byte * list Byte.byte) :=
  if decide (ll ≤ length bs)
  then take_content k (Z.to_nat (be_value (take ll bs))) (drop ll bs)
  else None.

(** Reads one item: its kind, its content and the input that follows. *)
Definition split_item (bs : list Byte.byte)
    : option (rlp_kind * list Byte.byte * list Byte.byte) :=
  match bs with
  | [] => None
  | b :: tl =>
      let p := byte_to_Z b in
      if (p <? 128)%Z then Some (KString, [b], tl)
      else if (p <? 184)%Z then take_content KString (Z.to_nat (p - 128)) tl
      else if (p <? 192)%Z then take_long KString (Z.to_nat (p - 183)) tl
      else if (p <? 248)%Z then take_content KList (Z.to_nat (p - 192)) tl
      else take_long KList (Z.to_nat (p - 247)) tl
  end.

Definition decode_string (bs : list Byte.byte) : option (list Byte.byte * list Byte.byte) :=
  match split_item bs with
  | Some (KString, content, rest) => Some (content, rest)
  | _ => None
  end.

Definition decode_list (bs : list Byte.byte) : option (list Byte.byte * list Byte.byte) :=
  match split_item bs with
  | Some (KList, content, rest) => Some (content, rest)
  | _ => None
  end.

(** An integer: a string without a leading zero byte. *)
Definition decode_uint (bs : list Byte.byte) : option (Z * list Byte.byte) :=
  '(content, rest) ← decode_string bs;
  match content with
  | b :: _ => if (byte_to_Z b =? 0)%Z then None else Some (be_value content, rest)
  | [] => Some (0%Z, rest)
  end.

(** A [uint64]: an integer of at most eight bytes. *)
Definition decode_uint64 (bs : list Byte.byte) : option (Z * list Byte.byte) :=
  '(n, rest) ← decode_uint bs;
  if (n <? 2 ^ 64)%Z then Some (n, rest) else None.

(** A byte array of [w] bytes, as [common.Address] (20) and [common.Hash]
    (32). *)
Definition decode_fixed (w : nat) (bs : list Byte.byte) : option (Z * list Byte.byte) :=
  '(content, rest) ← decode_string bs;
  if decide (length content = w) then Some (be_value content, rest) else None.

(** A pointer to an address tagged [rlp:"nil"]: the empty string is nil. *)
Definition decode_address_ptr (bs : list Byte.byte)
    : option (option common_Address * list Byte.byte) :=
  '(content, rest) ← decode_string bs;
  if decide (length content = 0) then Some (None, rest)
  else if decide (length content = 20) then Some (Some (be_value content), rest)
  else None.

(** The elements of a list content, each read by [dec]; [fuel] bounds the
    number of elements and the length of the content is enough. *)
Fixpoint decode_elements {A} (dec : list Byte.byte → option (A * list Byte.byte))
    (fuel : nat) (bs : list Byte.byte) : option (list A) :=
  match bs with
  | [] => Some []
  | _ :: _ =>
      match fuel with
      | 0 => None
      | S fuel' =>
          '(x, rest) ← dec bs;
          xs ← decode_elements dec fuel' rest;
          Some (x :: xs)
      end
  end.

Definition encode_tuple (a : AccessTuple) : list Byte.byte :=
  encode_list (encode_string (be_fixed 20 (Address a))
               ++ encode_list (mjoin ((λ k, encode_string (be_fixed 32 k))
                                      <$> default [] (StorageKeys a)))).

Definition decode_tuple (bs : list Byte.byte) : option (AccessTuple * list Byte.byte) :=
  '(content, rest) ← decode_list bs;
  '(addr, c1) ← decode_fixed 20 content;
  '(keys_content, c2) ← decode_list c1;
  keys ← decode_elements (decode_fixed 32) (length keys_content) keys_content;
  match c2 with
  | [] => Some (mkAccessTuple addr (Some keys), rest)
  | _ :: _ => None
  end.

Definition encode_access_list (al : list AccessTuple) : list Byte.byte :=
  encode_list (mjoin (encode_tuple <$> al)).

Definition decode_access_list (bs : list Byte.byte)
    : option (list AccessTuple * list Byte.byte) :=
  '(content, rest) ← decode_list bs;
  tuples ← decode_elements decode_tuple (length content) content;
  Some (tuples, rest).

(** The content of an instance, read out of the store: what goes on the
    wire, in the order of the struct declaration. *)
Record TxContent : Type := mkTxContent {
  c_ChainID : Z;
  c_AccountNonce : Z;
  c_GasTipCap : Z;
  c_GasFeeCap : Z;
  c_GasLimit : Z;
  c_Recipient : option common_Address;
  c_Amount : Z;
  c_Payload : list Byte.byte;
  c_AccessList : list AccessTuple;
  c_V : Z;
  c_R : Z;
  c_S : Z
}.

Definition encode_content (c : TxContent) : list Byte.byte :=
  encode_list (
    encode_uint (c_ChainID c) ++
    encode_uint (c_AccountNonce c) ++
    encode_uint (c_GasTipCap c) ++
    encode_uint (c_GasFeeCap c) ++
    encode_uint (c_GasLimit c) ++
    encode_string (match c_Recipient c with Some a => be_fixed 20 a | None => [] end) ++
    encode_uint (c_Amount c) ++
    encode_string (c_Payload c) ++
    encode_access_list (c_AccessList c) ++
    encode_uint (c_V c) ++
    encode_uint (c_R c) ++
    encode_uint (c_S c)).

Definition decode_content (bs : list Byte.byte) : option TxContent :=
  '(content, rest) ← decode_list bs;
  '(chainID, b1) ← decode_uint content;
  '(nonce, b2) ← decode_uint64 b1;
  '(tip, b3) ← decode_uint b2;
  '(fee, b4) ← decode_uint b3;
  '(gasLimit, b5) ← decode_uint64 b4;
  '(to, b6) ← decode_address_ptr b5;
  '(amount, b7) ← decode_uint b6;
  '(payload, b8) ← decode_string b7;
  '(al, b9) ← decode_access_list b8;
  '(v, b10) ← decode_uint b9;
  '(r, b11) ← decode_uint b10;
  '(s, b12) ← decode_uint b11;
  match b12, rest with
  | [], [] => Some (mkTxContent chainID nonce tip fee gasLimit to amount payload al v r s)
  | _, _ => None
  end.

(** A [*big.Int] on the wire: nil is written as zero, a negative number
    is refused. *)
Definition wire_big (p : option loc) : M (Z + error) :=
  match p with
  | None => ret (inl 0%Z)
  | Some _ =>
      let* v := big_load p in
      if (v <? 0)%Z then ret (inr (ErrOther "rlp: cannot encode negative big.Int"))
      else ret (inl v)
  end.

(** Reads the content of an instance. *)
Definition content_of (t : TxInternalDataDynamicFee) : M (TxContent + error) :=
  let* chainID := wire_big (ChainID t) in
  let* tip := wire_big (GasTipCap t) in
  let* fee := wire_big (GasFeeCap t) in
  let* amount := wire_big (Amount t) in
  let* v := wire_big (SigV t) in
  let* r := wire_big (SigR t) in
  let* s := wire_big (SigS t) in
  λ h,
    match chainID, tip, fee, amount, v, r, s with
    | inl chainID, inl tip, inl fee, inl amount, inl v, inl r, inl s =>
        Done (inl (mkTxContent chainID (AccountNonce t) tip fee (GasLimit t)
                     (Recipient t) amount (payload_of h t) (access_list_of h t) v r s), h)
    | inr e, _, _, _, _, _, _ | _, inr e, _, _, _, _, _ | _, _, inr e, _, _, _, _
    | _, _, _, inr e, _, _, _ | _, _, _, _, inr e, _, _ | _, _, _, _, _, inr e, _
    | _, _, _, _, _, _, inr e => Done (inr e, h)
    end.

(** [rlp.EncodeToBytes(t)] *)
Definition EncodeRLP (t : TxInternalDataDynamicFee) : M (list Byte.byte + error) :=
  let* c := content_of t in
  match c with
  | inl c => ret (inl (encode_content c))
  | inr e => ret (inr e)
  end.

(** A new [big.Int] holding [v]. *)
Definition big_alloc (v : Z) : M (option loc) :=
  λ h, let l := fresh (dom (bigInts h)) in
       Done (Some l, with_bigInts (insert l v) h).

(** New backing arrays holding the given elements; the slices made are
    never nil. *)
Definition bytes_alloc (bs : list Byte.byte) : M slice :=
  λ h, let a := fresh (dom (byteArrays h)) in
       Done (Slice a 0 (length bs), with_byteArrays (insert a bs) h).
Definition tuples_alloc (al : list AccessTuple) : M slice :=
  λ h, let a := fresh (dom (tupleArrays h)) in
       Done (Slice a 0 (length al), with_tupleArrays (insert a al) h).

(** [rlp.DecodeBytes(bytes, t)] into an empty instance: every pointer and
    slice decoded is newly allocated. *)
Definition DecodeRLP (bytes : list Byte.byte) : M (TxInternalDataDynamicFee + error) :=
  match decode_content bytes with
  | None => ret (inr (ErrOther "rlp: input does not decode"))
  | Some c =>
      let* chainID := big_alloc (c_ChainID c) in
      let* tip := big_alloc (c_GasTipCap c) in
      let* fee := big_alloc (c_GasFeeCap c) in
      let* amount := big_alloc (c_Amount c) in
      let* payload := bytes_alloc (c_Payload c) in
      let* al := tuples_alloc (c_AccessList c) in
      let* v := big_alloc (c_V c) in
      let* r := big_alloc (c_R c) in
      let* s := big_alloc (c_S c) in
      ret (inl (mkTx chainID (c_AccountNonce c) tip fee (c_GasLimit c) (c_Recipient c)
                  amount payload al v r s None))
  end.

(** What the wire can carry of a tuple: a 20-byte address and storage keys
    of 32 bytes in a slice that is not nil. *)
Definition tuple_valid (a : AccessTuple) : Prop :=
  (0 ≤ Address a < 2 ^ 160)%Z
  ∧ ∃ ks, StorageKeys a = Some ks ∧ Forall (λ k, 0 ≤ k < 2 ^ 256)%Z ks.

(** What the wire can carry of a content: 256-bit quantities, 64-bit
    counters, a 20-byte recipient, valid tuples, and an encoding shorter
    than [2^64] bytes. *)
Definition content_valid (c : TxContent) : Prop :=
  (0 ≤ c_ChainID c < 2 ^ 256)%Z ∧ (0 ≤ c_AccountNonce c < 2 ^ 64)%Z
  ∧ (0 ≤ c_GasTipCap c < 2 ^ 256)%Z ∧ (0 ≤ c_GasFeeCap c < 2 ^ 256)%Z
  ∧ (0 ≤ c_GasLimit c < 2 ^ 64)%Z
  ∧ (∀ a, c_Recipient c = Some a → 0 ≤ a < 2 ^ 160)%Z
  ∧ (0 ≤ c_Amount c < 2 ^ 256)%Z
  ∧ Forall tuple_valid (c_AccessList c)
  ∧ (0 ≤ c_V c < 2 ^ 256)%Z ∧ (0 ≤ c_R c < 2 ^ 256)%Z ∧ (0 ≤ c_S c < 2 ^ 256)%Z
  ∧ (Z.of_nat (length (encode_content c)) < 2 ^ 64)%Z.

(** The content of an instance whose [big.Int] fields all point to cells. *)
Definition tx_content (h : heap) (t : TxInternalDataDynamicFee) : option TxContent :=
  chainID ← big_value h (ChainID t);
  tip ← big_value h (GasTipCap t);
  fee ← big_value h (GasFeeCap t);
  amount ← big_value h (Amount t);
  v ← big_value h (SigV t);
  r ← big_value h (SigR t);
  s ← big_value h (SigS t);
  Some (mkTxContent chainID (AccountNonce t) tip fee (GasLimit t) (Recipient t)
          amount (payload_of h t) (access_list_of h t) v r s).

(** A slice that is not nil and whose backing array exists. *)
Definition slice_allocated {A} (m : gmap loc (list A)) (s : slice) : Prop :=
  ∃ a off n, s = Slice a off n ∧ is_Some (m !! a).

(** A valid field combination for the wire: the numeric cells exist, the
    access list is a slice over an existing array, and the content is one
    the wire can carry. *)
Definition wire_valid (h : heap) (t : TxInternalDataDynamicFee) : Prop :=
  ∃ c, tx_content h t = Some c ∧ content_valid c
       ∧ slice_allocated (tupleArrays h) (AccessList t).

(** Every cell and array of the first store is in the second, unchanged. *)
Definition heap_extends (h h' : heap) : Prop :=
  bigInts h ⊆ bigInts h' ∧ byteArrays h ⊆ byteArrays h' ∧ tupleArrays h ⊆ tupleArrays h'.

(* ===================================================================== *)
(** ** JSON encoding                                                     *)
(* ===================================================================== *)

Section json_encode.
(** [t.Type()] and [t.Type().String()]: the type tag of this variant and
    its name, declared outside this file. *)
Variable TxTypeDynamicFee : Z.
Variable TxTypeDynamicFee_String : string.
(** [json.Marshal]: the encoder is a collaborator. *)
Variable json_Marshal : TxInternalDataDynamicFeeJSON → M (list Byte.byte + error).

(** The struct literal of [MarshalJSON]; the casts to [*hexutil.Big] keep
    the pointers. *)
Definition json_struct_of (t : TxInternalDataDynamicFee) : TxInternalDataDynamicFeeJSON :=
  mkTxJSON
    TxTypeDynamicFee
    TxTypeDynamicFee_String
    (AccountNonce t)
    (GasTipCap t)
    (GasFeeCap t)
    (GasLimit t)
    (Recipient t)
    (Amount t)
    (Payload t)
    [Some (mkTxSignatureJSON (SigV t) (SigR t) (SigS t))]
    (AccessList t)
    (ChainID t)
    (Hash t).

(** [MarshalJSON] *)
Definition MarshalJSON (t : TxInternalDataDynamicFee) : M (list Byte.byte + error) :=
  json_Marshal (json_struct_of t).
End json_encode.

(** Two pointers, each in its store, to cells holding the same number. *)
Definition big_same (h : heap) (p : option loc) (h' : heap) (p' : option loc) : Prop :=
  ∃ v, big_value h p = Some v ∧ big_value h' p' = Some v.

Definition signature_same (h : heap) (s : option TxSignatureJSON)
    (h' : heap) (s' : option TxSignatureJSON) : Prop :=
  ∃ sig sig', s = Some sig ∧ s' = Some sig'
              ∧ big_same h (sig_V sig) h' (sig_V sig')
              ∧ big_same h (sig_R sig) h' (sig_R sig')
              ∧ big_same h (sig_S sig) h' (sig_S sig').

(** What is asked of the JSON collaborators on one struct: the struct
    [js'] decoded in store [h'] carries the data of the struct [js] that
    was encoded in store [h], field by field and, for the sequences,
    element by element. *)
Definition json_carries (h : heap) (js : TxInternalDataDynamicFeeJSON)
    (h' : heap) (js' : TxInternalDataDynamicFeeJSON) : Prop :=
  js_AccountNonce js' = js_AccountNonce js
  ∧ big_same h (js_MaxPriorityFeePerGas js) h' (js_MaxPriorityFeePerGas js')
  ∧ big_same h (js_MaxFeePerGas js) h' (js_MaxFeePerGas js')
  ∧ js_GasLimit js' = js_GasLimit js
  ∧ js_Recipient js' = js_Recipient js
  ∧ big_same h (js_Amount js) h' (js_Amount js')
  ∧ slice_read (byteArrays h') (js_Payload js') = slice_read (byteArrays h) (js_Payload js)
  ∧ Forall2 (λ s s', signature_same h s h' s') (js_TxSignatures js) (js_TxSignatures js')
  ∧ slice_is_nil (js_AccessList js') = slice_is_nil (js_AccessList js)
  ∧ slice_read (tupleArrays h') (js_AccessList js')
    = slice_read (tupleArrays h) (js_AccessList js)
  ∧ big_same h (js_ChainID js) h' (js_ChainID js')
  ∧ js_Hash js' = js_Hash js.

(** A slice that is nil or whose backing array exists. *)
Definition slice_wf {A} (m : gmap loc (list A)) (s : slice) : Prop :=
  match s with
  | SliceNil => True
  | Slice a _ _ => is_Some (m !! a)
  end.

(* ===================================================================== *)
(** ** Accessors and signature attachment                                *)
(* ===================================================================== *)

(** [GetPrice], [GetGasTipCap] and [GetGasFeeCap] hand out the pointer the
    instance holds. *)
Definition GetPrice (t : TxInternalDataDynamicFee) : option loc := GasFeeCap t.
Definition GetGasTipCap (t : TxInternalDataDynamicFee) : option loc := GasTipCap t.
Definition GetGasFeeCap (t : TxInternalDataDynamicFee) : option loc := GasFeeCap t.

(** [GetAmount]: [new(big.Int).Set(t.Amount)]. *)
Definition GetAmount (t : TxInternalDataDynamicFee) : M (option loc) :=
  let* z := big_new in big_Set z (Amount t).

(** Modelled from the spec: [TxSignature] and [TxSignatures] are declared
    outside this file; a signature is a triple of big integers (recovery
    id, r, s), read back as a one-element ordered sequence.  The sequence
    holds pointers to triples, [None] being a nil pointer. *)
Record TxSignature : Type := mkTxSignature {
  ts_V : option loc;
  ts_R : option loc;
  ts_S : option loc
}.

(** Modelled from the spec: [logger.Crit] is declared outside this file;
    attaching zero or more than one signature is a fatal fault that halts
    the process, so the call does not return. *)
Definition logger_Crit {A} (msg : string) : M A := panic msg.

(** [signatures[0]] followed by a field access. *)
Definition first_TxSignature (signatures : list (option TxSignature)) : M TxSignature :=
  match signatures with
  | [] => panic index_out_of_range
  | None :: _ => panic nil_dereference
  | Some sig :: _ => ret sig
  end.

(** [SetSignature] *)
Definition SetSignature (signatures : list (option TxSignature))
    (t : TxInternalDataDynamicFee) : M TxInternalDataDynamicFee :=
  (if decide (length signatures ≠ 1)
   then logger_Crit "TxTypeDynamicFee can receive only single signature!"
   else ret tt) ;;
  let* sig := first_TxSignature signatures in
  let t := set_SigV (ts_V sig) t in
  let* sig := first_TxSignature signatures in
  let t := set_SigR (ts_R sig) t in
  let* sig := first_TxSignature signatures in
  let t := set_SigS (ts_S sig) t in
  ret t.

(** [RawSignatureValues] *)
Definition RawSignatureValues (t : TxInternalDataDynamicFee) : list (option TxSignature) :=
  [Some (mkTxSignature (SigV t) (SigR t) (SigS t))].

Section chain_id.
(** [deriveChainId], declared outside this file: the chain id worked out
    of the recovery component of a signature. *)
Variable deriveChainId : option loc → M (option loc).

(** [ChainId] *)
Definition ChainId (t : TxInternalDataDynamicFee) : M (option loc) :=
  if decide (ChainID t ≠ None) then ret (ChainID t) else deriveChainId (SigV t).
End chain_id.

Section sender_hash.
(** [t.Type()], the tag of this variant, and [prefixedRlpHash], both
    declared outside this file. *)
Variable TxTypeDynamicFee : Z.
Variable prefixedRlpHash : Z → list Value → common_Hash.

(** The values [SenderTxHash] hands to the hash. *)
Definition SenderTxHash_fields (t : TxInternalDataDynamicFee) : list Value :=
  [ V_bigInt (ChainID t);
    V_uint64 (AccountNonce t);
    V_bigInt (GasTipCap t);
    V_bigInt (GasFeeCap t);
    V_uint64 (GasLimit t);
    V_AddressPtr (Recipient t);
    V_bigInt (Amount t);
    V_bytes (Payload t);
    V_AccessList (AccessList t);
    V_bigInt (SigV t);
    V_bigInt (SigR t);
    V_bigInt (SigS t) ].

(** [SenderTxHash]; [byte(t.Type())] keeps the low 8 bits of the tag. *)
Definition SenderTxHash (t : TxInternalDataDynamicFee) : common_Hash :=
  prefixedRlpHash (TxTypeDynamicFee mod 2 ^ 8)%Z (SenderTxHash_fields t).
End sender_hash.

(** A receipt: the contract address and whatever else it holds. *)
Record Receipt (Other : Type) : Type := mkReceipt {
  ContractAddress : common_Address;
  receipt_other : Other
}.
Arguments mkReceipt {Other} _ _.
Arguments ContractAddress {Other} _.
Arguments receipt_other {Other} _.

Section fill.
Context {Other : Type}.
(** [crypto.CreateAddress], declared outside this file. *)
Variable crypto_CreateAddress : common_Address → Z → common_Address.

(** [FillContractAddress] *)
Definition FillContractAddress (t : TxInternalDataDynamicFee) (from : common_Address)
    (r : Receipt Other) : Receipt Other :=
  match Recipient t with
  | None => mkReceipt (crypto_CreateAddress from (AccountNonce t)) (receipt_other r)
  | Some _ => r
  end.
End fill.

(* ===================================================================== *)
(** ** The map handed to the RPC layer                                   *)
(* ===================================================================== *)

(** A value of the RPC map or a member of the JSON struct, by its Go
    type. *)
Inductive RPCValue : Type :=
| R_TxType (typ : Z)
| R_string (s : string)
| R_Uint64 (n : Z)
| R_Big (p : option loc)
| R_Bytes (b : slice)
| R_AddressPtr (a : option common_Address)
| R_AccessList (al : slice)
| R_Signatures (sigs : list (option TxSignatureJSON))
| R_HashPtr (hash : option common_Hash).

(** The members of [TxInternalDataDynamicFeeJSON] under the names its
    field tags give them, in the order of declaration. *)
Definition json_members (js : TxInternalDataDynamicFeeJSON) : list (string * RPCValue) :=
  [ ("typeInt", R_TxType (js_Type js));
    ("type", R_string (js_TypeStr js));
    ("nonce", R_Uint64 (js_AccountNonce js));
    ("maxPriorityFeePerGas", R_Big (js_MaxPriorityFeePerGas js));
    ("maxFeePerGas", R_Big (js_MaxFeePerGas js));
    ("gas", R_Uint64 (js_GasLimit js));
    ("to", R_AddressPtr (js_Recipient js));
    ("value", R_Big (js_Amount js));
    ("input", R_Bytes (js_Payload js));
    ("signatures", R_Signatures (js_TxSignatures js));
    ("accessList", R_AccessList (js_AccessList js));
    ("chainId", R_Big (js_ChainID js));
    ("hash", R_HashPtr (js_Hash js)) ].

Section rpc.
Variable TxTypeDynamicFee : Z.
Variable TxTypeDynamicFee_String : string.
Variable deriveChainId : option loc → M (option loc).

(** [MakeRPCOutput] *)
Definition MakeRPCOutput (t : TxInternalDataDynamicFee) : M (gmap string RPCValue) :=
  let* chainId := ChainId deriveChainId t in
  ret (list_to_map
         [ ("typeInt", R_TxType TxTypeDynamicFee);
           ("chainId", R_Big chainId);
           ("type", R_string TxTypeDynamicFee_String);
           ("gas", R_Uint64 (GasLimit t));
           ("maxPriorityFeePerGas", R_Big (GasTipCap t));
           ("maxFeePerGas", R_Big (GasFeeCap t));
           ("input", R_Bytes (Payload t));
           ("nonce", R_Uint64 (AccountNonce t));
           ("to", R_AddressPtr (Recipient t));
           ("value", R_Big (Amount t));
           ("accessList", R_AccessList (AccessList t));
           ("signatures",
            R_Signatures [Some (mkTxSignatureJSON (SigV t) (SigR t) (SigS t))]) ]).
End rpc.

(* ===================================================================== *)
(** ** Vocabulary for the constructors                                   *)
(* ===================================================================== *)

(** The seven [*big.Int] fields of an instance. *)
Definition big_fields (t : TxInternalDataDynamicFee) : list (option loc) :=
  [ChainID t; GasTipCap t; GasFeeCap t; Amount t; SigV t; SigR t; SigS t].

(** A pointer to a cell that a store does not have (yet). *)
Definition big_fresh (h : heap) (p : option loc) : Prop :=
  ∃ l, p = Some l ∧ bigInts h !! l = None.

(** A [*big.Int] argument: nil, or a pointer to a cell of the store. *)
Definition big_wf (h : heap) (p : option loc) : Prop :=
  p = None ∨ big_allocated h p.

(** A slice argument: nil, or a window that lies within an array of the
    store. *)
Definition slice_ok {A} (m : gmap loc (list A)) (s : slice) : Prop :=
  match s with
  | SliceNil => True
  | Slice a off n => ∃ arr, m !! a = Some arr ∧ off + n ≤ length arr
  end.

(** A slice that is not nil and whose array a store does not have. *)
Definition slice_fresh {A} (m : gmap loc (list A)) (s : slice) : Prop :=
  ∃ a off n, s = Slice a off n ∧ m !! a = None.

(** From one store to another by allocations only: new [big.Int] cells
    holding zero, in the order listed, and new arrays in between. *)
Inductive alloc_chain : heap → list loc → heap → Prop :=
| alloc_chain_done h : alloc_chain h [] h
| alloc_chain_big h l ls h' :
    bigInts h !! l = None →
    alloc_chain (with_bigInts (insert l 0%Z) h) ls h' →
    alloc_chain h (l :: ls) h'
| alloc_chain_array h h1 ls h' :
    bigInts h1 = bigInts h →
    byteArrays h ⊆ byteArrays h1 → tupleArrays h ⊆ tupleArrays h1 →
    alloc_chain h1 ls h' →
    alloc_chain h ls h'.

(* ===================================================================== *)
(** ** Vocabulary for the construction from a map                        *)
(* ===================================================================== *)

(** The error reserved for the required key at each position, in the
    order the constructor consumes the keys; position 9 stands for the
    check of left-over keys. *)
Definition key_error (n : nat) : error :=
  match n with
  | 0 => errValueKeyNonceMustUint64
  | 1 => errValueKeyToMustAddress
  | 2 => errValueKeyAmountMustBigInt
  | 3 => errValueKeyDataMustByteSlice
  | 4 => errValueKeyGasLimitMustUint64
  | 5 => errValueKeyGasFeeCapMustBigInt
  | 6 => errValueKeyGasTipCapMustBigInt
  | 7 => errValueKeyAccessListInvalid
  | 8 => errValueKeyChainIDInvalid
  | _ => errUndefinedKeyRemains
  end.

(** Whether the map holds, under the required key at a position, a value
    of the type the constructor asserts there. *)
Definition slot_ok (n : nat) (values : gmap TxValueKeyType Value) : bool :=
  match n with
  | 0 => bool_decide (is_Some (assert_uint64 (values !! TxValueKeyNonce)))
  | 1 => bool_decide (is_Some (assert_Address (values !! TxValueKeyTo)))
  | 2 => bool_decide (is_Some (assert_bigInt (values !! TxValueKeyAmount)))
  | 3 => bool_decide (is_Some (assert_bytes (values !! TxValueKeyData)))
  | 4 => bool_decide (is_Some (assert_uint64 (values !! TxValueKeyGasLimit)))
  | 5 => bool_decide (is_Some (assert_bigInt (values !! TxValueKeyGasFeeCap)))
  | 6 => bool_decide (is_Some (assert_bigInt (values !! TxValueKeyGasTipCap)))
  | 7 => bool_decide (is_Some (assert_AccessList (values !! TxValueKeyAccessList)))
  | 8 => bool_decide (is_Some (assert_bigInt (values !! TxValueKeyChainID)))
  | _ => true
  end.

(** The map with the first [n] required keys removed. *)
Definition drain (n : nat) (values : gmap TxValueKeyType Value)
    : gmap TxValueKeyType Value :=
  foldl (λ m k, delete k m) values (take n required_keys).

(* ===================================================================== *)
(** ** The genesis options (package [genesis])                           *)
(* ===================================================================== *)

Definition slice_bounds_out_of_range : string := "slice bounds out of range".

(** [s[low:]]: the rest of a slice from index [low], which must not
    exceed its length. *)
Definition slice_from (s : slice) (low : nat) : M slice :=
  match s with
  | SliceNil => if decide (low = 0) then ret SliceNil else panic slice_bounds_out_of_range
  | Slice a off n =>
      if decide (low ≤ n) then ret (Slice a (off + low) (n - low))
      else panic slice_bounds_out_of_range
  end.

(** The built-in [copy(dst, src)] whose source is an array value of the
    caller's frame, given by its elements. *)
Definition array_copy_from {A} (dst : slice) (src : list A) (m : gmap loc (list A))
    : nat * gmap loc (list A) :=
  let data := take (slice_len dst) src in
  match dst with
  | SliceNil => (0, m)
  | Slice a off _ =>
      (length data,
       alter (λ arr, take off arr ++ data ++ drop (off + length data) arr) a m)
  end.

(** [make([]byte, n)] *)
Definition make_bytes (n : nat) : M slice :=
  λ h, let '(s, m) := array_make zero_byte n (byteArrays h) in
       Done (s, with_byteArrays (λ _, m) h).

(** [big.NewInt(x)]: a new cell holding [x]. *)
Definition big_NewInt (x : Z) : M (option loc) :=
  λ h, let l := fresh (dom (bigInts h)) in
       Done (Some l, with_bigInts (insert l x) h).

Module genesis.

(** Modelled from the spec: [blockchain.GenesisAccount] is declared
    outside this file; the options write its code and its balance, the
    code being the bytes a hexadecimal text stands for ([None] where a
    literal leaves it out) and the balance a pointer to a [big.Int]. *)
Record GenesisAccount : Type := mkGenesisAccount {
  Code : option (list Byte.byte);
  Balance : option loc
}.

(** Modelled from the spec: [blockchain.Genesis] is declared outside this
    file; the options modelled here write its extra data and its
    allocation, a map from address to account that is nil ([None]) until
    it is assigned.  Whatever else it holds is [Genesis_other]. *)
Record Genesis (Other : Type) : Type := mkGenesis {
  Genesis_ExtraData : slice;
  Genesis_Alloc : option (gmap common_Address GenesisAccount);
  Genesis_other : Other
}.
Arguments mkGenesis {Other} _ _ _.
Arguments Genesis_ExtraData {Other} _.
Arguments Genesis_Alloc {Other} _.
Arguments Genesis_other {Other} _.

Definition set_ExtraData {Other} (v : slice) (g : Genesis Other) : Genesis Other :=
  mkGenesis v (Genesis_Alloc g) (Genesis_other g).
Definition set_Alloc {Other} (v : option (gmap common_Address GenesisAccount))
    (g : Genesis Other) : Genesis Other :=
  mkGenesis (Genesis_ExtraData g) v (Genesis_other g).

(** [Option]: a function on the genesis block a pointer is passed for; it
    is given the block as it is and returns it as the call leaves it. *)
Definition Option (Other : Type) : Type := Genesis Other → M (Genesis Other).

Section clique.
Context {Other : Type}.
(** [clique.ExtraVanity], [clique.ExtraSeal] and [common.AddressLength],
    declared outside this file.  An address is an array of
    [AddressLength] bytes: [signer[:]] is the big-endian bytes of the
    number that stands for it. *)
Variable ExtraVanity : nat.
Variable ExtraSeal : nat.
Variable AddressLength : nat.

(** The loop of [ValidatorsOfClique], from index [i] on. *)
Fixpoint copy_signers (data : slice) (i : nat) (signers : list common_Address) : M unit :=
  match signers with
  | [] => ret tt
  | signer :: signers =>
      let* dst := slice_from data (32 + i * AddressLength) in
      (λ h, let '(_, m) := array_copy_from dst (be_fixed AddressLength signer)
                             (byteArrays h) in
            Done (tt, with_byteArrays (λ _, m) h)) ;;
      copy_signers data (S i) signers
  end.

(** [ValidatorsOfClique] *)
Definition ValidatorsOfClique (signers : list common_Address) : Option Other :=
  λ genesis,
    let* data := make_bytes (ExtraVanity + length signers * AddressLength + ExtraSeal) in
    let genesis := set_ExtraData data genesis in
    copy_signers (Genesis_ExtraData genesis) 0 signers ;;
    ret genesis.
End clique.

(** [makeGenesisAccount] *)
Definition makeGenesisAccount (addrs : list common_Address) (balance : option loc)
    : gmap common_Address GenesisAccount :=
  foldl (λ alloc addr, <[addr := mkGenesisAccount None balance]> alloc) ∅ addrs.

(** [Alloc] *)
Definition Alloc {Other} (addrs : list common_Address) (balance : option loc)
    : Option Other :=
  λ genesis,
    let alloc := makeGenesisAccount addrs balance in
    ret (set_Alloc (Some alloc) genesis).

Section contracts.
Context {Other : Type}.
(** The addresses [common.HexToAddress] reads from
    [contract.CypressCreditContractAddress] and
    [contract.AddressBookContractAddress], and the bytes [common.FromHex]
    reads from the contract binaries; the texts are declared outside this
    file. *)
Variable CypressCreditContractAddress : common_Address.
Variable AddressBookContractAddress : common_Address.
Variable CypressCreditBin : list Byte.byte.
Variable PreCypressAddressBookBin : list Byte.byte.
Variable CypressAddressBookBin : list Byte.byte.
Variable PrebaobabAddressBookBin : list Byte.byte.
Variable BaobabAddressBookBin : list Byte.byte.

(** [AllocWithPrecypressContract] *)
Definition AllocWithPrecypressContract (addrs : list common_Address)
    (balance : option loc) : Option Other :=
  λ genesis,
    let alloc := makeGenesisAccount addrs balance in
    let* zero := big_NewInt 0 in
    let alloc := <[CypressCreditContractAddress :=
                     mkGenesisAccount (Some CypressCreditBin) zero]> alloc in
    let* zero := big_NewInt 0 in
    let alloc := <[AddressBookContractAddress :=
                     mkGenesisAccount (Some PreCypressAddressBookBin) zero]> alloc in
    ret (set_Alloc (Some alloc) genesis).

(** [AllocWithCypressContract] *)
Definition AllocWithCypressContract (addrs : list common_Address)
    (balance : option loc) : Option Other :=
  λ genesis,
    let alloc := makeGenesisAccount addrs balance in
    let* zero := big_NewInt 0 in
    let alloc := <[CypressCreditContractAddress :=
                     mkGenesisAccount (Some CypressCreditBin) zero]> alloc in
    let* zero := big_NewInt 0 in
    let alloc := <[AddressBookContractAddress :=
                     mkGenesisAccount (Some CypressAddressBookBin) zero]> alloc in
    ret (set_Alloc (Some alloc) genesis).

(** [AllocWithPrebaobabContract] *)
Definition AllocWithPrebaobabContract (addrs : list common_Address)
    (balance : option loc) : Option Other :=
  λ genesis,
    let alloc := makeGenesisAccount addrs balance in
    let* zero := big_NewInt 0 in
    let alloc := <[AddressBookContractAddress :=
                     mkGenesisAccount (Some PrebaobabAddressBookBin) zero]> alloc in
    ret (set_Alloc (Some alloc) genesis).

(** [AllocWithBaobabContract] *)
Definition AllocWithBaobabContract (addrs : list common_Address)
    (balance : option loc) : Option Other :=
  λ genesis,
    let alloc := makeGenesisAccount addrs balance in
    let* zero := big_NewInt 0 in
    let alloc := <[AddressBookContractAddress :=
                     mkGenesisAccount (Some BaobabAddressBookBin) zero]> alloc in
    ret (set_Alloc (Some alloc) genesis).
End contracts.

(** An account of a map installed by a call: the code given, and as
    balance the cell [l], which the store did not have before the call
    and which holds zero after it. *)
Definition contract_account (h h' : heap) (m : gmap common_Address GenesisAccount)
    (addr : common_Address) (code : list Byte.byte) (l : loc) : Prop :=
  m !! addr = Some (mkGenesisAccount (Some code) (Some l))
  ∧ bigInts h !! l = None ∧ bigInts h' !! l = Some 0%Z.

(** What a call with contracts leaves: the allocation is replaced by a
    map [m] over a store that differs by new [big.Int] cells only, and
    the accounts at other addresses than [contracts] are those of
    [makeGenesisAccount]. *)
Definition installs {Other} (f : Option Other) (genesis : Genesis Other) (h : heap)
    (addrs : list common_Address) (balance : option loc)
    (contracts : list common_Address)
    (P : heap → gmap common_Address GenesisAccount → Prop) : Prop :=
  ∃ m h', f genesis h = Done (set_Alloc (Some m) genesis, h')
          ∧ bigInts h ⊆ bigInts h'
          ∧ byteArrays h' = byteArrays h ∧ tupleArrays h' = tupleArrays h
          ∧ (∀ a, a ∉ contracts → m !! a = makeGenesisAccount addrs balance !! a)
          ∧ P h' m.

End genesis.
(** *** Sample data used by the closed examples *)

(** A caller's store: one [big.Int] holding 5, a two-byte array and an
    access list of one tuple. *)
Definition sample_heap : heap :=
  mkHeap {[ 1%positive := 5%Z ]}
         {[ 1%positive := [Byte.x01; Byte.x02] ]}
         {[ 1%positive := [mkAccessTuple 7%Z (Some [1%Z])] ]}.

Definition sample_bigInt : option loc := Some 1%positive.
Definition sample_bytes : slice := Slice 1%positive 0 2.
Definition sample_AccessList : slice := Slice 1%positive 0 1.

Definition sample_values : gmap TxValueKeyType Value :=
  complete_values 3 9%Z sample_bigInt sample_bytes 21000 sample_bigInt
    sample_bigInt sample_AccessList sample_bigInt.

(** Two instances built from the same explicit values except for the
    payload: the first carries the two sample bytes, the second none. *)
Definition sample_pair : M (TxInternalDataDynamicFee * TxInternalDataDynamicFee) :=
  let* d := newTxInternalDataDynamicFeeWithValues 3 (Some 9%Z) sample_bigInt 21000
              sample_bigInt sample_bigInt sample_bytes sample_AccessList sample_bigInt in
  let* e := newTxInternalDataDynamicFeeWithValues 3 (Some 9%Z) sample_bigInt 21000
              sample_bigInt sample_bigInt SliceNil sample_AccessList sample_bigInt in
  ret (d, e).

(** Signature triples in a store of their own: cell 1 holds [r = 1], cell 2
    an [s] just above half the group order, cell 3 the recovery id 0. *)
Definition sample_sig_heap : heap :=
  mkHeap {[ 1%positive := 1%Z; 2%positive := (secp256k1halfN + 1)%Z; 3%positive := 0%Z ]} ∅ ∅.

Definition sample_signed (r s v : positive) : TxInternalDataDynamicFee :=
  setSignatureValues None (Some v) (Some r) (Some s) newEmptyTxInternalDataDynamicFee.

(** The reserved addresses of the sample runs: 1 up to 0x3FF. *)
Definition sample_IsPrecompiledContractAddress (a : common_Address) : bool :=
  (0 <? a)%Z && (a <=? 0x3FF)%Z.

(** A sample engine over a table of account nonces: creation bumps the
    nonce of the caller itself, a call fails and hands back its input. *)
Definition sample_bump (a : common_Address) (w : gmap Z Z) : gmap Z Z :=
  <[a := (default 0 (w !! a) + 1)%Z]> w.

Definition sample_engine : Engine (gmap Z Z) :=
  mkEngine (gmap Z Z)
    sample_bump
    (λ caller code gas value fmt w,
       ((SliceNil, 4096%Z, 53000%Z, None), sample_bump (ContractRef_Address caller) w))
    (λ caller addr input gas value w,
       ((input, gas, Some (ErrOther "execution reverted")), w)).

(** The text [{"signatures":[]}] and what a JSON decoder makes of it: a
    struct with every field at its zero value and an empty signature
    array.  Any other text is refused by this sample decoder. *)
Definition sample_json_text : list Byte.byte :=
  [Byte.x7b; Byte.x22; Byte.x73; Byte.x69; Byte.x67; Byte.x6e; Byte.x61; Byte.x74;
   Byte.x75; Byte.x72; Byte.x65; Byte.x73; Byte.x22; Byte.x3a; Byte.x5b; Byte.x5d;
   Byte.x7d].

Definition sample_json_struct : TxInternalDataDynamicFeeJSON :=
  mkTxJSON 0 "" 0 None None 0 None None SliceNil [] SliceNil None None.

Definition sample_json_Unmarshal (bytes : list Byte.byte)
    : M (TxInternalDataDynamicFeeJSON + error) :=
  if bool_decide (Byte.to_N <$> bytes = Byte.to_N <$> sample_json_text)
  then ret (inl sample_json_struct)
  else ret (inr (ErrOther "invalid character")).

(** The two instances and the store the construction leaves. *)
Definition sample_d : TxInternalDataDynamicFee :=
  Eval vm_compute in
    match sample_pair sample_heap with
    | Done ((d, _), _) => d
    | Panic _ => newEmptyTxInternalDataDynamicFee
    end.
Definition sample_e : TxInternalDataDynamicFee :=
  Eval vm_compute in
    match sample_pair sample_heap with
    | Done ((_, e), _) => e
    | Panic _ => newEmptyTxInternalDataDynamicFee
    end.
Definition sample_pair_heap : heap :=
  Eval vm_compute in
    match sample_pair sample_heap with
    | Done (_, h) => h
    | Panic _ => empty_heap
    end.

(** The instance built from the sample map, with its store: the access
    list holds one tuple with one storage key. *)
Definition sample_m : TxInternalDataDynamicFee :=
  Eval vm_compute in
    match newTxInternalDataDynamicFeeWithMap sample_values sample_heap with
    | Done (mkMapOutcome (inl d) _ _, _) => d
    | _ => newEmptyTxInternalDataDynamicFee
    end.
Definition sample_m_heap : heap :=
  Eval vm_compute in
    match newTxInternalDataDynamicFeeWithMap sample_values sample_heap with
    | Done (_, h) => h
    | Panic _ => empty_heap
    end.
Definition sample_content : TxContent :=
  mkTxContent 5 3 5 5 21000 (Some 9%Z) 5 [Byte.x01; Byte.x02]
    [mkAccessTuple 7%Z (Some [1%Z])] 0 0 0.

(** Sample JSON collaborators: the encoder writes the sample text, the
    decoder allocates a struct carrying the data of [sample_m]. *)
Definition sample_codec_Marshal (js : TxInternalDataDynamicFeeJSON)
    : M (list Byte.byte + error) :=
  ret (inl sample_json_text).
Definition sample_codec_Unmarshal (bytes : list Byte.byte)
    : M (TxInternalDataDynamicFeeJSON + error) :=
  let* tip := big_alloc 5 in
  let* fee := big_alloc 5 in
  let* amount := big_alloc 5 in
  let* payload := bytes_alloc [Byte.x01; Byte.x02] in
  let* v := big_alloc 0 in
  let* r := big_alloc 0 in
  let* s := big_alloc 0 in
  let* al := tuples_alloc [mkAccessTuple 7%Z (Some [1%Z])] in
  let* chainID := big_alloc 5 in
  ret (inl (mkTxJSON 2 "TxTypeDynamicFee" 3 tip fee 21000 (Some 9%Z) amount payload
              [Some (mkTxSignatureJSON v r s)] al chainID None)).
Definition sample_decoded : TxInternalDataDynamicFeeJSON :=
  Eval vm_compute in
    match sample_codec_Unmarshal sample_json_text sample_m_heap with
    | Done (inl js, _) => js
    | _ => sample_json_struct
    end.
Definition sample_decoded_heap : heap :=
  Eval vm_compute in
    match sample_codec_Unmarshal sample_json_text sample_m_heap with
    | Done (_, h) => h
    | Panic _ => empty_heap
    end.

(** An instance whose single tuple has a nil slice of storage keys, in a
    store of its own. *)
Definition sample_nil_keys_heap : heap :=
  mkHeap {[ 1%positive := 0%Z ]} ∅ {[ 1%positive := [mkAccessTuple 7%Z None] ]}.
Definition sample_nil_keys : TxInternalDataDynamicFee :=
  mkTx (Some 1%positive) 0 (Some 1%positive) (Some 1%positive) 0 None (Some 1%positive)
       SliceNil (Slice 1%positive 0 1) (Some 1%positive) (Some 1%positive)
       (Some 1%positive) None.

(** The sample map without its recipient. *)
Definition sample_values_no_recipient : gmap TxValueKeyType Value :=
  delete TxValueKeyTo sample_values.

(** A decoded struct whose only signature carries no value at all. *)
Definition sample_json_struct_unsigned : TxInternalDataDynamicFeeJSON :=
  mkTxJSON 0 "" 0 None None 0 None None SliceNil
    [Some (mkTxSignatureJSON None None None)] SliceNil None None.

Definition sample_json_Unmarshal_unsigned (bytes : list Byte.byte)
    : M (TxInternalDataDynamicFeeJSON + error) :=
  ret (inl sample_json_struct_unsigned).
(* ===================================================================== *)
(** ** Reasoning about store computations                                *)
(* ===================================================================== *)

Lemma bind_Done_inv {A B} (m : M A) (k : A → M B) h r :
  bind m k h = Done r → ∃ a h1, m h = Done (a, h1) ∧ k a h1 = Done r.
Proof.
  unfold bind. destruct (m h) as [[a h1]|why]; [|discriminate].
  intros Hk. by exists a, h1.
Qed.

Lemma ret_Done_inv {A} (a : A) h r : ret a h = Done r → r = (a, h).
Proof. unfold ret. congruence. Qed.

Ltac inv_bind H :=
  let a := fresh "a" in let h := fresh "h" in let Hm := fresh "Hm" in
  apply bind_Done_inv in H as (a & h & Hm & H).

Ltac inv_ret H := apply ret_Done_inv in H; simplify_eq.

(** The zeroed constructor always returns, with an empty access list that
    is not nil. *)
Lemma newTxInternalDataDynamicFee_returns h :
  ∃ d h', newTxInternalDataDynamicFee h = Done (d, h')
          ∧ Recipient d = None
          ∧ (∃ a, AccessList d = Slice a 0 0).
Proof.
  unfold newTxInternalDataDynamicFee, bind, big_new, empty_bytes,
    empty_AccessList, array_make, ret; simpl.
  eexists _, _; split; [reflexivity|]. simpl. eauto.
Qed.

Lemma slice_read_len0 {A} (m : gmap loc (list A)) a off : slice_read m (Slice a off 0) = [].
Proof. reflexivity. Qed.

(* ===================================================================== *)
(** ** Construction from explicit values                                 *)
(* ===================================================================== *)

(** C1 (the code departs from the claim): whatever access list is passed,
    the instance returned by [newTxInternalDataDynamicFeeWithValues] holds
    an access list of length 0.  The destination of the built-in [copy] is
    the zero-length [AccessList{}] of the zeroed constructor, so no element
    is copied. *)
Theorem WithValues_access_list_empty
    nonce to amount gasLimit gasTipCap gasFeeCap data accessList chainID h d h' :
  newTxInternalDataDynamicFeeWithValues nonce to amount gasLimit gasTipCap
    gasFeeCap data accessList chainID h = Done (d, h') →
  slice_len (AccessList d) = 0 ∧ access_list_of h' d = [].
Proof.
  intros H. unfold newTxInternalDataDynamicFeeWithValues in H.
  inv_bind H.
  destruct (newTxInternalDataDynamicFee_returns h) as (d0 & h0' & Hd0 & _ & al & Hal).
  rewrite Hd0 in Hm. simplify_eq.
  inv_bind H.
  assert (Hal1 : AccessList a0 = Slice al 0 0).
  { destruct (decide _); [inv_bind Hm; inv_ret Hm | inv_ret Hm]; done. }
  do 5 inv_bind H. inv_ret H.
  unfold access_list_of. rewrite Hal1. done.
Qed.

(** The failing input of C1: the sample access list holds one tuple, the
    instance built from it holds none. *)
Lemma WithValues_access_list_empty_witness :
  slice_read (tupleArrays sample_heap) sample_AccessList = [mkAccessTuple 7%Z (Some [1%Z])]
  ∧ match newTxInternalDataDynamicFeeWithValues 3 (Some 9%Z) sample_bigInt 21000
            sample_bigInt sample_bigInt sample_bytes sample_AccessList sample_bigInt
            sample_heap
    with
    | Done (d, h') => slice_len (AccessList d) = 0 ∧ access_list_of h' d = []
    | Panic _ => False
    end.
Proof.
  split; [vm_compute; reflexivity|].
  destruct (newTxInternalDataDynamicFeeWithValues _ _ _ _ _ _ _ _ _ _)
    as [[d h']|why] eqn:E.
  - exact (WithValues_access_list_empty _ _ _ _ _ _ _ _ _ _ _ _ E).
  - vm_compute in E. discriminate E.
Defined.


(* ===================================================================== *)
(** ** Facts about the store operations                                  *)
(* ===================================================================== *)

Lemma big_cells_unmutated_refl h : big_cells_unmutated h h.
Proof. intros l. by left. Qed.

Lemma big_cells_unmutated_trans h1 h2 h3 :
  big_cells_unmutated h1 h2 → big_cells_unmutated h2 h3 → big_cells_unmutated h1 h3.
Proof.
  intros H12 H23 l.
  destruct (H23 l) as [E23|[N2 Z3]], (H12 l) as [E12|[N1 Z2]].
  - left. congruence.
  - right. split; congruence.
  - right. split; congruence.
  - right. split; congruence.
Qed.

Lemma big_new_spec h :
  ∃ l, big_new h = Done (Some l, with_bigInts (insert l 0%Z) h)
       ∧ bigInts h !! l = None.
Proof.
  exists (fresh (dom (bigInts h))). split; [done|].
  apply not_elem_of_dom, is_fresh.
Qed.

Lemma big_new_unmutated h p h' :
  big_new h = Done (p, h') →
  big_cells_unmutated h h' ∧ big_allocated h' p
  ∧ byteArrays h' = byteArrays h ∧ tupleArrays h' = tupleArrays h
  ∧ dom (bigInts h) ⊆ dom (bigInts h').
Proof.
  destruct (big_new_spec h) as (l & -> & Hl). intros [= <- <-].
  split_and!; try done.
  - intros l'. simpl. destruct (decide (l = l')) as [<-|Hne].
    + right. by rewrite lookup_insert_eq.
    + left. by rewrite lookup_insert_ne.
  - exists l. split; [done|]. simpl. rewrite lookup_insert_eq. eauto.
  - simpl. rewrite dom_insert_L. set_solver.
Qed.

Lemma big_allocated_mono h h' p :
  dom (bigInts h) ⊆ dom (bigInts h') → big_allocated h p → big_allocated h' p.
Proof.
  intros Hsub (l & -> & Hl). exists l. split; [done|].
  apply elem_of_dom, Hsub, elem_of_dom, Hl.
Qed.

(** [z.Set(x)] on two existing cells returns and keeps the set of cells. *)
Lemma big_Set_allocated h z x :
  big_allocated h z → big_allocated h x →
  ∃ h', big_Set z x h = Done (z, h')
        ∧ dom (bigInts h') = dom (bigInts h)
        ∧ byteArrays h' = byteArrays h ∧ tupleArrays h' = tupleArrays h.
Proof.
  intros (lz & -> & [vz Hz]) (lx & -> & [vx Hx]).
  unfold big_Set. destruct (decide _) as [_|_].
  - exists h. done.
  - unfold bind, big_load. rewrite Hx, Hz. eexists. split; [done|].
    simpl. split_and!; try done.
    assert (lz ∈ dom (bigInts h)) by (apply elem_of_dom; eauto).
    rewrite dom_insert_L. set_solver.
Qed.

Lemma common_CopyBytes_spec h b :
  ∃ p h', common_CopyBytes b h = Done (p, h')
          ∧ bigInts h' = bigInts h ∧ tupleArrays h' = tupleArrays h.
Proof.
  destruct b as [|a off n]; simpl; eauto.
Qed.

Lemma bind_Done {A B} (m : M A) (k : A → M B) h a h1 :
  m h = Done (a, h1) → bind m k h = k a h1.
Proof. unfold bind. by intros ->. Qed.

Lemma empty_bytes_inv h s h' :
  empty_bytes h = Done (s, h') →
  bigInts h' = bigInts h ∧ tupleArrays h' = tupleArrays h ∧ slice_len s = 0.
Proof. unfold empty_bytes, array_make. by intros [= <- <-]. Qed.

Lemma empty_AccessList_inv h s h' :
  empty_AccessList h = Done (s, h') →
  bigInts h' = bigInts h ∧ byteArrays h' = byteArrays h ∧ ∃ a, s = Slice a 0 0.
Proof. unfold empty_AccessList, array_make. intros [= <- <-]. eauto. Qed.

(** What the zeroed constructor establishes: it writes no existing cell,
    and the four numeric fields and the signature triple are new cells. *)
Lemma newTxInternalDataDynamicFee_inv h d h' :
  newTxInternalDataDynamicFee h = Done (d, h') →
  big_cells_unmutated h h'
  ∧ dom (bigInts h) ⊆ dom (bigInts h')
  ∧ big_allocated h' (ChainID d) ∧ big_allocated h' (GasTipCap d)
  ∧ big_allocated h' (GasFeeCap d) ∧ big_allocated h' (Amount d)
  ∧ Recipient d = None.
Proof.
  intros H. unfold newTxInternalDataDynamicFee in H.
  do 9 inv_bind H. inv_ret H. simpl.
  apply big_new_unmutated in Hm as (U1 & A1 & _ & _ & D1).
  apply big_new_unmutated in Hm0 as (U2 & A2 & _ & _ & D2).
  apply big_new_unmutated in Hm1 as (U3 & A3 & _ & _ & D3).
  apply big_new_unmutated in Hm2 as (U4 & A4 & _ & _ & D4).
  apply empty_bytes_inv in Hm3 as (B5 & _).
  apply empty_AccessList_inv in Hm4 as (B6 & _).
  apply big_new_unmutated in Hm5 as (U7 & A7 & _ & _ & D7).
  apply big_new_unmutated in Hm6 as (U8 & A8 & _ & _ & D8).
  apply big_new_unmutated in Hm7 as (U9 & A9 & _ & _ & D9).
  assert (U5 : big_cells_unmutated h3 h4) by (intros l; left; by rewrite B5).
  assert (U6 : big_cells_unmutated h4 h5) by (intros l; left; by rewrite B6).
  rewrite B6, B5 in D7.
  split_and!.
  - repeat (eapply big_cells_unmutated_trans; [eassumption|]).
    apply big_cells_unmutated_refl.
  - set_solver.
  - eapply big_allocated_mono; [|exact A1]. set_solver.
  - eapply big_allocated_mono; [|exact A2]. set_solver.
  - eapply big_allocated_mono; [|exact A3]. set_solver.
  - eapply big_allocated_mono; [|exact A4]. set_solver.
  - done.
Qed.

Lemma newTxInternalDataDynamicFee_Done h :
  ∃ d h', newTxInternalDataDynamicFee h = Done (d, h').
Proof.
  destruct (newTxInternalDataDynamicFee_returns h) as (d & h' & H & _). eauto.
Qed.

(* ===================================================================== *)
(** ** Construction from a keyed map                                     *)
(* ===================================================================== *)

Lemma assert_Address_Some v a : assert_Address v = Some a → v = Some (V_Address a).
Proof. destruct v as [[]|]; simpl; congruence. Qed.

(** One step through the chain of type assertions of a successful call:
    a failed assertion returns an error, which a success excludes. *)
Ltac map_step H Hres :=
  cbv zeta in H;
  lazymatch type of H with
  | bind _ _ _ = Done _ => inv_bind H
  | match ?x with Some _ => _ | None => _ end _ = Done _ =>
      let E := fresh "E" in
      destruct x eqn:E;
      [| unfold fail_with in H; inv_ret H; simpl in Hres; discriminate]
  end.

(** C10: a construction from a map that succeeds yields an instance whose
    recipient is present, and it is the address stored under the recipient
    key.  No map builds a contract-creation instance. *)
Theorem WithMap_success_recipient_present
    (values : gmap TxValueKeyType Value) h out h' d :
  newTxInternalDataDynamicFeeWithMap values h = Done (out, h') →
  mo_result out = inl d →
  ∃ a, Recipient d = Some a ∧ values !! TxValueKeyTo = Some (V_Address a).
Proof.
  intros H Hres. unfold newTxInternalDataDynamicFeeWithMap in H.
  repeat map_step H Hres.
  cbv zeta in H. case_decide; inv_ret H; simpl in Hres; simplify_eq. simpl.
  apply assert_Address_Some in E0.
  rewrite lookup_delete_ne in E0 by done.
  eauto.
Qed.

Lemma WithMap_success_recipient_present_witness :
  match newTxInternalDataDynamicFeeWithMap sample_values sample_heap with
  | Done (out, _) =>
      match mo_result out with
      | inl d => ∃ a, Recipient d = Some a
                      ∧ sample_values !! TxValueKeyTo = Some (V_Address a)
      | inr _ => False
      end
  | Panic _ => False
  end.
Proof.
  destruct (newTxInternalDataDynamicFeeWithMap sample_values sample_heap)
    as [[out h']|why] eqn:E.
  - destruct (mo_result out) as [d|e] eqn:R.
    + exact (WithMap_success_recipient_present _ _ _ _ _ E R).
    + vm_compute in E. injection E as <- _. discriminate R.
  - vm_compute in E. discriminate E.
Defined.

Lemma make_and_copy_AccessList_spec h v :
  ∃ s h', make_and_copy_AccessList v h = Done (s, h')
          ∧ bigInts h' = bigInts h ∧ byteArrays h' = byteArrays h
          ∧ slice_len s = slice_len v.
Proof.
  unfold make_and_copy_AccessList, array_make, array_copy.
  eexists _, _. split; [reflexivity|]. done.
Qed.

Lemma not_required_key k :
  k ∉ required_keys →
  k ≠ TxValueKeyNonce ∧ k ≠ TxValueKeyTo ∧ k ≠ TxValueKeyAmount
  ∧ k ≠ TxValueKeyData ∧ k ≠ TxValueKeyGasLimit ∧ k ≠ TxValueKeyGasFeeCap
  ∧ k ≠ TxValueKeyGasTipCap ∧ k ≠ TxValueKeyAccessList ∧ k ≠ TxValueKeyChainID.
Proof. unfold required_keys. rewrite !not_elem_of_cons. tauto. Qed.

(** Once the nine required keys are deleted, only the extra key is left. *)
Lemma complete_values_drained nonce to amount data gasLimit fee tip al chainID k x :
  k ∉ required_keys →
  delete TxValueKeyChainID (delete TxValueKeyAccessList (delete TxValueKeyGasTipCap
    (delete TxValueKeyGasFeeCap (delete TxValueKeyGasLimit (delete TxValueKeyData
      (delete TxValueKeyAmount (delete TxValueKeyTo (delete TxValueKeyNonce
        (<[k := x]> (complete_values nonce to amount data gasLimit fee tip al chainID))))))))))
  = {[k := x]}.
Proof.
  intros Hk%not_required_key. destruct Hk as (?&?&?&?&?&?&?&?&?).
  apply map_eq. intros i. unfold complete_values.
  destruct (decide (i = k)) as [->|Hne].
  - rewrite !lookup_delete_ne by done. by rewrite lookup_insert_eq, lookup_singleton_eq.
  - rewrite lookup_singleton_ne by done.
    rewrite !lookup_delete. repeat (case_decide; [done|]).
    rewrite lookup_insert_ne by done.
    rewrite !lookup_insert. repeat (case_decide; [congruence|]). done.
Qed.

Lemma assert_uint64_None (v : option Value) :
  v = None ∨ (∃ x, v = Some x ∧ ∀ n, x ≠ V_uint64 n) → assert_uint64 v = None.
Proof.
  intros [->|(x & -> & Hx)]; [done|].
  destruct x; try done. by destruct (Hx n).
Qed.

(** Looks a required key up in a map built by [complete_values], one extra
    insertion and some deletions of other keys. *)
Ltac solve_lookup m :=
  subst m; repeat match goal with v := _ |- _ => subst v end;
  unfold complete_values;
  rewrite ?lookup_delete_ne by done;
  rewrite lookup_insert_ne by done;
  repeat (rewrite lookup_insert_ne by done);
  apply lookup_insert_eq.

(** C6 (as amended): a map whose nonce key is missing or does not hold a
    [uint64] makes the constructor return the nonce error, with the map
    untouched, nothing logged and no [big.Int] cell written; a map with
    the nine required keys and one more key [k] makes it return the fixed
    error [errUndefinedKeyRemains], after the nine keys were removed from
    the map (only [k] is left), and the key is named in the one line
    logged, not in the error. *)
Theorem WithMap_nonce_error_and_leftover_key :
  (∀ (values : gmap TxValueKeyType Value) h,
     values !! TxValueKeyNonce = None
     ∨ (∃ x, values !! TxValueKeyNonce = Some x ∧ ∀ n, x ≠ V_uint64 n) →
     ∃ h', newTxInternalDataDynamicFeeWithMap values h
           = Done (mkMapOutcome (inr errValueKeyNonceMustUint64) values [], h')
           ∧ big_cells_unmutated h h')
  ∧ (∀ nonce to amount data gasLimit gasFeeCap gasTipCap accessList chainID k x h,
       k ∉ required_keys →
       big_allocated h amount → big_allocated h gasFeeCap →
       big_allocated h gasTipCap → big_allocated h chainID →
       ∃ h', newTxInternalDataDynamicFeeWithMap
               (<[k := x]> (complete_values nonce to amount data gasLimit
                              gasFeeCap gasTipCap accessList chainID)) h
             = Done (mkMapOutcome (inr errUndefinedKeyRemains) {[k := x]}
                       [LogWarn "unnecessary key" k], h')).
Proof.
  split.
  - intros values h Hn%assert_uint64_None.
    destruct (newTxInternalDataDynamicFee_Done h) as (d & h' & Hd).
    exists h'. unfold newTxInternalDataDynamicFeeWithMap.
    rewrite (bind_Done _ _ _ _ _ Hd), Hn. split; [done|].
    by apply newTxInternalDataDynamicFee_inv in Hd as (? & _).
  - intros nonce to amount data gasLimit fee tip al chainID k x h Hk Ham Hfee Htip Hch.
    pose proof (complete_values_drained nonce to amount data gasLimit fee tip al chainID k x Hk)
      as Hdrain.
    apply not_required_key in Hk as (?&?&?&?&?&?&?&?&?).
    destruct (newTxInternalDataDynamicFee_Done h) as (d & h0 & Hd).
    unfold newTxInternalDataDynamicFeeWithMap.
    rewrite (bind_Done _ _ _ _ _ Hd).
    apply newTxInternalDataDynamicFee_inv in Hd as (_ & D0 & Ac & At & Af & Aa & _).
    cbv zeta.
    set (m0 := <[k := x]> (complete_values nonce to amount data gasLimit fee tip al chainID))
      in *.
    assert (L1 : m0 !! TxValueKeyNonce = Some (V_uint64 nonce)) by solve_lookup m0.
    assert (L2 : delete TxValueKeyNonce m0 !! TxValueKeyTo = Some (V_Address to))
      by solve_lookup m0.
    set (m2 := delete TxValueKeyTo (delete TxValueKeyNonce m0)) in *.
    assert (L3 : m2 !! TxValueKeyAmount = Some (V_bigInt amount)) by solve_lookup m2.
    assert (L4 : delete TxValueKeyAmount m2 !! TxValueKeyData = Some (V_bytes data))
      by solve_lookup m2.
    set (m4 := delete TxValueKeyData (delete TxValueKeyAmount m2)) in *.
    assert (L5 : m4 !! TxValueKeyGasLimit = Some (V_uint64 gasLimit)) by solve_lookup m4.
    assert (L6 : delete TxValueKeyGasLimit m4 !! TxValueKeyGasFeeCap = Some (V_bigInt fee))
      by solve_lookup m4.
    set (m6 := delete TxValueKeyGasFeeCap (delete TxValueKeyGasLimit m4)) in *.
    assert (L7 : m6 !! TxValueKeyGasTipCap = Some (V_bigInt tip)) by solve_lookup m6.
    assert (L8 : delete TxValueKeyGasTipCap m6 !! TxValueKeyAccessList
                 = Some (V_AccessList al)) by solve_lookup m6.
    set (m8 := delete TxValueKeyAccessList (delete TxValueKeyGasTipCap m6)) in *.
    assert (L9 : m8 !! TxValueKeyChainID = Some (V_bigInt chainID)) by solve_lookup m8.
    rewrite L1. cbn [assert_uint64]. rewrite L2. cbn [assert_Address].
    rewrite L3. cbn [assert_bigInt].
    destruct (big_Set_allocated h0 (Amount d) amount) as (h1 & E1 & D1 & _);
      [done | by eapply big_allocated_mono|].
    rewrite (bind_Done _ _ _ _ _ E1).
    rewrite L4. cbn [assert_bytes].
    destruct (common_CopyBytes_spec h1 data) as (p & h2 & E2 & B2 & _).
    rewrite (bind_Done _ _ _ _ _ E2).
    rewrite L5. cbn [assert_uint64]. rewrite L6. cbn [assert_bigInt].
    assert (S2 : dom (bigInts h0) ⊆ dom (bigInts h2)) by (by rewrite B2, D1).
    destruct (big_Set_allocated h2 (GasFeeCap d) fee) as (h3 & E3 & D3 & _);
      [by eapply big_allocated_mono
      |eapply big_allocated_mono; [|exact Hfee]; by etrans|].
    rewrite (bind_Done _ _ _ _ _ E3).
    rewrite L7. cbn [assert_bigInt].
    assert (S3 : dom (bigInts h0) ⊆ dom (bigInts h3)) by (by rewrite D3).
    destruct (big_Set_allocated h3 (GasTipCap d) tip) as (h4 & E4 & D4 & _);
      [by eapply big_allocated_mono
      |eapply big_allocated_mono; [|exact Htip]; by etrans|].
    rewrite (bind_Done _ _ _ _ _ E4).
    rewrite L8. cbn [assert_AccessList].
    destruct (make_and_copy_AccessList_spec h4 al) as (s & h5 & E5 & B5 & _).
    rewrite (bind_Done _ _ _ _ _ E5).
    rewrite L9. cbn [assert_bigInt].
    assert (S5 : dom (bigInts h0) ⊆ dom (bigInts h5)) by (by rewrite B5, D4).
    destruct (big_Set_allocated h5 (ChainID d) chainID) as (h6 & E6 & D6 & _);
      [by eapply big_allocated_mono
      |eapply big_allocated_mono; [|exact Hch]; by etrans|].
    rewrite (bind_Done _ _ _ _ _ E6).
    subst m8 m6 m4 m2 m0. rewrite Hdrain.
    exists h6. rewrite decide_True by (rewrite map_size_singleton; lia).
    by rewrite map_to_list_singleton.
Qed.

Lemma sample_bigInt_allocated : big_allocated sample_heap sample_bigInt.
Proof. exists 1%positive. split; [reflexivity|]. exists 5%Z. reflexivity. Qed.

Lemma WithMap_nonce_error_and_leftover_key_witness :
  (∃ h', newTxInternalDataDynamicFeeWithMap (delete TxValueKeyNonce sample_values) sample_heap
         = Done (mkMapOutcome (inr errValueKeyNonceMustUint64)
                   (delete TxValueKeyNonce sample_values) [], h')
         ∧ big_cells_unmutated sample_heap h')
  ∧ (∃ h', newTxInternalDataDynamicFeeWithMap (<[4%N := V_string "foo"]> sample_values)
             sample_heap
           = Done (mkMapOutcome (inr errUndefinedKeyRemains) {[4%N := V_string "foo"]}
                     [LogWarn "unnecessary key" 4%N], h')).
Proof.
  split.
  - apply (proj1 WithMap_nonce_error_and_leftover_key).
    left. vm_compute. reflexivity.
  - apply (proj2 WithMap_nonce_error_and_leftover_key).
    + apply (bool_decide_unpack _). vm_compute. exact I.
    + apply sample_bigInt_allocated.
    + apply sample_bigInt_allocated.
    + apply sample_bigInt_allocated.
    + apply sample_bigInt_allocated.
Defined.

(** C6, as stated, fails: the error returned for a left-over key is one
    fixed value, the same for the left-over key 4 and for the left-over key
    6, so no reading of the error yields the offending key. *)
Lemma WithMap_error_does_not_name_key :
  ¬ ∃ key_named : error → TxValueKeyType,
      ∀ k, k ∈ [4%N; 6%N] →
        ∃ out h',
          newTxInternalDataDynamicFeeWithMap (<[k := V_string "foo"]> sample_values)
            sample_heap = Done (out, h')
          ∧ ∃ e, mo_result out = inr e ∧ key_named e = k.
Proof.
  intros (key_named & Hk).
  destruct (Hk 4%N) as (out4 & h4 & E4 & e4 & R4 & N4); [repeat constructor|].
  destruct (Hk 6%N) as (out6 & h6 & E6 & e6 & R6 & N6); [repeat constructor|].
  vm_compute in E4. vm_compute in E6.
  injection E4 as <- _. injection E6 as <- _.
  simpl in R4, R6. simplify_eq. congruence.
Qed.

(* ===================================================================== *)
(** ** Signing payload                                                   *)
(* ===================================================================== *)

(** C2: the signing payload is the sequence nonce, tip cap, fee cap, gas
    limit, recipient, amount, payload, access list, eight values in that
    order; the chain id, the signature triple and the cached hash do not
    enter it: replacing them leaves the payload as it was. *)
Theorem SerializeForSign_sequence t :
  SerializeForSign t
  = [ V_uint64 (AccountNonce t); V_bigInt (GasTipCap t); V_bigInt (GasFeeCap t);
      V_uint64 (GasLimit t); V_AddressPtr (Recipient t); V_bigInt (Amount t);
      V_bytes (Payload t); V_AccessList (AccessList t) ]
  ∧ length (SerializeForSign t) = 8
  ∧ ∀ chainID v r s hash,
      SerializeForSign (SetHash hash (setSignatureValues chainID v r s t))
      = SerializeForSign t.
Proof. split_and!; [reflexivity | reflexivity | by intros]. Qed.

(* ===================================================================== *)
(** ** Equality                                                          *)
(* ===================================================================== *)

Lemma and_then_Done a b x h :
  a h = Done (x, h) → (a <&&> b) h = if x then b h else Done (false, h).
Proof. intros Ha. unfold and_then, bind. rewrite Ha. by destruct x. Qed.

Lemma big_Cmp_is_0_same x h : big_Cmp_is_0 x x h = Done (true, h).
Proof. unfold big_Cmp_is_0, big_Cmp, bind. by rewrite decide_True. Qed.

Lemma big_Cmp_is_0_allocated h x y :
  big_allocated h x → big_allocated h y →
  big_Cmp_is_0 x y h = Done (bool_decide (big_value h x = big_value h y), h).
Proof.
  intros (lx & -> & [vx Hx]) (ly & -> & [vy Hy]).
  unfold big_Cmp_is_0, big_Cmp, bind. simpl. destruct (decide _) as [E|NE].
  - simplify_eq. simpl. by rewrite bool_decide_eq_true_2.
  - unfold big_load. rewrite Hx, Hy. unfold ret. do 2 f_equal.
    destruct (Z.compare_spec vx vy) as [->|Hlt|Hgt]; simpl.
    + by rewrite bool_decide_eq_true_2.
    + rewrite bool_decide_eq_false_2; [done|]. intros [=]. lia.
    + rewrite bool_decide_eq_false_2; [done|]. intros [=]. lia.
Qed.

Lemma DeepEqual_list_spec {A} (eq : A → A → bool) xs ys :
  (∀ x y, eq x y = true ↔ x = y) →
  DeepEqual_list eq xs ys = true ↔ xs = ys.
Proof.
  intros Heq. revert ys. induction xs as [|x xs IH]; intros [|y ys]; simpl; try done.
  rewrite andb_true_iff, Heq, IH. split; [by intros [-> ->] | by intros [= -> ->]].
Qed.

Lemma DeepEqual_StorageKeys_spec a b : DeepEqual_StorageKeys a b = true ↔ a = b.
Proof.
  destruct a as [xs|], b as [ys|]; simpl; try done.
  rewrite DeepEqual_list_spec by (intros; apply Z.eqb_eq).
  split; congruence.
Qed.

Lemma DeepEqual_AccessTuple_spec a b : DeepEqual_AccessTuple a b = true ↔ a = b.
Proof.
  unfold DeepEqual_AccessTuple.
  rewrite andb_true_iff, Z.eqb_eq, DeepEqual_StorageKeys_spec.
  destruct a, b; simpl. split; [by intros [-> ->] | by intros [= -> ->]].
Qed.

Lemma equalRecipient_spec a b : equalRecipient a b = true ↔ a = b.
Proof.
  destruct a, b; simpl; try done. rewrite Z.eqb_eq. split; congruence.
Qed.

Lemma and_then_pure (a b : M bool) x y h :
  a h = Done (x, h) → b h = Done (y, h) → (a <&&> b) h = Done (x && y, h).
Proof. intros Ha Hb. rewrite (and_then_Done _ _ _ _ Ha). by destruct x. Qed.

(** What [Equal] decides on two instances whose cells exist: agreement, by
    value, on every field but the payload and the cached hash.  The cells
    may be the same or independently allocated. *)
Lemma Equal_decides h t ta :
  tx_allocated h t → tx_allocated h ta →
  ∃ b, Equal t (TxDynamicFee ta) h = Done (b, h)
       ∧ (b = true ↔ agree_without_payload h t ta).
Proof.
  intros (Tc & Tt & Tf & Ta & Tv & Tr & Ts) (Uc & Ut & Uf & Ua & Uv & Ur & Us).
  eexists. split.
  - unfold Equal.
    repeat (apply and_then_pure;
            [first [by apply big_Cmp_is_0_allocated | reflexivity]|]).
    by apply big_Cmp_is_0_allocated.
  - unfold agree_without_payload, access_list_of.
    rewrite !andb_true_iff, !bool_decide_eq_true, !Z.eqb_eq, equalRecipient_spec.
    rewrite DeepEqual_list_spec by apply DeepEqual_AccessTuple_spec.
    tauto.
Qed.

Lemma DeepEqual_AccessList_same s h : DeepEqual_AccessList s s h = Done (true, h).
Proof.
  unfold DeepEqual_AccessList. rewrite bool_decide_eq_true_2 by done. simpl.
  do 2 f_equal. apply DeepEqual_list_spec; [apply DeepEqual_AccessTuple_spec | done].
Qed.

(** C5 (the code departs from the claim): [Equal] never looks at the
    payload.  An instance and the same instance carrying any other payload
    compare equal; so do the two sample instances [sample_d] and
    [sample_e], built from the same explicit values except that one carries
    two payload bytes and the other none. *)
Theorem Equal_ignores_Payload :
  (∀ t p h, Equal (set_Payload p t) (TxDynamicFee t) h = Done (true, h))
  ∧ sample_pair sample_heap = Done ((sample_d, sample_e), sample_pair_heap)
  ∧ payload_of sample_pair_heap sample_d = [Byte.x01; Byte.x02]
  ∧ payload_of sample_pair_heap sample_e = []
  ∧ Equal sample_d (TxDynamicFee sample_e) sample_pair_heap = Done (true, sample_pair_heap).
Proof.
  split; [|split_and!; vm_compute; reflexivity].
  intros t p h. unfold Equal. simpl.
  repeat (rewrite (and_then_pure _ _ true true);
          [| first [apply big_Cmp_is_0_same | apply DeepEqual_AccessList_same
                   | unfold ret; by rewrite ?Z.eqb_refl, ?(proj2 (equalRecipient_spec _ _)) ]
           | ]); try done.
  all: try apply big_Cmp_is_0_same.
Qed.

(* ===================================================================== *)
(** ** Signature range validation                                        *)
(* ===================================================================== *)

(** What [ValidateSignature] decides when the three cells exist: [r] and
    [s] from 1 up to the group order (excluded), and a recovery id whose
    low byte is 0 or 1. *)
Lemma ValidateSignature_decides h t rv sv vv :
  big_value h (SigR t) = Some rv → big_value h (SigS t) = Some sv →
  big_value h (SigV t) = Some vv →
  ValidateSignature t h
  = Done ((1 <=? rv)%Z && (1 <=? sv)%Z && (rv <? secp256k1N)%Z && (sv <? secp256k1N)%Z
          && (((Z.abs vv mod 2 ^ 64) mod 2 ^ 8 =? 0)%Z
              || ((Z.abs vv mod 2 ^ 64) mod 2 ^ 8 =? 1)%Z), h).
Proof.
  unfold big_value. destruct (SigR t) as [lr|] eqn:ER; [|done].
  destruct (SigS t) as [ls|] eqn:ES; [|done].
  destruct (SigV t) as [lv|] eqn:EV; [|done].
  intros Hr Hs Hv.
  unfold ValidateSignature, crypto_ValidateSignatureValues, big_Uint64, bind, big_load, ret.
  rewrite EV, ER, ES, Hv, Hr. 
  destruct (Z.ltb_spec rv 1), (Z.leb_spec 1 rv); try lia; [done|].
  rewrite Hs.
  destruct (Z.ltb_spec sv 1), (Z.leb_spec 1 sv); try lia; [done|].
  done.
Qed.

(** C4 (as amended): with the three cells of the triple in the store,
    [ValidateSignature] returns false when [r] is 0 and when [s] is 0, and
    returns true whenever [r] and [s] lie from 1 up to the group order
    (excluded) and the recovery id is 0 or 1, whichever half [s] lies in. *)
Theorem ValidateSignature_range h t rv sv vv :
  big_value h (SigR t) = Some rv → big_value h (SigS t) = Some sv →
  big_value h (SigV t) = Some vv →
  (rv = 0%Z ∨ sv = 0%Z → ValidateSignature t h = Done (false, h))
  ∧ ((1 ≤ rv < secp256k1N)%Z → (1 ≤ sv < secp256k1N)%Z → (vv = 0 ∨ vv = 1)%Z →
     ValidateSignature t h = Done (true, h)).
Proof.
  intros Hr Hs Hv. rewrite (ValidateSignature_decides h t rv sv vv Hr Hs Hv).
  split.
  - intros [-> | ->]; simpl; [done|]. by rewrite andb_false_r.
  - intros [Hr1 Hr2] [Hs1 Hs2] Hvv. do 2 f_equal.
    rewrite !andb_true_iff, orb_true_iff, !Z.leb_le, !Z.ltb_lt, !Z.eqb_eq.
    split_and!; try done. destruct Hvv as [-> | ->]; [by left | by right].
Qed.

Lemma ValidateSignature_range_witness :
  ValidateSignature (sample_signed 3 2 3) sample_sig_heap = Done (false, sample_sig_heap)
  ∧ ValidateSignature (sample_signed 1 1 3) sample_sig_heap = Done (true, sample_sig_heap).
Proof.
  split.
  - apply (ValidateSignature_range sample_sig_heap (sample_signed 3 2 3)
             0%Z (secp256k1halfN + 1)%Z 0%Z); [reflexivity..|]. by left.
  - apply (ValidateSignature_range sample_sig_heap (sample_signed 1 1 3) 1%Z 1%Z 0%Z);
      [reflexivity..| | |]; [vm_compute; intuition discriminate.. | by left].
Defined.

(** C4, as stated, fails: a triple with [r = 1], recovery id 0 and an [s]
    strictly above half the group order is accepted. *)
Lemma ValidateSignature_accepts_high_s :
  big_value sample_sig_heap (SigS (sample_signed 1 2 3)) = Some (secp256k1halfN + 1)%Z
  ∧ (secp256k1halfN < secp256k1halfN + 1)%Z
  ∧ ValidateSignature (sample_signed 1 2 3) sample_sig_heap = Done (true, sample_sig_heap).
Proof. split_and!; [reflexivity | lia | vm_compute; reflexivity]. Qed.

(* ===================================================================== *)
(** ** Validation                                                        *)
(* ===================================================================== *)

(** C7: [Validate] returns [ErrPrecompiledContractAddress] whenever the
    recipient is present and reserved, and succeeds (the nil error) for
    every instance without a recipient, the mutable check being a success
    for every input. *)
Theorem Validate_precompiled_recipient {StateDB : Type}
    (isPrecompiled : common_Address → bool) t (stateDB : StateDB) blockNumber :
  (∀ to, Recipient t = Some to → isPrecompiled to = true →
         Validate isPrecompiled t stateDB blockNumber
         = Some ErrPrecompiledContractAddress)
  ∧ (Recipient t = None → Validate isPrecompiled t stateDB blockNumber = None)
  ∧ ValidateMutableValue t stateDB blockNumber = None.
Proof.
  unfold Validate. split_and!.
  - by intros to -> ->.
  - by intros ->.
  - reflexivity.
Qed.

Lemma Validate_precompiled_recipient_witness :
  Validate sample_IsPrecompiledContractAddress
    (set_Recipient (Some 9%Z) newEmptyTxInternalDataDynamicFee) tt 100
  = Some ErrPrecompiledContractAddress
  ∧ Validate sample_IsPrecompiledContractAddress
      (set_Recipient None newEmptyTxInternalDataDynamicFee) tt 100
    = None.
Proof.
  split.
  - apply (proj1 (Validate_precompiled_recipient sample_IsPrecompiledContractAddress
                    (set_Recipient (Some 9%Z) newEmptyTxInternalDataDynamicFee) tt 100)
             9%Z); reflexivity.
  - apply (proj1 (proj2 (Validate_precompiled_recipient sample_IsPrecompiledContractAddress
                    (set_Recipient None newEmptyTxInternalDataDynamicFee) tt 100)));
      reflexivity.
Defined.

(** A present recipient that is not reserved passes as well. *)
Lemma Validate_other_recipient {StateDB : Type}
    (isPrecompiled : common_Address → bool) t (stateDB : StateDB) blockNumber to :
  Recipient t = Some to → isPrecompiled to = false →
  Validate isPrecompiled t stateDB blockNumber = None.
Proof. unfold Validate. by intros -> ->. Qed.

(* ===================================================================== *)
(** ** Execution dispatch                                                *)
(* ===================================================================== *)

(** C8: on any engine and from any state, [Execute] without a recipient
    makes one call, [vm.Create] with the payload as code, and no nonce
    increment of its own; with a recipient it makes two calls, first
    [stateDB.IncNonce] on the sender's address and then [vm.Call] with the
    payload as input, so the nonce is incremented once.  Output, gas used
    and error are those the engine returned. *)
Theorem Execute_dispatch {W : Type} (E : Engine W) t sender blockNumber gas value w :
  (Recipient t = None →
     let res := eng_Create E sender (Payload t) gas value CodeFormatEVM w in
     let tr := [InvCreate sender (Payload t) gas value CodeFormatEVM] in
     run E (Execute t sender blockNumber gas value) w
     = ((res.1.1.1.1, res.1.1.2, res.1.2), res.2, tr)
     ∧ nonce_increments tr = [])
  ∧ (∀ to, Recipient t = Some to →
     let w1 := eng_IncNonce E (ContractRef_Address sender) w in
     let res := eng_Call E sender to (Payload t) gas value w1 in
     let tr := [InvIncNonce (ContractRef_Address sender);
                InvCall sender to (Payload t) gas value] in
     run E (Execute t sender blockNumber gas value) w = (res.1, res.2, tr)
     ∧ nonce_increments tr = [ContractRef_Address sender]).
Proof.
  unfold Execute. split.
  - intros ->. simpl.
    destruct (eng_Create E sender (Payload t) gas value CodeFormatEVM w)
      as [[[[ret' addr] usedGas] err] w1]. done.
  - intros to ->. simpl.
    destruct (eng_Call E sender to (Payload t) gas value _)
      as [[[ret' usedGas] err] w1]. done.
Qed.

Lemma Execute_dispatch_witness :
  run sample_engine
    (Execute (set_Recipient None newEmptyTxInternalDataDynamicFee)
       (mkContractRef 7%Z) 100 60000 None) ∅
  = ((SliceNil, 53000%Z, None), {[ 7%Z := 1%Z ]},
     [InvCreate (mkContractRef 7%Z) SliceNil 60000 None CodeFormatEVM])
  ∧ run sample_engine
      (Execute (set_Recipient (Some 9%Z) newEmptyTxInternalDataDynamicFee)
         (mkContractRef 7%Z) 100 60000 None) ∅
    = ((SliceNil, 60000%Z, Some (ErrOther "execution reverted")), {[ 7%Z := 1%Z ]},
       [InvIncNonce 7%Z; InvCall (mkContractRef 7%Z) 9%Z SliceNil 60000 None]).
Proof.
  split.
  - destruct (proj1 (Execute_dispatch sample_engine
                       (set_Recipient None newEmptyTxInternalDataDynamicFee)
                       (mkContractRef 7%Z) 100 60000 None ∅) eq_refl) as [H _].
    rewrite H. vm_compute. reflexivity.
  - destruct (proj2 (Execute_dispatch sample_engine
                       (set_Recipient (Some 9%Z) newEmptyTxInternalDataDynamicFee)
                       (mkContractRef 7%Z) 100 60000 None ∅) 9%Z eq_refl) as [H _].
    rewrite H. vm_compute. reflexivity.
Defined.

(* ===================================================================== *)
(** ** JSON decoding                                                     *)
(* ===================================================================== *)

(** With a decoded struct whose first signature is there, every field of
    the instance is the corresponding field of the struct. *)
Lemma UnmarshalJSON_first_present
    (json_Unmarshal : list Byte.byte → M (TxInternalDataDynamicFeeJSON + error))
    t bytes h js h1 sig rest :
  json_Unmarshal bytes h = Done (inl js, h1) →
  js_TxSignatures js = Some sig :: rest →
  UnmarshalJSON json_Unmarshal t bytes h
  = Done ((mkTx (js_ChainID js) (js_AccountNonce js) (js_MaxPriorityFeePerGas js)
             (js_MaxFeePerGas js) (js_GasLimit js) (js_Recipient js)
             (js_Amount js) (js_Payload js) (js_AccessList js)
             (sig_V sig) (sig_R sig) (sig_S sig) (js_Hash js), None), h1).
Proof.
  intros Hdec Hsig. unfold UnmarshalJSON.
  rewrite (bind_Done _ _ _ _ _ Hdec). by rewrite Hsig.
Qed.

(** C9 (the code departs from the claim): when the decoded struct has no
    element in its signature array, [UnmarshalJSON] indexes element 0 and
    panics; it returns no error.  When the element is there but lacks its
    v, the call succeeds and leaves V nil.  When the decoder reports an
    error it is returned, and otherwise every field of the instance is the
    corresponding field of the decoded struct, the [big.Int] pointers being
    the decoded cells themselves. *)
Theorem UnmarshalJSON_signatures
    (json_Unmarshal : list Byte.byte → M (TxInternalDataDynamicFeeJSON + error))
    t bytes h js h1 :
  json_Unmarshal bytes h = Done (inl js, h1) →
  (js_TxSignatures js = [] →
     UnmarshalJSON json_Unmarshal t bytes h = Panic index_out_of_range)
  ∧ (∀ sig rest, js_TxSignatures js = Some sig :: rest →
       UnmarshalJSON json_Unmarshal t bytes h
       = Done ((mkTx (js_ChainID js) (js_AccountNonce js) (js_MaxPriorityFeePerGas js)
                  (js_MaxFeePerGas js) (js_GasLimit js) (js_Recipient js)
                  (js_Amount js) (js_Payload js) (js_AccessList js)
                  (sig_V sig) (sig_R sig) (sig_S sig) (js_Hash js), None), h1)).
Proof.
  intros Hdec. split.
  - intros Hnone. unfold UnmarshalJSON. rewrite (bind_Done _ _ _ _ _ Hdec).
    by rewrite Hnone.
  - intros sig rest Hsig. by eapply UnmarshalJSON_first_present.
Qed.

Lemma UnmarshalJSON_signatures_witness :
  UnmarshalJSON sample_json_Unmarshal newEmptyTxInternalDataDynamicFee
    sample_json_text empty_heap
  = Panic index_out_of_range.
Proof.
  apply (proj1 (UnmarshalJSON_signatures sample_json_Unmarshal
                  newEmptyTxInternalDataDynamicFee sample_json_text empty_heap
                  sample_json_struct empty_heap eq_refl)).
  reflexivity.
Defined.

Lemma UnmarshalJSON_decoder_error
    (json_Unmarshal : list Byte.byte → M (TxInternalDataDynamicFeeJSON + error))
    t bytes h err h1 :
  json_Unmarshal bytes h = Done (inr err, h1) →
  UnmarshalJSON json_Unmarshal t bytes h = Done ((t, Some err), h1).
Proof. intros Hdec. unfold UnmarshalJSON. by rewrite (bind_Done _ _ _ _ _ Hdec). Qed.

(* ===================================================================== *)
(** ** Wire encoding: bytes and numbers                                  *)
(* ===================================================================== *)

Local Open Scope Z_scope.

Lemma byte_to_Z_range b : 0 ≤ byte_to_Z b < 256.
Proof.
  unfold byte_to_Z. pose proof (Strings.Byte.to_N_bounded b). lia.
Qed.

Lemma byte_to_of_Z z : 0 ≤ z < 256 → byte_to_Z (byte_of_Z z) = z.
Proof.
  intros Hz. unfold byte_to_Z, byte_of_Z.
  destruct (Byte.of_N (Z.to_N z)) as [b|] eqn:E.
  - apply Strings.Byte.to_of_N in E. simpl. lia.
  - apply Strings.Byte.of_N_None_iff in E. lia.
Qed.

Lemma be_value_snoc l b : be_value (l ++ [b]) = be_value l * 256 + byte_to_Z b.
Proof. unfold be_value. by rewrite foldl_app. Qed.

Lemma length_be_fixed w n : length (be_fixed w n) = w.
Proof.
  revert n. induction w as [|w IH]; intros n; simpl; [done|].
  rewrite length_app, IH. simpl. lia.
Qed.

Lemma be_value_be_fixed w n : 0 ≤ n < 256 ^ Z.of_nat w → be_value (be_fixed w n) = n.
Proof.
  revert n. induction w as [|w IH]; intros n Hn.
  - simpl in *. unfold be_value. simpl. lia.
  - simpl. rewrite be_value_snoc, IH, byte_to_of_Z.
    + pose proof (Z.div_mod n 256). lia.
    + apply Z.mod_pos_bound. lia.
    + rewrite Nat2Z.inj_succ, Z.pow_succ_r in Hn by lia.
      split; [apply Z.div_pos; lia|]. apply Z.div_lt_upper_bound; lia.
Qed.

Lemma be_value_bound l : 0 ≤ be_value l < 256 ^ Z.of_nat (length l).
Proof.
  induction l as [|b l IH] using rev_ind.
  - unfold be_value. simpl. lia.
  - rewrite be_value_snoc, length_app. simpl.
    replace (Z.of_nat (length l + 1)) with (Z.succ (Z.of_nat (length l))) by lia.
    rewrite Z.pow_succ_r by lia. pose proof (byte_to_Z_range b). lia.
Qed.

Lemma be_value_cons b l :
  be_value (b :: l) = byte_to_Z b * 256 ^ Z.of_nat (length l) + be_value l.
Proof.
  induction l as [|c l IH] using rev_ind.
  - unfold be_value. simpl. lia.
  - rewrite app_comm_cons, !be_value_snoc, IH, length_app. simpl.
    replace (Z.of_nat (length l + 1)) with (Z.succ (Z.of_nat (length l))) by lia.
    rewrite Z.pow_succ_r by lia. lia.
Qed.

Lemma byte_length_upper n : 0 ≤ n → n < 256 ^ Z.of_nat (byte_length n).
Proof.
  intros Hn. unfold byte_length. destruct (Z.leb_spec n 0) as [H0|Hpos].
  - simpl. lia.
  - pose proof (Z.log2_nonneg n) as Hl.
    assert (Hq : 0 ≤ Z.log2 n / 8) by (apply Z.div_pos; lia).
    rewrite Z2Nat.id by lia.
    change 256 with (2 ^ 8). rewrite <-Z.pow_mul_r by lia.
    destruct (Z.log2_spec n Hpos) as [_ Hup].
    eapply Z.lt_le_trans; [exact Hup|].
    apply Z.pow_le_mono_r; [lia|].
    pose proof (Z.div_mod (Z.log2 n) 8). pose proof (Z.mod_pos_bound (Z.log2 n) 8). lia.
Qed.

Lemma byte_length_lower n :
  0 < n → 256 ^ (Z.of_nat (byte_length n) - 1) ≤ n.
Proof.
  intros Hpos. unfold byte_length. destruct (Z.leb_spec n 0) as [H0|_]; [lia|].
  pose proof (Z.log2_nonneg n) as Hl.
  assert (Hq : 0 ≤ Z.log2 n / 8) by (apply Z.div_pos; lia).
  rewrite Z2Nat.id by lia.
  replace (Z.log2 n / 8 + 1 - 1) with (Z.log2 n / 8) by lia.
  change 256 with (2 ^ 8). rewrite <-Z.pow_mul_r by lia.
  destruct (Z.log2_spec n Hpos) as [Hlow _].
  eapply Z.le_trans; [|exact Hlow].
  apply Z.pow_le_mono_r; [lia|].
  pose proof (Z.div_mod (Z.log2 n) 8). pose proof (Z.mod_pos_bound (Z.log2 n) 8). lia.
Qed.

Lemma byte_length_le n k : 0 ≤ n < 256 ^ Z.of_nat k → (byte_length n ≤ k)%nat.
Proof.
  intros [Hn Hk]. destruct (decide (n = 0)) as [->|Hne]; [unfold byte_length; simpl; lia|].
  destruct (decide (byte_length n ≤ k)%nat) as [|Hgt]; [done|exfalso].
  pose proof (byte_length_lower n ltac:(lia)) as Hlow.
  assert (256 ^ Z.of_nat k ≤ 256 ^ (Z.of_nat (byte_length n) - 1))
    by (apply Z.pow_le_mono_r; lia).
  lia.
Qed.

Lemma length_be_bytes n : length (be_bytes n) = byte_length n.
Proof. apply length_be_fixed. Qed.

Lemma be_value_be_bytes n : 0 ≤ n → be_value (be_bytes n) = n.
Proof.
  intros Hn. apply be_value_be_fixed. split; [done|]. by apply byte_length_upper.
Qed.

(** The big-endian bytes of a number start with a byte that is not zero. *)
Lemma be_bytes_canonical n b l : 0 ≤ n → be_bytes n = b :: l → byte_to_Z b ≠ 0.
Proof.
  intros Hn E Hb.
  pose proof (be_value_be_bytes n Hn) as Hv. rewrite E, be_value_cons, Hb in Hv.
  pose proof (length_be_bytes n) as Hlen. rewrite E in Hlen. simpl in Hlen.
  pose proof (be_value_bound l) as Hbound.
  assert (Hpos : 0 < n).
  { destruct (decide (n = 0)) as [->|]; [|lia]. unfold byte_length in Hlen. simpl in Hlen. lia. }
  pose proof (byte_length_lower n Hpos) as Hlow.
  rewrite <-Hlen in Hlow.
  replace (Z.of_nat (S (length l)) - 1) with (Z.of_nat (length l)) in Hlow by lia.
  lia.
Qed.

(* ===================================================================== *)
(** ** Wire encoding: items                                              *)
(* ===================================================================== *)

Lemma take_content_app k (content rest : list Byte.byte) :
  take_content k (length content) (content ++ rest) = Some (k, content, rest).
Proof.
  unfold take_content. rewrite decide_True by (rewrite length_app; lia).
  by rewrite take_app_length, drop_app_length.
Qed.

Lemma byte_length_of_len (len : nat) :
  (56 ≤ len)%nat → Z.of_nat len < 2 ^ 64 →
  (1 ≤ byte_length (Z.of_nat len) ≤ 8)%nat.
Proof.
  intros Hlo Hhi. split.
  - unfold byte_length. destruct (Z.leb_spec (Z.of_nat len) 0); [lia|].
    pose proof (Z.log2_nonneg (Z.of_nat len)).
    assert (0 ≤ Z.log2 (Z.of_nat len) / 8) by (apply Z.div_pos; lia). lia.
  - apply byte_length_le. split; [lia|]. exact Hhi.
Qed.

(** Reading back an item written with [rlp_header]: strings from base 128
    (a single byte below 128 is written bare, so it is left out here),
    lists from base 192. *)
Lemma split_item_header (base : Z) k (content rest : list Byte.byte) :
  (base = 128 ∧ k = KString ∨ base = 192 ∧ k = KList) →
  Z.of_nat (length content) < 2 ^ 64 →
  split_item (rlp_header base (length content) ++ content ++ rest)
  = Some (k, content, rest).
Proof.
  intros Hbase Hfit. unfold rlp_header.
  destruct (decide (length content < 56)%nat) as [Hshort|Hlong].
  - simpl. rewrite byte_to_of_Z by lia.
    destruct Hbase as [[-> ->]|[-> ->]].
    + rewrite (proj2 (Z.ltb_ge _ _)) by lia.
      rewrite (proj2 (Z.ltb_lt _ _)) by lia.
      replace (Z.to_nat (128 + Z.of_nat (length content) - 128)) with (length content) by lia.
      apply take_content_app.
    + rewrite (proj2 (Z.ltb_ge _ 128)) by lia.
      rewrite (proj2 (Z.ltb_ge _ 184)) by lia.
      rewrite (proj2 (Z.ltb_ge _ 192)) by lia.
      rewrite (proj2 (Z.ltb_lt _ 248)) by lia.
      replace (Z.to_nat (192 + Z.of_nat (length content) - 192)) with (length content) by lia.
      apply take_content_app.
  - destruct (byte_length_of_len (length content)) as [Hk1 Hk8]; [lia|done|].
    cbn [app split_item]. rewrite length_be_bytes, byte_to_of_Z by lia.
    set (lb := be_bytes (Z.of_nat (length content))).
    assert (Hlb : length lb = byte_length (Z.of_nat (length content)))
      by apply length_be_bytes.
    assert (Hlong' : ∀ kk n, n = byte_length (Z.of_nat (length content)) →
              take_long kk n (lb ++ content ++ rest) = Some (kk, content, rest)).
    { intros kk n ->. unfold take_long.
      rewrite decide_True by (rewrite length_app; lia).
      rewrite <-Hlb, take_app_length, drop_app_length.
      unfold lb. rewrite be_value_be_bytes by lia. rewrite Nat2Z.id.
      apply take_content_app. }
    destruct Hbase as [[-> ->]|[-> ->]].
    + rewrite (proj2 (Z.ltb_ge _ 128)) by lia.
      rewrite (proj2 (Z.ltb_ge _ 184)) by lia.
      rewrite (proj2 (Z.ltb_lt _ 192)) by lia.
      apply Hlong'. lia.
    + rewrite (proj2 (Z.ltb_ge _ 128)) by lia.
      rewrite (proj2 (Z.ltb_ge _ 184)) by lia.
      rewrite (proj2 (Z.ltb_ge _ 192)) by lia.
      rewrite (proj2 (Z.ltb_ge _ 248)) by lia.
      apply Hlong'. lia.
Qed.

Lemma decode_encode_string (bs rest : list Byte.byte) :
  Z.of_nat (length bs) < 2 ^ 64 →
  decode_string (encode_string bs ++ rest) = Some (bs, rest).
Proof.
  intros Hfit. unfold decode_string, encode_string.
  destruct bs as [|b [|c bs]].
  - rewrite <-(app_assoc _ [] rest). by rewrite (split_item_header 128 KString [] rest); auto.
  - destruct (Z.ltb_spec (byte_to_Z b) 128) as [Hlt|Hge].
    + simpl. by rewrite (proj2 (Z.ltb_lt _ _)) by lia.
    + rewrite <-app_assoc.
      change (rlp_header 128 1) with (rlp_header 128 (length [b])).
      by rewrite (split_item_header 128 KString [b] rest); auto.
  - rewrite <-app_assoc.
    by rewrite (split_item_header 128 KString (b :: c :: bs) rest); auto.
Qed.

Lemma decode_encode_list (content rest : list Byte.byte) :
  Z.of_nat (length content) < 2 ^ 64 →
  decode_list (encode_list content ++ rest) = Some (content, rest).
Proof.
  intros Hfit. unfold decode_list, encode_list. rewrite <-app_assoc.
  by rewrite (split_item_header 192 KList content rest); auto.
Qed.

Lemma decode_encode_uint n rest :
  0 ≤ n < 2 ^ 256 → decode_uint (encode_uint n ++ rest) = Some (n, rest).
Proof.
  intros [Hn Hhi]. unfold decode_uint, encode_uint.
  assert (Hlen : (length (be_bytes n) ≤ 32)%nat).
  { rewrite length_be_bytes. apply byte_length_le. split; [done|].
    change (256 ^ Z.of_nat 32) with (2 ^ 256). done. }
  rewrite decode_encode_string by lia. simpl.
  destruct (be_bytes n) as [|b l] eqn:E.
  - pose proof (be_value_be_bytes n Hn) as Hv. rewrite E in Hv.
    unfold be_value in Hv. simpl in Hv. by subst.
  - pose proof (be_bytes_canonical n b l Hn E) as Hb.
    rewrite (proj2 (Z.eqb_neq _ _)) by done.
    by rewrite <-E, be_value_be_bytes.
Qed.

Lemma decode_encode_uint64 n rest :
  0 ≤ n < 2 ^ 64 → decode_uint64 (encode_uint n ++ rest) = Some (n, rest).
Proof.
  intros [Hn Hhi]. unfold decode_uint64.
  rewrite decode_encode_uint by lia. simpl.
  by rewrite (proj2 (Z.ltb_lt _ _)).
Qed.

Lemma decode_encode_fixed w n rest :
  Z.of_nat w < 2 ^ 64 → 0 ≤ n < 256 ^ Z.of_nat w →
  decode_fixed w (encode_string (be_fixed w n) ++ rest) = Some (n, rest).
Proof.
  intros Hw Hn. unfold decode_fixed.
  rewrite decode_encode_string by (by rewrite length_be_fixed). simpl.
  rewrite decide_True by apply length_be_fixed.
  by rewrite be_value_be_fixed.
Qed.

Lemma rlp_header_nonempty base len : rlp_header base len ≠ [].
Proof. unfold rlp_header. by destruct (decide _). Qed.

Lemma encode_string_nonempty bs : encode_string bs ≠ [].
Proof.
  unfold encode_string. destruct bs as [|b [|c bs]].
  - intros H%app_eq_nil. by destruct H as [H%rlp_header_nonempty _].
  - destruct (_ <? _); [done|]. intros H%app_eq_nil. by destruct H as [_ ?].
  - intros H%app_eq_nil. by destruct H as [_ ?].
Qed.

Lemma encode_list_nonempty content : encode_list content ≠ [].
Proof.
  unfold encode_list. intros H%app_eq_nil. by destruct H as [H%rlp_header_nonempty _].
Qed.

Lemma length_encode_list content : (length content ≤ length (encode_list content))%nat.
Proof. unfold encode_list. rewrite length_app. lia. Qed.

Lemma length_mjoin_elem {A} (enc : A → list Byte.byte) xs x :
  x ∈ xs → (length (enc x) ≤ length (mjoin (enc <$> xs)))%nat.
Proof.
  induction 1 as [x xs|x y xs Hin IH].
  - change (mjoin (enc <$> x :: xs)) with (enc x ++ mjoin (enc <$> xs)).
    rewrite length_app. lia.
  - change (mjoin (enc <$> y :: xs)) with (enc y ++ mjoin (enc <$> xs)).
    rewrite length_app. lia.
Qed.

Lemma decode_elements_step {A} (dec : list Byte.byte → option (A * list Byte.byte))
    fuel bs :
  bs ≠ [] →
  decode_elements dec (S fuel) bs
  = '(x, rest) ← dec bs; xs ← decode_elements dec fuel rest; Some (x :: xs).
Proof. by destruct bs. Qed.

(** A content made of encoded elements reads back element by element. *)
Lemma decode_elements_encode {A} (enc : A → list Byte.byte)
    (dec : list Byte.byte → option (A * list Byte.byte)) xs fuel :
  (∀ x rest, x ∈ xs → dec (enc x ++ rest) = Some (x, rest)) →
  (∀ x, enc x ≠ []) →
  (length (mjoin (enc <$> xs)) ≤ fuel)%nat →
  decode_elements dec fuel (mjoin (enc <$> xs)) = Some xs.
Proof.
  intros Hdec Hne. revert fuel. induction xs as [|x xs IH]; intros fuel Hfuel.
  - by destruct fuel.
  - change (mjoin (enc <$> x :: xs)) with (enc x ++ mjoin (enc <$> xs)) in *.
    rewrite length_app in Hfuel.
    assert (length (enc x) ≠ 0%nat) as Hlen.
    { intros H0. by apply (Hne x), nil_length_inv. }
    destruct fuel as [|fuel]; [lia|].
    rewrite decode_elements_step.
    + rewrite Hdec by left. simpl. rewrite IH; [done| |lia].
      intros y rest Hy. apply Hdec. by right.
    + intros H%app_eq_nil. by destruct H as [H%Hne _].
Qed.

Lemma decode_encode_tuple a rest :
  tuple_valid a → Z.of_nat (length (encode_tuple a)) < 2 ^ 64 →
  decode_tuple (encode_tuple a ++ rest) = Some (a, rest).
Proof.
  intros [Haddr (ks & Hks & Hall)] Hfit. destruct a as [addr keys].
  cbn [Address StorageKeys] in *. subst keys.
  unfold decode_tuple, encode_tuple in *. cbn [Address StorageKeys] in *.
  change (default [] (Some ks)) with ks in *.
  set (kc := mjoin ((λ k, encode_string (be_fixed 32 k)) <$> ks)) in *.
  pose proof (length_encode_list (encode_string (be_fixed 20 addr) ++ encode_list kc)) as H1.
  rewrite length_app in H1.
  pose proof (length_encode_list kc) as H2.
  rewrite decode_encode_list by (rewrite length_app; lia). cbn [mbind option_bind].
  rewrite decode_encode_fixed by (change (256 ^ Z.of_nat 20) with (2 ^ 160); lia).
  cbn [mbind option_bind].
  rewrite <-(app_nil_r (encode_list kc)).
  rewrite decode_encode_list by lia. cbn [mbind option_bind].
  unfold kc. rewrite decode_elements_encode; [done| |intros; apply encode_string_nonempty|done].
  intros k rest' Hk. apply decode_encode_fixed; [lia|].
  rewrite Forall_forall in Hall. apply list_elem_of_In, Hall in Hk.
  change (256 ^ Z.of_nat 32) with (2 ^ 256). lia.
Qed.

Lemma decode_encode_access_list al rest :
  Forall tuple_valid al → Z.of_nat (length (encode_access_list al)) < 2 ^ 64 →
  decode_access_list (encode_access_list al ++ rest) = Some (al, rest).
Proof.
  intros Hall Hfit. unfold decode_access_list, encode_access_list in *.
  pose proof (length_encode_list (mjoin (encode_tuple <$> al))) as H1.
  rewrite decode_encode_list by lia. cbn [mbind option_bind].
  rewrite decode_elements_encode; [done| | |done].
  - intros a rest' Ha. apply decode_encode_tuple.
    + rewrite Forall_forall in Hall. by apply Hall, list_elem_of_In.
    + pose proof (length_mjoin_elem encode_tuple al a Ha). lia.
  - intros a. apply encode_list_nonempty.
Qed.

Lemma length_encode_string bs : (length bs ≤ length (encode_string bs))%nat.
Proof.
  unfold encode_string. destruct bs as [|b [|c bs]].
  - simpl. lia.
  - destruct (_ <? _); [done|]. rewrite length_app. simpl. lia.
  - rewrite length_app. lia.
Qed.

Lemma decode_encode_address_ptr (to : option common_Address) rest :
  (∀ a, to = Some a → 0 ≤ a < 2 ^ 160) →
  decode_address_ptr
    (encode_string (match to with Some a => be_fixed 20 a | None => [] end) ++ rest)
  = Some (to, rest).
Proof.
  intros Hto. unfold decode_address_ptr. destruct to as [a|].
  - rewrite decode_encode_string by (rewrite length_be_fixed; lia).
    cbn [mbind option_bind]. rewrite length_be_fixed.
    rewrite decide_False by lia. rewrite decide_True by done.
    rewrite be_value_be_fixed; [done|].
    change (256 ^ Z.of_nat 20) with (2 ^ 160). by apply Hto.
  - rewrite decode_encode_string by (simpl; lia). done.
Qed.

(** The wire encoding of a valid content decodes to that content. *)
Lemma decode_encode_content c : content_valid c → decode_content (encode_content c) = Some c.
Proof.
  intros (Hc & Hn & Ht & Hf & Hg & Hto & Ha & Hal & Hv & Hr & Hs & Hfit).
  destruct c as [chainID nonce tip fee gasLimit to amount payload al v r s].
  unfold decode_content, encode_content in *.
  cbn [c_ChainID c_AccountNonce c_GasTipCap c_GasFeeCap c_GasLimit c_Recipient
       c_Amount c_Payload c_AccessList c_V c_R c_S] in *.
  match type of Hfit with
  | context [encode_list ?x] => pose proof (length_encode_list x) as Hlen
  end.
  rewrite !length_app in Hlen.
  pose proof (length_encode_string payload) as Hp.
  rewrite <-(app_nil_r (encode_list _)).
  rewrite decode_encode_list by (rewrite !length_app; lia). cbn [mbind option_bind].
  rewrite decode_encode_uint by done. cbn [mbind option_bind].
  rewrite decode_encode_uint64 by done. cbn [mbind option_bind].
  rewrite decode_encode_uint by done. cbn [mbind option_bind].
  rewrite decode_encode_uint by done. cbn [mbind option_bind].
  rewrite decode_encode_uint64 by done. cbn [mbind option_bind].
  rewrite decode_encode_address_ptr by done. cbn [mbind option_bind].
  rewrite decode_encode_uint by done. cbn [mbind option_bind].
  rewrite decode_encode_string by lia. cbn [mbind option_bind].
  rewrite decode_encode_access_list by (done || lia). cbn [mbind option_bind].
  rewrite decode_encode_uint by done. cbn [mbind option_bind].
  rewrite decode_encode_uint by done. cbn [mbind option_bind].
  rewrite <-(app_nil_r (encode_uint s)).
  rewrite decode_encode_uint by done. done.
Qed.

(** The encoder on the standard examples of the format: the string
    "dog", the empty string and the empty list, the integers 0, 15 and
    1024, the list of "cat" and "dog", and a string of 56 bytes, the
    shortest with a length of its own. *)
Example encode_string_dog :
  byte_to_Z <$> encode_string [Byte.x64; Byte.x6f; Byte.x67] = [131; 100; 111; 103].
Proof. vm_compute. reflexivity. Qed.

Example encode_empty_string_and_list :
  byte_to_Z <$> encode_string [] = [128] ∧ byte_to_Z <$> encode_list [] = [192].
Proof. split; vm_compute; reflexivity. Qed.

Example encode_uint_examples :
  byte_to_Z <$> encode_uint 0 = [128]
  ∧ byte_to_Z <$> encode_uint 15 = [15]
  ∧ byte_to_Z <$> encode_uint 1024 = [130; 4; 0].
Proof. split_and!; vm_compute; reflexivity. Qed.

Example encode_list_cat_dog :
  byte_to_Z <$> encode_list (encode_string [Byte.x63; Byte.x61; Byte.x74]
                             ++ encode_string [Byte.x64; Byte.x6f; Byte.x67])
  = [200; 131; 99; 97; 116; 131; 100; 111; 103].
Proof. vm_compute. reflexivity. Qed.

Example encode_string_56_bytes :
  byte_to_Z <$> take 3 (encode_string (replicate 56 Byte.x61)) = [184; 56; 97]
  ∧ length (encode_string (replicate 56 Byte.x61)) = 58%nat.
Proof. split; vm_compute; reflexivity. Qed.

(* ===================================================================== *)
(** ** Wire encoding: instances                                          *)
(* ===================================================================== *)

Lemma heap_extends_refl h : heap_extends h h.
Proof. by split_and!. Qed.

Lemma heap_extends_trans h1 h2 h3 :
  heap_extends h1 h2 → heap_extends h2 h3 → heap_extends h1 h3.
Proof. intros (?&?&?) (?&?&?). split_and!; by etrans. Qed.

Lemma big_value_extends h h' p v :
  heap_extends h h' → big_value h p = Some v → big_value h' p = Some v.
Proof.
  intros (Hb & _) Hv. destruct p as [l|]; [|done]. simpl in *.
  by eapply lookup_weaken.
Qed.

Lemma slice_read_extends {A} (m m' : gmap loc (list A)) s :
  m ⊆ m' → slice_allocated m s → slice_read m' s = slice_read m s.
Proof.
  intros Hsub (a & off & n & -> & [arr Harr]). simpl.
  by rewrite Harr, (lookup_weaken _ _ _ _ Harr Hsub).
Qed.

Lemma big_alloc_spec v h :
  ∃ l h', big_alloc v h = Done (Some l, h')
          ∧ big_value h' (Some l) = Some v ∧ heap_extends h h'.
Proof.
  eexists _, _. split; [reflexivity|]. split.
  - simpl. apply lookup_insert_eq.
  - split_and!; try done. simpl.
    apply insert_subseteq, not_elem_of_dom, is_fresh.
Qed.

Lemma bytes_alloc_spec bs h :
  ∃ s h', bytes_alloc bs h = Done (s, h')
          ∧ slice_read (byteArrays h') s = bs
          ∧ slice_allocated (byteArrays h') s ∧ heap_extends h h'.
Proof.
  eexists _, _. split; [reflexivity|]. split_and!.
  - simpl. rewrite lookup_insert_eq. simpl. by rewrite take_ge.
  - eexists _, _, _. split; [done|]. simpl. rewrite lookup_insert_eq. eauto.
  - split_and!; try done. simpl.
    apply insert_subseteq, not_elem_of_dom, is_fresh.
Qed.

Lemma tuples_alloc_spec al h :
  ∃ s h', tuples_alloc al h = Done (s, h')
          ∧ slice_read (tupleArrays h') s = al ∧ slice_is_nil s = false
          ∧ slice_allocated (tupleArrays h') s ∧ heap_extends h h'.
Proof.
  eexists _, _. split; [reflexivity|]. split_and!.
  - simpl. rewrite lookup_insert_eq. simpl. by rewrite take_ge.
  - done.
  - eexists _, _, _. split; [done|]. simpl. rewrite lookup_insert_eq. eauto.
  - split_and!; try done. simpl.
    apply insert_subseteq, not_elem_of_dom, is_fresh.
Qed.

Lemma wire_big_value h p v :
  big_value h p = Some v → 0 ≤ v → wire_big p h = Done (inl v, h).
Proof.
  intros Hv Hpos. destruct p as [l|]; [|done]. simpl in Hv.
  unfold wire_big, bind, big_load. rewrite Hv.
  by rewrite (proj2 (Z.ltb_ge _ _)).
Qed.

Lemma tx_content_Some h t c :
  tx_content h t = Some c →
  big_value h (ChainID t) = Some (c_ChainID c)
  ∧ big_value h (GasTipCap t) = Some (c_GasTipCap c)
  ∧ big_value h (GasFeeCap t) = Some (c_GasFeeCap c)
  ∧ big_value h (Amount t) = Some (c_Amount c)
  ∧ big_value h (SigV t) = Some (c_V c)
  ∧ big_value h (SigR t) = Some (c_R c)
  ∧ big_value h (SigS t) = Some (c_S c)
  ∧ c = mkTxContent (c_ChainID c) (AccountNonce t) (c_GasTipCap c) (c_GasFeeCap c)
          (GasLimit t) (Recipient t) (c_Amount c) (payload_of h t)
          (access_list_of h t) (c_V c) (c_R c) (c_S c).
Proof.
  unfold tx_content. intros H.
  destruct (big_value h (ChainID t)); [|done].
  destruct (big_value h (GasTipCap t)); [|done].
  destruct (big_value h (GasFeeCap t)); [|done].
  destruct (big_value h (Amount t)); [|done].
  destruct (big_value h (SigV t)); [|done].
  destruct (big_value h (SigR t)); [|done].
  destruct (big_value h (SigS t)); [|done].
  simpl in H. by simplify_eq.
Qed.

Lemma big_value_allocated h p v : big_value h p = Some v → big_allocated h p.
Proof. destruct p as [l|]; [|done]. simpl. intros H. exists l. eauto. Qed.

(** Reading the content of a valid instance succeeds and writes nothing. *)
Lemma content_of_valid h t c :
  tx_content h t = Some c → content_valid c → content_of t h = Done (inl c, h).
Proof.
  intros Hc (Hch & _ & Ht & Hf & _ & _ & Ha & _ & Hv & Hr & Hs & _).
  apply tx_content_Some in Hc as (Ec & Et & Ef & Ea & Ev & Er & Es & Eq).
  unfold content_of.
  rewrite (bind_Done _ _ _ _ _ (wire_big_value _ _ _ Ec (proj1 Hch))).
  rewrite (bind_Done _ _ _ _ _ (wire_big_value _ _ _ Et (proj1 Ht))).
  rewrite (bind_Done _ _ _ _ _ (wire_big_value _ _ _ Ef (proj1 Hf))).
  rewrite (bind_Done _ _ _ _ _ (wire_big_value _ _ _ Ea (proj1 Ha))).
  rewrite (bind_Done _ _ _ _ _ (wire_big_value _ _ _ Ev (proj1 Hv))).
  rewrite (bind_Done _ _ _ _ _ (wire_big_value _ _ _ Er (proj1 Hr))).
  rewrite (bind_Done _ _ _ _ _ (wire_big_value _ _ _ Es (proj1 Hs))).
  by rewrite <-Eq.
Qed.

(** Decoding allocates the cells and arrays of a new instance that holds
    the decoded content; what was in the store stays. *)
Lemma DecodeRLP_content bytes c h :
  decode_content bytes = Some c →
  ∃ t' h', DecodeRLP bytes h = Done (inl t', h')
           ∧ heap_extends h h'
           ∧ tx_content h' t' = Some c
           ∧ slice_allocated (tupleArrays h') (AccessList t').
Proof.
  intros Hdec. unfold DecodeRLP. rewrite Hdec.
  destruct (big_alloc_spec (c_ChainID c) h) as (l1 & h1 & E1 & V1 & X1).
  rewrite (bind_Done _ _ _ _ _ E1).
  destruct (big_alloc_spec (c_GasTipCap c) h1) as (l2 & h2 & E2 & V2 & X2).
  rewrite (bind_Done _ _ _ _ _ E2).
  destruct (big_alloc_spec (c_GasFeeCap c) h2) as (l3 & h3 & E3 & V3 & X3).
  rewrite (bind_Done _ _ _ _ _ E3).
  destruct (big_alloc_spec (c_Amount c) h3) as (l4 & h4 & E4 & V4 & X4).
  rewrite (bind_Done _ _ _ _ _ E4).
  destruct (bytes_alloc_spec (c_Payload c) h4) as (sp & h5 & E5 & V5 & A5 & X5).
  rewrite (bind_Done _ _ _ _ _ E5).
  destruct (tuples_alloc_spec (c_AccessList c) h5) as (sa & h6 & E6 & V6 & _ & A6 & X6).
  rewrite (bind_Done _ _ _ _ _ E6).
  destruct (big_alloc_spec (c_V c) h6) as (l7 & h7 & E7 & V7 & X7).
  rewrite (bind_Done _ _ _ _ _ E7).
  destruct (big_alloc_spec (c_R c) h7) as (l8 & h8 & E8 & V8 & X8).
  rewrite (bind_Done _ _ _ _ _ E8).
  destruct (big_alloc_spec (c_S c) h8) as (l9 & h9 & E9 & V9 & X9).
  rewrite (bind_Done _ _ _ _ _ E9).
  pose proof (heap_extends_trans _ _ _ X8 X9) as Y8.
  pose proof (heap_extends_trans _ _ _ X7 Y8) as Y7.
  pose proof (heap_extends_trans _ _ _ X6 Y7) as Y6.
  pose proof (heap_extends_trans _ _ _ X5 Y6) as Y5.
  pose proof (heap_extends_trans _ _ _ X4 Y5) as Y4.
  pose proof (heap_extends_trans _ _ _ X3 Y4) as Y3.
  pose proof (heap_extends_trans _ _ _ X2 Y3) as Y2.
  pose proof (heap_extends_trans _ _ _ X1 Y2) as Y1.
  eexists _, h9. split; [reflexivity|]. split_and!; [done| |].
  - unfold tx_content. cbn [ChainID GasTipCap GasFeeCap Amount SigV SigR SigS
      AccountNonce GasLimit Recipient].
    rewrite (big_value_extends _ _ _ _ Y2 V1), (big_value_extends _ _ _ _ Y3 V2),
      (big_value_extends _ _ _ _ Y4 V3), (big_value_extends _ _ _ _ Y5 V4),
      (big_value_extends _ _ _ _ Y8 V7), (big_value_extends _ _ _ _ X9 V8), V9.
    cbn [mbind option_bind]. unfold payload_of, access_list_of. cbn [Payload AccessList].
    rewrite (slice_read_extends _ _ _ (proj1 (proj2 Y6)) A5), V5.
    rewrite (slice_read_extends _ _ _ (proj2 (proj2 Y7)) A6), V6.
    by destruct c.
  - cbn [AccessList]. destruct A6 as (a & off & n & -> & Ha).
    eexists _, _, _. split; [done|].
    destruct Ha as [arr Harr]. exists arr.
    eapply lookup_weaken; [exact Harr|]. apply Y7.
Qed.

(** The wire half of the round trip: a valid instance is encoded without
    error, the bytes decode to an instance that [Equal] accepts as the
    original, and the decoded access list and payload are those of the
    original, element for element. *)
Lemma wire_round_trip h t :
  wire_valid h t →
  ∃ bytes t' h',
    EncodeRLP t h = Done (inl bytes, h)
    ∧ DecodeRLP bytes h = Done (inl t', h')
    ∧ Equal t' (TxDynamicFee t) h' = Done (true, h')
    ∧ access_list_of h' t' = access_list_of h t
    ∧ payload_of h' t' = payload_of h t.
Proof.
  intros (c & Hc & Hvalid & Hal).
  pose proof (content_of_valid h t c Hc Hvalid) as Hread.
  destruct (DecodeRLP_content (encode_content c) c h (decode_encode_content c Hvalid))
    as (t' & h' & Hdec & Hext & Hc' & Hal').
  exists (encode_content c), t', h'. split_and!.
  - unfold EncodeRLP. by rewrite (bind_Done _ _ _ _ _ Hread).
  - done.
  - apply tx_content_Some in Hc as (Ec & Et & Ef & Ea & Ev & Er & Es & Eq).
    apply tx_content_Some in Hc' as (Ec' & Et' & Ef' & Ea' & Ev' & Er' & Es' & Eq').
    assert (Hsame : access_list_of h' t = access_list_of h t).
    { unfold access_list_of. apply slice_read_extends; [apply Hext | done]. }
    destruct (Equal_decides h' t' t) as (b & Hb & Hiff).
    { split_and!; by eapply big_value_allocated. }
    { split_and!; eapply big_value_allocated, big_value_extends; done. }
    rewrite Hb. do 2 f_equal. apply Hiff.
    unfold agree_without_payload.
    rewrite Ec', Et', Ef', Ea', Ev', Er', Es'.
    rewrite (big_value_extends _ _ _ _ Hext Ec), (big_value_extends _ _ _ _ Hext Et),
      (big_value_extends _ _ _ _ Hext Ef), (big_value_extends _ _ _ _ Hext Ea),
      (big_value_extends _ _ _ _ Hext Ev), (big_value_extends _ _ _ _ Hext Er),
      (big_value_extends _ _ _ _ Hext Es).
    rewrite Hsame.
    pose proof (f_equal c_AccountNonce Eq) as N1. pose proof (f_equal c_AccountNonce Eq') as N2.
    pose proof (f_equal c_GasLimit Eq) as G1. pose proof (f_equal c_GasLimit Eq') as G2.
    pose proof (f_equal c_Recipient Eq) as R1. pose proof (f_equal c_Recipient Eq') as R2.
    pose proof (f_equal c_AccessList Eq) as L1. pose proof (f_equal c_AccessList Eq') as L2.
    cbn in N1, N2, G1, G2, R1, R2, L1, L2.
    destruct Hal as (a & off & n & Ha & _). destruct Hal' as (a' & off' & n' & Ha' & _).
    split_and!; try congruence. by rewrite Ha, Ha'.
  - apply tx_content_Some in Hc as (_ & _ & _ & _ & _ & _ & _ & Eq).
    apply tx_content_Some in Hc' as (_ & _ & _ & _ & _ & _ & _ & Eq').
    pose proof (f_equal c_AccessList Eq) as L1. pose proof (f_equal c_AccessList Eq') as L2.
    cbn in L1, L2. congruence.
  - apply tx_content_Some in Hc as (_ & _ & _ & _ & _ & _ & _ & Eq).
    apply tx_content_Some in Hc' as (_ & _ & _ & _ & _ & _ & _ & Eq').
    pose proof (f_equal c_Payload Eq) as L1. pose proof (f_equal c_Payload Eq') as L2.
    cbn in L1, L2. congruence.
Qed.

(* ===================================================================== *)
(** ** JSON encoding                                                     *)
(* ===================================================================== *)

Lemma slice_read_wf_extends {A} (m m' : gmap loc (list A)) s :
  m ⊆ m' → slice_wf m s → slice_read m' s = slice_read m s.
Proof.
  intros Hsub Hwf. destruct s as [|a off n]; [done|].
  apply slice_read_extends; [done|]. by eexists _, _, _.
Qed.

(** The JSON half of the round trip, relative to the JSON collaborators:
    when the decoder hands back a struct that carries the data of the
    struct built by [MarshalJSON], [UnmarshalJSON] succeeds with an
    instance that [Equal] accepts as the original, with the same access
    list, payload and cached hash. *)
Lemma json_round_trip
    (TxTypeDynamicFee : Z) (TxTypeDynamicFee_String : string)
    (json_Marshal : TxInternalDataDynamicFeeJSON → M (list Byte.byte + error))
    (json_Unmarshal : list Byte.byte → M (TxInternalDataDynamicFeeJSON + error))
    t0 t h bytes h1 js' h2 :
  MarshalJSON TxTypeDynamicFee TxTypeDynamicFee_String json_Marshal t h
    = Done (inl bytes, h1) →
  json_Unmarshal bytes h1 = Done (inl js', h2) →
  heap_extends h h2 →
  slice_wf (tupleArrays h) (AccessList t) →
  json_carries h (json_struct_of TxTypeDynamicFee TxTypeDynamicFee_String t) h2 js' →
  ∃ t', UnmarshalJSON json_Unmarshal t0 bytes h1 = Done ((t', None), h2)
        ∧ Equal t' (TxDynamicFee t) h2 = Done (true, h2)
        ∧ access_list_of h2 t' = access_list_of h t
        ∧ payload_of h2 t' = payload_of h t
        ∧ Hash t' = Hash t.
Proof.
  intros _ Hdec Hext Hwf
    (Hn & Htip & Hfee & Hg & Hto & Ham & Hp & Hsigs & Hnil & Hal & Hch & Hh).
  cbn [json_struct_of js_AccountNonce js_MaxPriorityFeePerGas js_MaxFeePerGas js_GasLimit
       js_Recipient js_Amount js_Payload js_TxSignatures js_AccessList js_ChainID
       js_Hash] in *.
  apply Forall2_cons_inv_l in Hsigs as (s' & rest & Hsig & Hrest & Hlist).
  destruct Hsig as (sig & sig' & [= <-] & -> & Hv & Hr & Hs).
  cbn [sig_V sig_R sig_S] in *.
  pose proof (UnmarshalJSON_first_present json_Unmarshal t0 bytes h1 js' h2
                sig' rest Hdec Hlist) as Hun.
  eexists. split; [exact Hun|].
  assert (Hsame : access_list_of h2 t = access_list_of h t).
  { unfold access_list_of. apply slice_read_wf_extends; [apply Hext | done]. }
  destruct Htip as (vt & Ht1 & Ht2), Hfee as (vf & Hf1 & Hf2), Ham as (va & Ha1 & Ha2),
    Hch as (vc & Hc1 & Hc2), Hv as (vv & Hv1 & Hv2), Hr as (vr & Hr1 & Hr2),
    Hs as (vs & Hs1 & Hs2).
  split_and!; try done.
  match goal with |- Equal ?t' _ _ = _ =>
    destruct (Equal_decides h2 t' t) as (b & Hb & Hiff) end.
  { split_and!; by eapply big_value_allocated. }
  { split_and!; eapply big_value_allocated, big_value_extends; done. }
  rewrite Hb. do 2 f_equal. apply Hiff.
  unfold agree_without_payload, access_list_of.
  cbn [ChainID AccountNonce GasTipCap GasFeeCap GasLimit Recipient Amount AccessList
       SigV SigR SigS].
  rewrite Hc2, Hf2, Ht2, Ha2, Hv2, Hr2, Hs2.
  rewrite (big_value_extends _ _ _ _ Hext Hc1), (big_value_extends _ _ _ _ Hext Ht1),
    (big_value_extends _ _ _ _ Hext Hf1), (big_value_extends _ _ _ _ Hext Ha1),
    (big_value_extends _ _ _ _ Hext Hv1), (big_value_extends _ _ _ _ Hext Hr1),
    (big_value_extends _ _ _ _ Hext Hs1).
  unfold access_list_of in Hsame. rewrite Hsame.
  by split_and!.
Qed.

(* ===================================================================== *)
(** ** Round trips                                                       *)
(* ===================================================================== *)

(** C3: decoding the encoding of a valid instance yields an instance that
    [Equal] accepts as the original, with the access list in the same
    order.  On the wire a valid instance is one whose cells exist, whose
    access list and storage keys are slices that are not nil, and whose
    content the wire can carry ([wire_valid]).  For JSON the statement is
    relative to the JSON collaborators, asked to hand back a struct that
    carries the data of the one [MarshalJSON] built ([json_carries]). *)
Theorem encodings_round_trip :
  (∀ h t,
     wire_valid h t →
     ∃ bytes t' h',
       EncodeRLP t h = Done (inl bytes, h)
       ∧ DecodeRLP bytes h = Done (inl t', h')
       ∧ Equal t' (TxDynamicFee t) h' = Done (true, h')
       ∧ access_list_of h' t' = access_list_of h t)
  ∧ (∀ (TxTypeDynamicFee : Z) (TxTypeDynamicFee_String : string)
       (json_Marshal : TxInternalDataDynamicFeeJSON → M (list Byte.byte + error))
       (json_Unmarshal : list Byte.byte → M (TxInternalDataDynamicFeeJSON + error))
       t0 t h bytes h1 js' h2,
       MarshalJSON TxTypeDynamicFee TxTypeDynamicFee_String json_Marshal t h
         = Done (inl bytes, h1) →
       json_Unmarshal bytes h1 = Done (inl js', h2) →
       heap_extends h h2 →
       slice_wf (tupleArrays h) (AccessList t) →
       json_carries h (json_struct_of TxTypeDynamicFee TxTypeDynamicFee_String t) h2 js' →
       ∃ t', UnmarshalJSON json_Unmarshal t0 bytes h1 = Done ((t', None), h2)
             ∧ Equal t' (TxDynamicFee t) h2 = Done (true, h2)
             ∧ access_list_of h2 t' = access_list_of h t).
Proof.
  split.
  - intros h t Hvalid.
    destruct (wire_round_trip h t Hvalid) as (bytes & t' & h' & He & Hd & Heq & Hal & _).
    by exists bytes, t', h'.
  - intros ty str json_Marshal json_Unmarshal t0 t h bytes h1 js' h2 Hm Hu Hext Hwf Hc.
    destruct (json_round_trip ty str json_Marshal json_Unmarshal t0 t h bytes h1 js' h2
                Hm Hu Hext Hwf Hc) as (t' & Hun & Heq & Hal & _).
    by exists t'.
Qed.

(** Outside [wire_valid]: nil and empty storage keys are written alike
    and read back as a slice that is not nil, which [reflect.DeepEqual]
    tells from nil.  The sample instance with nil storage keys comes back
    from the wire as an instance that [Equal] rejects. *)
Lemma wire_round_trip_nil_storage_keys :
  match (let* enc := EncodeRLP sample_nil_keys in
         match enc with
         | inl bytes =>
             let* dec := DecodeRLP bytes in
             match dec with
             | inl t' => let* b := Equal t' (TxDynamicFee sample_nil_keys) in ret (Some b)
             | inr _ => ret None
             end
         | inr _ => ret None
         end) sample_nil_keys_heap
  with
  | Done (r, _) => r = Some false
  | Panic _ => False
  end.
Proof. vm_compute. reflexivity. Qed.

(** Closes a goal [lo ≤ n < hi] on numerals by evaluation. *)
Ltac range_by_evaluation :=
  vm_compute; split; [intros ?; discriminate | reflexivity].

Lemma sample_content_valid : content_valid sample_content.
Proof.
  unfold content_valid.
  split; [range_by_evaluation|]. split; [range_by_evaluation|].
  split; [range_by_evaluation|]. split; [range_by_evaluation|].
  split; [range_by_evaluation|].
  split; [intros a [= <-]; range_by_evaluation|].
  split; [range_by_evaluation|].
  split.
  { constructor; [|constructor]. split; [range_by_evaluation|].
    exists [1]. split; [reflexivity|]. constructor; [range_by_evaluation | constructor]. }
  split; [range_by_evaluation|]. split; [range_by_evaluation|].
  split; [range_by_evaluation|].
  vm_compute. reflexivity.
Qed.

Lemma encodings_round_trip_witness :
  (∃ bytes t' h',
     EncodeRLP sample_m sample_m_heap = Done (inl bytes, sample_m_heap)
     ∧ DecodeRLP bytes sample_m_heap = Done (inl t', h')
     ∧ Equal t' (TxDynamicFee sample_m) h' = Done (true, h')
     ∧ access_list_of h' t' = access_list_of sample_m_heap sample_m)
  ∧ (∃ t',
       UnmarshalJSON sample_codec_Unmarshal newEmptyTxInternalDataDynamicFee
         sample_json_text sample_m_heap = Done ((t', None), sample_decoded_heap)
       ∧ Equal t' (TxDynamicFee sample_m) sample_decoded_heap
         = Done (true, sample_decoded_heap)
       ∧ access_list_of sample_decoded_heap t' = access_list_of sample_m_heap sample_m).
Proof.
  split.
  - apply (proj1 encodings_round_trip sample_m_heap sample_m).
    exists sample_content. split_and!.
    + vm_compute. reflexivity.
    + exact sample_content_valid.
    + exists 3%positive, 0%nat, 1%nat. split; [reflexivity|].
      apply (bool_decide_unpack _). vm_compute. exact I.
  - apply (proj2 encodings_round_trip 2 "TxTypeDynamicFee"%string
             sample_codec_Marshal sample_codec_Unmarshal
             newEmptyTxInternalDataDynamicFee sample_m sample_m_heap
             sample_json_text sample_m_heap sample_decoded sample_decoded_heap).
    + reflexivity.
    + vm_compute. reflexivity.
    + split_and!; apply (bool_decide_unpack _); vm_compute; exact I.
    + apply (bool_decide_unpack _). vm_compute. exact I.
    + unfold json_carries. split_and!; try (vm_compute; reflexivity).
      * exists 5. split; vm_compute; reflexivity.
      * exists 5. split; vm_compute; reflexivity.
      * exists 5. split; vm_compute; reflexivity.
      * constructor; [|constructor].
        eexists _, _. split; [reflexivity|]. split; [reflexivity|].
        split_and!; exists 0; split; vm_compute; reflexivity.
      * exists 5. split; vm_compute; reflexivity.
Defined.

(* ===================================================================== *)
(** ** Allocation                                                        *)
(* ===================================================================== *)

Local Close Scope Z_scope.

Lemma alloc_chain_spec h ls h' :
  alloc_chain h ls h' →
  heap_extends h h' ∧ NoDup ls
  ∧ ∀ l, l ∈ ls → bigInts h !! l = None ∧ bigInts h' !! l = Some 0%Z.
Proof.
  induction 1 as [h|h l ls h' Hl _ (Hext & Hnd & Hall)
                 |h h1 ls h' Hb Hby Ht _ (Hext & Hnd & Hall)].
  - split_and!; [apply heap_extends_refl | constructor |]. by intros l Hin%elem_of_nil.
  - assert (Hstep : heap_extends h (with_bigInts (insert l 0%Z) h)).
    { split_and!; [|done..]. simpl. by apply insert_subseteq. }
    split_and!.
    + by eapply heap_extends_trans.
    + constructor; [|done]. intros Hin. destruct (Hall l Hin) as [Hnone _].
      simpl in Hnone. by rewrite lookup_insert_eq in Hnone.
    + intros l' [->|Hin]%elem_of_cons.
      * split; [done|]. eapply lookup_weaken; [|apply Hext]. simpl.
        apply lookup_insert_eq.
      * destruct (Hall l' Hin) as [Hnone Hsome]. split; [|done].
        simpl in Hnone. rewrite lookup_insert_None in Hnone. tauto.
  - assert (Hstep : heap_extends h h1) by (split_and!; [by rewrite Hb|done..]).
    split_and!.
    + by eapply heap_extends_trans.
    + done.
    + intros l Hin. destruct (Hall l Hin) as [Hnone Hsome]. split; [|done].
      by rewrite <-Hb.
Qed.

Lemma big_new_insert h p h' :
  big_new h = Done (p, h') →
  ∃ l, p = Some l ∧ bigInts h !! l = None ∧ h' = with_bigInts (insert l 0%Z) h.
Proof.
  destruct (big_new_spec h) as (l & -> & Hl). intros [= <- <-]. eauto.
Qed.

Lemma empty_bytes_fresh h s h' :
  empty_bytes h = Done (s, h') →
  bigInts h' = bigInts h ∧ byteArrays h ⊆ byteArrays h' ∧ tupleArrays h' = tupleArrays h
  ∧ ∃ a, s = Slice a 0 0 ∧ byteArrays h !! a = None ∧ byteArrays h' !! a = Some [].
Proof.
  unfold empty_bytes, array_make. intros [= <- <-]. simpl.
  assert (byteArrays h !! fresh (dom (byteArrays h)) = None)
    by apply not_elem_of_dom, is_fresh.
  split_and!; try done.
  - by apply insert_subseteq.
  - eexists. split_and!; [done..|]. by rewrite lookup_insert_eq.
Qed.

Lemma empty_AccessList_fresh h s h' :
  empty_AccessList h = Done (s, h') →
  bigInts h' = bigInts h ∧ byteArrays h' = byteArrays h ∧ tupleArrays h ⊆ tupleArrays h'
  ∧ ∃ a, s = Slice a 0 0 ∧ tupleArrays h !! a = None ∧ tupleArrays h' !! a = Some [].
Proof.
  unfold empty_AccessList, array_make. intros [= <- <-]. simpl.
  assert (tupleArrays h !! fresh (dom (tupleArrays h)) = None)
    by apply not_elem_of_dom, is_fresh.
  split_and!; try done.
  - by apply insert_subseteq.
  - eexists. split_and!; [done..|]. by rewrite lookup_insert_eq.
Qed.

(** What the zeroed constructor returns, in full. *)
Lemma newTxInternalDataDynamicFee_chain h d h' :
  newTxInternalDataDynamicFee h = Done (d, h') →
  (∃ lc lt lf la lv lr ls,
     big_fields d = Some <$> [lc; lt; lf; la; lv; lr; ls]
     ∧ alloc_chain h [lc; lt; lf; la; lv; lr; ls] h')
  ∧ AccountNonce d = 0%Z ∧ GasLimit d = 0%Z ∧ Recipient d = None ∧ Hash d = None
  ∧ (∃ a, Payload d = Slice a 0 0 ∧ byteArrays h !! a = None
          ∧ is_Some (byteArrays h' !! a))
  ∧ (∃ a, AccessList d = Slice a 0 0 ∧ tupleArrays h !! a = None
          ∧ tupleArrays h' !! a = Some []).
Proof.
  intros H. unfold newTxInternalDataDynamicFee in H.
  do 9 inv_bind H. inv_ret H.
  apply big_new_insert in Hm as (lc & -> & Nc & ->).
  apply big_new_insert in Hm0 as (lt & -> & Nt & ->).
  apply big_new_insert in Hm1 as (lf & -> & Nf & ->).
  apply big_new_insert in Hm2 as (la & -> & Na & ->).
  apply empty_bytes_fresh in Hm3 as (B5 & Y5 & T5 & ap & -> & Np & Sp).
  apply empty_AccessList_fresh in Hm4 as (B6 & Y6 & T6 & aa & -> & Naa & Saa).
  apply big_new_insert in Hm5 as (lv & -> & Nv & ->).
  apply big_new_insert in Hm6 as (lr & -> & Nr & ->).
  apply big_new_insert in Hm7 as (ls & -> & Ns & ->).
  split_and!; try done.
  - exists lc, lt, lf, la, lv, lr, ls. split; [done|].
    do 4 (apply alloc_chain_big; [done|]).
    eapply (alloc_chain_array _ h5); [by rewrite B6, B5 | | |].
    { rewrite Y6. done. }
    { rewrite <-T5. done. }
    do 3 (apply alloc_chain_big; [done|]). apply alloc_chain_done.
  - exists ap. simpl. split_and!; [done| |].
    + simpl in Np. done.
    + simpl. rewrite Y6. eauto.
  - exists aa. simpl. split_and!; [done| |done].
    simpl in Naa. rewrite T5 in Naa. done.
Qed.

Lemma alloc_chain_fields h ls h' (ps : list (option loc)) :
  ps = Some <$> ls → alloc_chain h ls h' →
  heap_extends h h' ∧ NoDup ps
  ∧ Forall (λ p, big_fresh h p ∧ big_value h' p = Some 0%Z) ps.
Proof.
  intros -> Hchain. destruct (alloc_chain_spec h ls h' Hchain) as (Hext & Hnd & Hall).
  split_and!; [done| |].
  - apply NoDup_fmap; [|done]. by intros ?? [= ->].
  - apply Forall_fmap, Forall_forall. intros l Hin.
    destruct (Hall l (proj2 (list_elem_of_In _ _) Hin)) as [Hnone Hsome].
    split; [by exists l|done].
Qed.

(** X1: the zeroed constructor always returns.  Its seven [big.Int]
    fields are seven different cells, none of them a cell of the caller's
    store, each holding zero; payload and access list are empty slices that
    are not nil; nothing the caller's store held is changed. *)
Theorem newTxInternalDataDynamicFee_zeroed h :
  ∃ d h',
    newTxInternalDataDynamicFee h = Done (d, h')
    ∧ heap_extends h h'
    ∧ NoDup (big_fields d)
    ∧ Forall (λ p, big_fresh h p ∧ big_value h' p = Some 0%Z) (big_fields d)
    ∧ AccountNonce d = 0%Z ∧ GasLimit d = 0%Z ∧ Recipient d = None ∧ Hash d = None
    ∧ slice_is_nil (Payload d) = false ∧ payload_of h' d = []
    ∧ slice_is_nil (AccessList d) = false ∧ access_list_of h' d = [].
Proof.
  destruct (newTxInternalDataDynamicFee_Done h) as (d & h' & Hd).
  exists d, h'. split; [done|].
  destruct (newTxInternalDataDynamicFee_chain h d h' Hd)
    as ((lc & lt & lf & la & lv & lr & ls & Hf & Hchain) & Hn & Hg & Hr & Hh
        & (ap & Hp & _) & (aa & Ha & _)).
  destruct (alloc_chain_fields _ _ _ _ Hf Hchain) as (Hext & Hnd & Hall).
  unfold payload_of, access_list_of. rewrite Hp, Ha.
  by split_and!.
Qed.

(* ===================================================================== *)
(** ** Copies of slices and writes to cells                              *)
(* ===================================================================== *)

Lemma slice_read_length {A} (m : gmap loc (list A)) s :
  slice_ok m s → length (slice_read m s) = slice_len s.
Proof.
  destruct s as [|a off n]; [done|]. intros (arr & Harr & Hlen). simpl.
  rewrite Harr. simpl. rewrite length_take, length_drop. lia.
Qed.

(** [c = make([]T, len(src)); copy(c, src)]: the new slice reads as the
    source did, over an array the store did not have. *)
Lemma array_make_copy {A} (zero : A) (m : gmap loc (list A)) (src : slice) :
  slice_ok m src →
  let c := (array_make zero (slice_len src) m).1 in
  let m2 := (array_copy c src (array_make zero (slice_len src) m).2).2 in
  slice_read m2 c = slice_read m src
  ∧ m ⊆ m2 ∧ slice_fresh m c ∧ slice_allocated m2 c ∧ slice_len c = slice_len src.
Proof.
  intros Hok. pose proof (slice_read_length m src Hok) as Hlen.
  unfold array_make, array_copy. cbn [fst snd slice_len].
  set (a := fresh (dom m)). set (n := slice_len src) in *.
  assert (Ha : m !! a = None) by apply not_elem_of_dom, is_fresh.
  assert (Hsrc : slice_read (<[a := replicate n zero]> m) src = slice_read m src).
  { destruct src as [|b off k]; [done|]. destruct Hok as (arr & Harr & _).
    simpl. rewrite lookup_insert_ne; [done|]. intros ->. congruence. }
  rewrite Hsrc, Nat.min_id, (take_ge (slice_read m src)) by lia.
  rewrite alter_insert_eq. cbn [take app]. rewrite Hlen.
  rewrite drop_replicate, Nat.sub_diag. cbn [replicate]. rewrite app_nil_r.
  split_and!.
  - simpl. rewrite lookup_insert_eq. simpl. apply take_ge. lia.
  - by apply insert_subseteq.
  - by exists a, 0, n.
  - exists a, 0, n. split; [done|]. rewrite lookup_insert_eq. eauto.
  - done.
Qed.

Lemma common_CopyBytes_copies h b :
  slice_ok (byteArrays h) b →
  ∃ p h', common_CopyBytes b h = Done (p, h')
          ∧ slice_read (byteArrays h') p = slice_read (byteArrays h) b
          ∧ slice_is_nil p = slice_is_nil b
          ∧ (slice_is_nil b = false →
             slice_fresh (byteArrays h) p ∧ slice_allocated (byteArrays h') p)
          ∧ bigInts h' = bigInts h ∧ byteArrays h ⊆ byteArrays h'
          ∧ tupleArrays h' = tupleArrays h.
Proof.
  intros Hok. destruct b as [|a off n].
  - exists SliceNil, h. by split_and!.
  - destruct (array_make_copy zero_byte (byteArrays h) (Slice a off n) Hok)
      as (Hread & Hsub & Hfresh & Halloc & Hlen).
    unfold common_CopyBytes. cbn [slice_len] in *.
    destruct (array_make zero_byte n (byteArrays h)) as [c m1] eqn:E1.
    destruct (array_copy c (Slice a off n) m1) as [k m2] eqn:E2.
    cbn [fst snd] in *. rewrite E2 in *. cbn [fst snd] in *.
    exists c, (with_byteArrays (λ _, m2) h). split_and!; try done.
    destruct Hfresh as (? & ? & ? & -> & _). done.
Qed.

Lemma make_and_copy_AccessList_copies h v :
  slice_ok (tupleArrays h) v →
  ∃ s h', make_and_copy_AccessList v h = Done (s, h')
          ∧ slice_read (tupleArrays h') s = slice_read (tupleArrays h) v
          ∧ slice_fresh (tupleArrays h) s ∧ slice_allocated (tupleArrays h') s
          ∧ bigInts h' = bigInts h ∧ byteArrays h' = byteArrays h
          ∧ tupleArrays h ⊆ tupleArrays h'.
Proof.
  intros Hok.
  destruct (array_make_copy zero_tuple (tupleArrays h) v Hok)
    as (Hread & Hsub & Hfresh & Halloc & Hlen).
  unfold make_and_copy_AccessList.
  destruct (array_make zero_tuple (slice_len v) (tupleArrays h)) as [c m1] eqn:E1.
  destruct (array_copy c v m1) as [k m2] eqn:E2.
  cbn [fst snd] in *. rewrite E2 in *. cbn [fst snd] in *.
  exists c, (with_tupleArrays (λ _, m2) h). by split_and!.
Qed.

(** [z.Set(x)] on a cell [lz] with an [x] that holds [v]: the cell [lz]
    holds [v] afterwards and nothing else is written. *)
Lemma big_Set_writes h lz x v :
  is_Some (bigInts h !! lz) → big_value h x = Some v →
  ∃ h', big_Set (Some lz) x h = Done (Some lz, h')
        ∧ bigInts h' = <[lz := v]> (bigInts h)
        ∧ byteArrays h' = byteArrays h ∧ tupleArrays h' = tupleArrays h.
Proof.
  intros [vz Hz] Hx. unfold big_Set. destruct (decide _) as [<-|Hne].
  - exists h. split_and!; try done. simpl in Hx. by rewrite insert_id.
  - destruct x as [lx|]; [|done]. simpl in Hx.
    unfold bind, big_load. rewrite Hx, Hz. eexists. by split_and!.
Qed.

Lemma big_value_frame h h' x :
  bigInts h ⊆ bigInts h' → big_allocated h x → big_value h' x = big_value h x.
Proof.
  intros Hsub (l & -> & [v Hv]). simpl. rewrite Hv. by eapply lookup_weaken.
Qed.

(** The guarded [Set] of the constructor from explicit values: the cell
    takes the value of the argument, or keeps its zero when the argument is
    nil. *)
Lemma set_if_given h0 h lz x :
  bigInts h0 ⊆ bigInts h → big_wf h0 x → bigInts h !! lz = Some 0%Z →
  ∃ h', (if decide (x ≠ None) then big_Set (Some lz) x ;; ret tt else ret tt) h
        = Done (tt, h')
        ∧ bigInts h' = <[lz := default 0%Z (big_value h0 x)]> (bigInts h)
        ∧ byteArrays h' = byteArrays h ∧ tupleArrays h' = tupleArrays h.
Proof.
  intros Hsub [->|Halloc] Hz.
  - exists h. rewrite decide_False by (by intros []). split_and!; try done.
    simpl. by rewrite insert_id.
  - pose proof (big_value_frame _ _ _ Hsub Halloc) as Hval.
    destruct Halloc as (l & -> & [v Hv]). rewrite decide_True by done.
    simpl in Hval. rewrite Hv in Hval.
    destruct (big_Set_writes h lz (Some l) v) as (h' & E & Hb & Hy & Ht); [eauto|done|].
    exists h'. unfold bind at 1. rewrite E. split_and!; try done.
    simpl. by rewrite Hv.
Qed.

(** [copy] into the zero-length destination of the constructor from
    explicit values writes nothing. *)
Lemma copy_into_empty h a accessList :
  ∃ h', (if slice_is_nil accessList then ret tt
         else λ h, let '(_, m) := array_copy (Slice a 0 0) accessList (tupleArrays h) in
                   Done (tt, with_tupleArrays (λ _, m) h)) h = Done (tt, h')
        ∧ bigInts h' = bigInts h ∧ byteArrays h' = byteArrays h
        ∧ tupleArrays h' = tupleArrays h.
Proof.
  destruct (slice_is_nil accessList); [by exists h|].
  unfold array_copy. cbn [slice_len Nat.min take length app Nat.add drop].
  eexists. split; [reflexivity|]. split_and!; try done. simpl.
  apply alter_id. intros arr _.

  reflexivity.
Qed.

Lemma NoDup_seven {A} (a b c d e f g : A) :
  NoDup [a; b; c; d; e; f; g] →
  a ≠ b ∧ a ≠ c ∧ a ≠ d ∧ a ≠ e ∧ a ≠ f ∧ a ≠ g
  ∧ b ≠ c ∧ b ≠ d ∧ b ≠ e ∧ b ≠ f ∧ b ≠ g
  ∧ c ≠ d ∧ c ≠ e ∧ c ≠ f ∧ c ≠ g
  ∧ d ≠ e ∧ d ≠ f ∧ d ≠ g
  ∧ e ≠ f ∧ e ≠ g
  ∧ f ≠ g.
Proof.
  intros H.
  do 6 (let N := fresh "N" in
        pose proof (NoDup_cons_1_1 _ _ H) as N; apply NoDup_cons_1_2 in H;
        rewrite !not_elem_of_cons in N).
  split_and!; intros ->; tauto.
Qed.

(* ===================================================================== *)
(** ** Construction from explicit values: what is copied                 *)
(* ===================================================================== *)

(** What the constructor from explicit values builds. *)
Lemma WithValues_builds
    nonce to amount gasLimit gasTipCap gasFeeCap data accessList chainID h :
  big_wf h amount → big_wf h gasTipCap → big_wf h gasFeeCap → big_wf h chainID →
  slice_ok (byteArrays h) data →
  ∃ d h',
    newTxInternalDataDynamicFeeWithValues nonce to amount gasLimit gasTipCap
      gasFeeCap data accessList chainID h = Done (d, h')
    ∧ heap_extends h h'
    ∧ AccountNonce d = nonce ∧ Recipient d = to ∧ GasLimit d = gasLimit
    ∧ big_value h' (Amount d) = Some (default 0%Z (big_value h amount))
    ∧ big_value h' (GasTipCap d) = Some (default 0%Z (big_value h gasTipCap))
    ∧ big_value h' (GasFeeCap d) = Some (default 0%Z (big_value h gasFeeCap))
    ∧ big_value h' (ChainID d) = Some (default 0%Z (big_value h chainID))
    ∧ big_value h' (SigV d) = Some 0%Z ∧ big_value h' (SigR d) = Some 0%Z
    ∧ big_value h' (SigS d) = Some 0%Z
    ∧ payload_of h' d = slice_read (byteArrays h) data
    ∧ NoDup (big_fields d) ∧ Forall (big_fresh h) (big_fields d)
    ∧ slice_fresh (byteArrays h) (Payload d)
    ∧ slice_is_nil (AccessList d) = false ∧ slice_len (AccessList d) = 0.
Proof.
  intros Wa Wt Wf Wc Hdata.
  destruct (newTxInternalDataDynamicFee_Done h) as (d0 & h0 & Hd0).
  destruct (newTxInternalDataDynamicFee_chain h d0 h0 Hd0)
    as ((lc & lt & lf & la & lv & lr & ls & Hf & Hchain) & Hn0 & Hg0 & Hr0 & Hh0
        & (ap & Hp0 & Hpn & Hps) & (aa & Ha0 & _ & _)).
  destruct (alloc_chain_fields _ _ _ _ Hf Hchain) as (Hext & Hnd & Hall).
  destruct d0 as [c0 n0 t0 f0 g0 r0 a0 p0 al0 v0 rr0 s0 hh0].
  cbn [big_fields fmap list_fmap ChainID GasTipCap GasFeeCap Amount SigV SigR SigS
       Payload AccessList] in *.
  injection Hf as -> -> -> -> -> -> ->. subst p0 al0.
  pose proof (NoDup_seven _ _ _ _ _ _ _ Hnd) as Hne.
  cbn [ChainID GasTipCap GasFeeCap Amount SigV SigR SigS] in Hne.
  repeat match goal with H : _ ∧ _ |- _ => destruct H end.
  apply Forall_cons_1 in Hall as [[(? & [= <-] & Nc) Zc] Hall].
  apply Forall_cons_1 in Hall as [[(? & [= <-] & Nt) Zt] Hall].
  apply Forall_cons_1 in Hall as [[(? & [= <-] & Nf) Zf] Hall].
  apply Forall_cons_1 in Hall as [[(? & [= <-] & Na) Za] Hall].
  apply Forall_cons_1 in Hall as [[(? & [= <-] & Nv) Zv] Hall].
  apply Forall_cons_1 in Hall as [[(? & [= <-] & Nr) Zr] Hall].
  apply Forall_cons_1 in Hall as [[(? & [= <-] & Ns) Zs] _].
  cbn [big_value] in *.
  destruct Hext as (Xb & Xy & Xt).
  unfold newTxInternalDataDynamicFeeWithValues.
  rewrite (bind_Done _ _ _ _ _ Hd0). cbv zeta.
  (* the payload *)
  assert (Hpay : ∃ d1 h1,
    (if decide (0 < slice_len data)
     then let* p := common_CopyBytes data in
          ret (set_Payload p (set_GasLimit gasLimit (set_Recipient to
                 (set_AccountNonce nonce
                    (mkTx (Some lc) n0 (Some lt) (Some lf) g0 r0 (Some la)
                       (Slice ap 0 0) (Slice aa 0 0) (Some lv) (Some lr) (Some ls) hh0)))))
     else ret (set_GasLimit gasLimit (set_Recipient to (set_AccountNonce nonce
                 (mkTx (Some lc) n0 (Some lt) (Some lf) g0 r0 (Some la)
                    (Slice ap 0 0) (Slice aa 0 0) (Some lv) (Some lr) (Some ls) hh0))))) h0
    = Done (d1, h1)
    ∧ (∃ p, d1 = mkTx (Some lc) nonce (Some lt) (Some lf) gasLimit to (Some la)
                   p (Slice aa 0 0) (Some lv) (Some lr) (Some ls) hh0
            ∧ slice_read (byteArrays h1) p = slice_read (byteArrays h) data
            ∧ slice_fresh (byteArrays h) p)
    ∧ bigInts h1 = bigInts h0 ∧ byteArrays h0 ⊆ byteArrays h1
    ∧ tupleArrays h1 = tupleArrays h0).
  { destruct (decide (0 < slice_len data)) as [Hpos|Hzero].
    - assert (Hdata0 : slice_ok (byteArrays h0) data).
      { destruct data as [|b off k]; [done|]. destruct Hdata as (arr & Harr & Hk).
        exists arr. split; [|done]. by eapply lookup_weaken. }
      destruct (common_CopyBytes_copies h0 data Hdata0)
        as (p & h1 & E & Hread & _ & Hfr & Hb & Hy & Ht).
      exists (set_Payload p (set_GasLimit gasLimit (set_Recipient to
                (set_AccountNonce nonce
                   (mkTx (Some lc) n0 (Some lt) (Some lf) g0 r0 (Some la)
                      (Slice ap 0 0) (Slice aa 0 0) (Some lv) (Some lr) (Some ls) hh0))))), h1.
      rewrite (bind_Done _ _ _ _ _ E). split; [done|]. split_and!; try done.
      exists p. split_and!; [done| |].
      + rewrite Hread. destruct data as [|b off k]; [done|].
        destruct Hdata as (arr & Harr & _). simpl.
        by rewrite Harr, (lookup_weaken _ _ _ _ Harr Xy).
      + destruct Hfr as [(b & off & k & -> & Hb0) _].
        { destruct data; [simpl in Hpos; lia|done]. }
        exists b, off, k. split; [done|]. by eapply lookup_weaken_None.
    - eexists _, h0. split; [reflexivity|]. split_and!; try done.
      exists (Slice ap 0 0). split_and!; [done| |by exists ap, 0, 0].
      destruct data as [|b off k]; [done|]. simpl in Hzero.
      assert (k = 0) as -> by lia. done. }
  destruct Hpay as (d1 & h1 & E1 & (p & -> & Hread & Hfresh) & B1 & Y1 & T1).
  rewrite (bind_Done _ _ _ _ _ E1). cbn [Amount GasTipCap GasFeeCap ChainID AccessList].
  (* amount, tip cap, fee cap *)
  destruct (set_if_given h h1 la amount) as (h2 & E2 & B2 & Y2 & T2);
    [by rewrite B1 | done | by rewrite B1 |].
  rewrite (bind_Done _ _ _ _ _ E2).
  destruct (set_if_given h h2 lt gasTipCap) as (h3 & E3 & B3 & Y3 & T3);
    [rewrite B2, B1; repeat (apply insert_subseteq_r; [done|]); done | done
    |rewrite B2, B1, lookup_insert_ne by congruence; done |].
  rewrite (bind_Done _ _ _ _ _ E3).
  destruct (set_if_given h h3 lf gasFeeCap) as (h4 & E4 & B4 & Y4 & T4);
    [rewrite B3, B2, B1; repeat (apply insert_subseteq_r; [done|]); done | done
    |rewrite B3, B2, B1, !lookup_insert_ne by congruence; done |].
  rewrite (bind_Done _ _ _ _ _ E4).
  (* the access list, then the chain id *)
  destruct (copy_into_empty h4 aa accessList) as (h5 & E5 & B5 & Y5 & T5).
  rewrite (bind_Done _ _ _ _ _ E5).
  destruct (set_if_given h h5 lc chainID) as (h6 & E6 & B6 & Y6 & T6);
    [rewrite B5, B4, B3, B2, B1; repeat (apply insert_subseteq_r; [done|]); done | done
    |rewrite B5, B4, B3, B2, B1, !lookup_insert_ne by congruence; done |].
  rewrite (bind_Done _ _ _ _ _ E6).
  eexists _, h6. split; [reflexivity|].
  assert (Hfinal : bigInts h6
            = <[lc := default 0%Z (big_value h chainID)]>
                (<[lf := default 0%Z (big_value h gasFeeCap)]>
                   (<[lt := default 0%Z (big_value h gasTipCap)]>
                      (<[la := default 0%Z (big_value h amount)]> (bigInts h0)))))
    by (by rewrite B6, B5, B4, B3, B2, B1).
  cbn [AccountNonce Recipient GasLimit Amount GasTipCap GasFeeCap ChainID SigV SigR SigS
       Payload big_value big_fields].
  unfold payload_of. cbn [Payload].
  rewrite Hfinal, Y6, Y5, Y4, Y3, Y2, Hread.
  split_and!; try done.
  - split_and!.
    + rewrite Hfinal. repeat (apply insert_subseteq_r; [done|]). done.
    + rewrite Y6, Y5, Y4, Y3, Y2. by etrans.
    + rewrite T6, T5, T4, T3, T2, T1. done.
  - rewrite !lookup_insert_ne by congruence. apply lookup_insert_eq.
  - rewrite !lookup_insert_ne by congruence. apply lookup_insert_eq.
  - rewrite !lookup_insert_ne by congruence. apply lookup_insert_eq.
  - apply lookup_insert_eq.
  - rewrite !lookup_insert_ne by congruence. done.
  - rewrite !lookup_insert_ne by congruence. done.
  - rewrite !lookup_insert_ne by congruence. done.
  - repeat (constructor; [eexists; eauto|]). constructor.
Qed.

(** X2: the constructor from explicit values returns whenever its
    [big.Int] arguments are nil or cells of the store and [data] lies
    within an array.  The scalar fields are the arguments; amount, tip
    cap, fee cap and chain id hold the value of the argument (zero for a
    nil argument) in cells of their own, different from each other and
    from every cell the caller has; the payload reads as [data] did, in an
    array of its own; V, R and S are zero; nothing in the caller's store is
    written. *)
Theorem WithValues_copies_by_value
    nonce to amount gasLimit gasTipCap gasFeeCap data accessList chainID h :
  big_wf h amount → big_wf h gasTipCap → big_wf h gasFeeCap → big_wf h chainID →
  slice_ok (byteArrays h) data →
  ∃ d h',
    newTxInternalDataDynamicFeeWithValues nonce to amount gasLimit gasTipCap
      gasFeeCap data accessList chainID h = Done (d, h')
    ∧ heap_extends h h'
    ∧ AccountNonce d = nonce ∧ Recipient d = to ∧ GasLimit d = gasLimit
    ∧ big_value h' (Amount d) = Some (default 0%Z (big_value h amount))
    ∧ big_value h' (GasTipCap d) = Some (default 0%Z (big_value h gasTipCap))
    ∧ big_value h' (GasFeeCap d) = Some (default 0%Z (big_value h gasFeeCap))
    ∧ big_value h' (ChainID d) = Some (default 0%Z (big_value h chainID))
    ∧ big_value h' (SigV d) = Some 0%Z ∧ big_value h' (SigR d) = Some 0%Z
    ∧ big_value h' (SigS d) = Some 0%Z
    ∧ payload_of h' d = slice_read (byteArrays h) data
    ∧ NoDup (big_fields d) ∧ Forall (big_fresh h) (big_fields d)
    ∧ slice_fresh (byteArrays h) (Payload d).
Proof.
  intros Wa Wt Wf Wc Hdata.
  destruct (WithValues_builds nonce to amount gasLimit gasTipCap gasFeeCap data accessList
              chainID h Wa Wt Wf Wc Hdata)
    as (d & h' & ?&?&?&?&?&?&?&?&?&?&?&?&?&?&?&?&?&?).
  exists d, h'. by split_and!.
Qed.

Lemma WithValues_copies_by_value_witness :
  ∃ d h',
    newTxInternalDataDynamicFeeWithValues 3 (Some 9%Z) sample_bigInt 21000 None
      sample_bigInt sample_bytes sample_AccessList None sample_heap = Done (d, h')
    ∧ heap_extends sample_heap h'
    ∧ AccountNonce d = 3%Z ∧ Recipient d = Some 9%Z ∧ GasLimit d = 21000%Z
    ∧ big_value h' (Amount d) = Some (default 0%Z (big_value sample_heap sample_bigInt))
    ∧ big_value h' (GasTipCap d) = Some (default 0%Z (big_value sample_heap None))
    ∧ big_value h' (GasFeeCap d) = Some (default 0%Z (big_value sample_heap sample_bigInt))
    ∧ big_value h' (ChainID d) = Some (default 0%Z (big_value sample_heap None))
    ∧ big_value h' (SigV d) = Some 0%Z ∧ big_value h' (SigR d) = Some 0%Z
    ∧ big_value h' (SigS d) = Some 0%Z
    ∧ payload_of h' d = slice_read (byteArrays sample_heap) sample_bytes
    ∧ NoDup (big_fields d) ∧ Forall (big_fresh sample_heap) (big_fields d)
    ∧ slice_fresh (byteArrays sample_heap) (Payload d).
Proof.
  apply WithValues_copies_by_value.
  - right. apply sample_bigInt_allocated.
  - by left.
  - right. apply sample_bigInt_allocated.
  - by left.
  - exists [Byte.x01; Byte.x02]. split; [vm_compute; reflexivity | simpl; lia].
Defined.

(* ===================================================================== *)
(** ** Construction from a keyed map: success                            *)
(* ===================================================================== *)

(** Looks a required key up in a map built by [complete_values] after
    deletions of other keys. *)
Ltac solve_lookup_complete m :=
  subst m; repeat match goal with v := _ |- _ => subst v end;
  unfold complete_values;
  rewrite ?lookup_delete_ne by done;
  repeat (rewrite lookup_insert_ne by done);
  apply lookup_insert_eq.

Lemma complete_values_emptied nonce to amount data gasLimit fee tip al chainID :
  delete TxValueKeyChainID (delete TxValueKeyAccessList (delete TxValueKeyGasTipCap
    (delete TxValueKeyGasFeeCap (delete TxValueKeyGasLimit (delete TxValueKeyData
      (delete TxValueKeyAmount (delete TxValueKeyTo (delete TxValueKeyNonce
        (complete_values nonce to amount data gasLimit fee tip al chainID)))))))))
  = ∅.
Proof.
  apply map_eq. intros i. unfold complete_values. rewrite lookup_empty.
  rewrite !lookup_delete. repeat (case_decide; [done|]).
  rewrite !lookup_insert. repeat (case_decide; [congruence|]). done.
Qed.

Lemma big_value_sub h h' p v :
  bigInts h ⊆ bigInts h' → big_value h p = Some v → big_value h' p = Some v.
Proof.
  intros Hsub Hv. destruct p as [l|]; [|done]. by eapply lookup_weaken.
Qed.

Lemma slice_ok_sub {A} (m m' : gmap loc (list A)) s :
  m ⊆ m' → slice_ok m s → slice_ok m' s ∧ slice_read m' s = slice_read m s.
Proof.
  intros Hsub Hok. destruct s as [|a off n]; [done|].
  destruct Hok as (arr & Harr & Hlen).
  pose proof (lookup_weaken _ _ _ _ Harr Hsub) as Harr'. split.
  - by exists arr.
  - simpl. by rewrite Harr, Harr'.
Qed.

(** X3: a map that holds exactly the nine required keys, with values of
    the asserted types that exist in the store, builds an instance: the
    call returns it with no error, leaves the map empty and logs nothing.
    The numeric fields hold the values given, in cells of their own; the
    payload and the access list read as the slices given did, element for
    element, in arrays of their own; the access list is not nil; V, R and S
    are zero; nothing in the caller's store is written. *)
Theorem WithMap_complete_builds
    nonce to amount data gasLimit gasFeeCap gasTipCap accessList chainID h va vf vt vc :
  big_value h amount = Some va → big_value h gasFeeCap = Some vf →
  big_value h gasTipCap = Some vt → big_value h chainID = Some vc →
  slice_ok (byteArrays h) data → slice_ok (tupleArrays h) accessList →
  ∃ d h',
    newTxInternalDataDynamicFeeWithMap
      (complete_values nonce to amount data gasLimit gasFeeCap gasTipCap accessList chainID)
      h = Done (mkMapOutcome (inl d) ∅ [], h')
    ∧ heap_extends h h'
    ∧ AccountNonce d = nonce ∧ Recipient d = Some to ∧ GasLimit d = gasLimit
    ∧ big_value h' (Amount d) = Some va
    ∧ big_value h' (GasFeeCap d) = Some vf
    ∧ big_value h' (GasTipCap d) = Some vt
    ∧ big_value h' (ChainID d) = Some vc
    ∧ big_value h' (SigV d) = Some 0%Z ∧ big_value h' (SigR d) = Some 0%Z
    ∧ big_value h' (SigS d) = Some 0%Z
    ∧ payload_of h' d = slice_read (byteArrays h) data
    ∧ slice_is_nil (Payload d) = slice_is_nil data
    ∧ access_list_of h' d = slice_read (tupleArrays h) accessList
    ∧ slice_fresh (tupleArrays h) (AccessList d)
    ∧ NoDup (big_fields d) ∧ Forall (big_fresh h) (big_fields d).
Proof.
  intros Va Vf Vt Vc Hdata Hal.
  destruct (newTxInternalDataDynamicFee_Done h) as (d0 & h0 & Hd0).
  destruct (newTxInternalDataDynamicFee_chain h d0 h0 Hd0)
    as ((lc & lt & lf & la & lv & lr & ls & Hf & Hchain) & Hn0 & Hg0 & Hr0 & Hh0
        & (ap & Hp0 & Hpn & Hps) & (aa & Ha0 & _ & _)).
  destruct (alloc_chain_fields _ _ _ _ Hf Hchain) as (Hext & Hnd & Hall).
  destruct d0 as [c0 n0 t0 f0 g0 r0 a0 p0 al0 v0 rr0 s0 hh0].
  cbn [big_fields fmap list_fmap ChainID GasTipCap GasFeeCap Amount SigV SigR SigS
       Payload AccessList] in *.
  injection Hf as -> -> -> -> -> -> ->. subst p0 al0.
  pose proof (NoDup_seven _ _ _ _ _ _ _ Hnd) as Hne.
  cbn [ChainID GasTipCap GasFeeCap Amount SigV SigR SigS] in Hne.
  repeat match goal with H : _ ∧ _ |- _ => destruct H end.
  apply Forall_cons_1 in Hall as [[(? & [= <-] & Nc) Zc] Hall].
  apply Forall_cons_1 in Hall as [[(? & [= <-] & Nt) Zt] Hall].
  apply Forall_cons_1 in Hall as [[(? & [= <-] & Nf) Zf] Hall].
  apply Forall_cons_1 in Hall as [[(? & [= <-] & Na) Za] Hall].
  apply Forall_cons_1 in Hall as [[(? & [= <-] & Nv) Zv] Hall].
  apply Forall_cons_1 in Hall as [[(? & [= <-] & Nr) Zr] Hall].
  apply Forall_cons_1 in Hall as [[(? & [= <-] & Ns) Zs] _].
  cbn [big_value] in Zc, Zt, Zf, Za, Zv, Zr, Zs.
  destruct Hext as (Xb & Xy & Xt).
  pose proof (complete_values_emptied nonce to amount data gasLimit gasFeeCap gasTipCap
                accessList chainID) as Hempty.
  unfold newTxInternalDataDynamicFeeWithMap.
  rewrite (bind_Done _ _ _ _ _ Hd0). cbv zeta.
  set (m0 := complete_values nonce to amount data gasLimit gasFeeCap gasTipCap
               accessList chainID) in *.
  assert (L1 : m0 !! TxValueKeyNonce = Some (V_uint64 nonce)) by solve_lookup_complete m0.
  assert (L2 : delete TxValueKeyNonce m0 !! TxValueKeyTo = Some (V_Address to))
    by solve_lookup_complete m0.
  set (m2 := delete TxValueKeyTo (delete TxValueKeyNonce m0)) in *.
  assert (L3 : m2 !! TxValueKeyAmount = Some (V_bigInt amount)) by solve_lookup_complete m2.
  assert (L4 : delete TxValueKeyAmount m2 !! TxValueKeyData = Some (V_bytes data))
    by solve_lookup_complete m2.
  set (m4 := delete TxValueKeyData (delete TxValueKeyAmount m2)) in *.
  assert (L5 : m4 !! TxValueKeyGasLimit = Some (V_uint64 gasLimit))
    by solve_lookup_complete m4.
  assert (L6 : delete TxValueKeyGasLimit m4 !! TxValueKeyGasFeeCap
               = Some (V_bigInt gasFeeCap)) by solve_lookup_complete m4.
  set (m6 := delete TxValueKeyGasFeeCap (delete TxValueKeyGasLimit m4)) in *.
  assert (L7 : m6 !! TxValueKeyGasTipCap = Some (V_bigInt gasTipCap))
    by solve_lookup_complete m6.
  assert (L8 : delete TxValueKeyGasTipCap m6 !! TxValueKeyAccessList
               = Some (V_AccessList accessList)) by solve_lookup_complete m6.
  set (m8 := delete TxValueKeyAccessList (delete TxValueKeyGasTipCap m6)) in *.
  assert (L9 : m8 !! TxValueKeyChainID = Some (V_bigInt chainID))
    by solve_lookup_complete m8.
  rewrite L1. cbn [assert_uint64]. rewrite L2. cbn [assert_Address].
  rewrite L3. cbn [assert_bigInt].
  (* amount *)
  destruct (big_Set_writes h0 la amount va) as (h1 & E1 & B1 & Y1 & T1);
    [eauto | by eapply big_value_sub |].
  rewrite (bind_Done _ _ _ _ _ E1).
  rewrite L4. cbn [assert_bytes].
  (* payload *)
  destruct (slice_ok_sub _ _ data Xy Hdata) as [Hdata0 Hread0].
  rewrite <-Y1 in Hdata0, Hread0.
  destruct (common_CopyBytes_copies h1 data Hdata0)
    as (p & h2 & E2 & Hread & Hnil & _ & B2 & Y2 & T2).
  rewrite (bind_Done _ _ _ _ _ E2).
  rewrite L5. cbn [assert_uint64]. rewrite L6. cbn [assert_bigInt].
  (* fee cap *)
  destruct (big_Set_writes h2 lf gasFeeCap vf) as (h3 & E3 & B3 & Y3 & T3).
  { rewrite B2, B1, lookup_insert_ne by congruence. eauto. }
  { eapply big_value_sub; [|exact Vf]. rewrite B2, B1.
    repeat (apply insert_subseteq_r; [done|]). done. }
  rewrite (bind_Done _ _ _ _ _ E3).
  rewrite L7. cbn [assert_bigInt].
  (* tip cap *)
  destruct (big_Set_writes h3 lt gasTipCap vt) as (h4 & E4 & B4 & Y4 & T4).
  { rewrite B3, B2, B1, !lookup_insert_ne by congruence. eauto. }
  { eapply big_value_sub; [|exact Vt]. rewrite B3, B2, B1.
    repeat (apply insert_subseteq_r; [done|]). done. }
  rewrite (bind_Done _ _ _ _ _ E4).
  rewrite L8. cbn [assert_AccessList].
  (* access list *)
  destruct (slice_ok_sub _ _ accessList Xt Hal) as [Hal0 Hreadal0].
  rewrite <-T1, <-T2, <-T3, <-T4 in Hal0, Hreadal0.
  destruct (make_and_copy_AccessList_copies h4 accessList Hal0)
    as (s & h5 & E5 & Hreadal & Hfr & Halloc & B5 & Y5 & T5).
  rewrite (bind_Done _ _ _ _ _ E5).
  rewrite L9. cbn [assert_bigInt].
  (* chain id *)
  destruct (big_Set_writes h5 lc chainID vc) as (h6 & E6 & B6 & Y6 & T6).
  { rewrite B5, B4, B3, B2, B1, !lookup_insert_ne by congruence. eauto. }
  { eapply big_value_sub; [|exact Vc]. rewrite B5, B4, B3, B2, B1.
    repeat (apply insert_subseteq_r; [done|]). done. }
  rewrite (bind_Done _ _ _ _ _ E6).
  subst m8 m6 m4 m2. rewrite Hempty.
  rewrite decide_False by (rewrite map_size_empty; lia).
  eexists _, h6. split; [reflexivity|].
  assert (Hfinal : bigInts h6
            = <[lc := vc]> (<[lt := vt]> (<[lf := vf]> (<[la := va]> (bigInts h0)))))
    by (by rewrite B6, B5, B4, B3, B2, B1).
  cbn [AccountNonce Recipient GasLimit Amount GasTipCap GasFeeCap ChainID SigV SigR SigS
       Payload AccessList big_value big_fields set_AccessList set_GasLimit set_Payload
       set_Recipient set_AccountNonce].
  unfold payload_of, access_list_of.
  cbn [Payload AccessList set_AccessList set_GasLimit set_Payload set_Recipient
       set_AccountNonce].
  rewrite Hfinal, Y6, Y5, Y4, Y3, Hread, Hread0, T6, Hreadal, Hreadal0.
  split_and!; try done.
  - split_and!.
    + rewrite Hfinal. repeat (apply insert_subseteq_r; [done|]). done.
    + rewrite Y6, Y5, Y4, Y3. etrans; [exact Xy|]. by rewrite <-Y1.
    + rewrite T6. etrans; [exact Xt|]. by rewrite <-T1, <-T2, <-T3, <-T4.
  - rewrite !lookup_insert_ne by congruence. apply lookup_insert_eq.
  - rewrite !lookup_insert_ne by congruence. apply lookup_insert_eq.
  - rewrite !lookup_insert_ne by congruence. apply lookup_insert_eq.
  - apply lookup_insert_eq.
  - rewrite !lookup_insert_ne by congruence. done.
  - rewrite !lookup_insert_ne by congruence. done.
  - rewrite !lookup_insert_ne by congruence. done.
  - destruct Hfr as (b & off & k & -> & Hb0). exists b, off, k. split; [done|].
    eapply lookup_weaken_None; [exact Hb0|]. by rewrite T4, T3, T2, T1.
  - repeat (constructor; [eexists; eauto|]). constructor.
Qed.

Lemma WithMap_complete_builds_witness :
  ∃ d h',
    newTxInternalDataDynamicFeeWithMap sample_values sample_heap
      = Done (mkMapOutcome (inl d) ∅ [], h')
    ∧ heap_extends sample_heap h'
    ∧ AccountNonce d = 3%Z ∧ Recipient d = Some 9%Z ∧ GasLimit d = 21000%Z
    ∧ big_value h' (Amount d) = Some 5%Z
    ∧ big_value h' (GasFeeCap d) = Some 5%Z
    ∧ big_value h' (GasTipCap d) = Some 5%Z
    ∧ big_value h' (ChainID d) = Some 5%Z
    ∧ big_value h' (SigV d) = Some 0%Z ∧ big_value h' (SigR d) = Some 0%Z
    ∧ big_value h' (SigS d) = Some 0%Z
    ∧ payload_of h' d = slice_read (byteArrays sample_heap) sample_bytes
    ∧ slice_is_nil (Payload d) = slice_is_nil sample_bytes
    ∧ access_list_of h' d = slice_read (tupleArrays sample_heap) sample_AccessList
    ∧ slice_fresh (tupleArrays sample_heap) (AccessList d)
    ∧ NoDup (big_fields d) ∧ Forall (big_fresh sample_heap) (big_fields d).
Proof.
  apply WithMap_complete_builds.
  - vm_compute. reflexivity.
  - vm_compute. reflexivity.
  - vm_compute. reflexivity.
  - vm_compute. reflexivity.
  - exists [Byte.x01; Byte.x02]. split; [vm_compute; reflexivity | simpl; lia].
  - exists [mkAccessTuple 7%Z (Some [1%Z])]. split; [vm_compute; reflexivity | simpl; lia].
Defined.

(* ===================================================================== *)
(** ** Construction from a keyed map: the first mismatch                 *)
(* ===================================================================== *)

(** Proves that a slot holds a value of the asserted type from the
    equation recorded when the constructor read it. *)
Ltac slot_holds :=
  cbn [slot_ok]; apply bool_decide_eq_true_2;
  match goal with E : ?x = Some _ |- is_Some ?x => rewrite E; eauto end.

Ltac slots_below :=
  let i := fresh "i" in let Hi := fresh "Hi" in
  intros i Hi; repeat (destruct i as [|i]; [slot_holds|]); lia.

(** The branch where the key at position [n] fails its assertion. *)
Ltac mismatch_at H E n :=
  unfold fail_with in H; apply ret_Done_inv in H; injection H as -> ->;
  exists n; split; [lia|]; split; [slots_below|]; split; [reflexivity|];
  cbn [mo_result mo_log]; split; [reflexivity|]; split;
  [intros _; split; [|reflexivity]; cbn [slot_ok]; apply bool_decide_eq_false_2;
   rewrite E; by intros [??]
  |intros; lia].

(** Reads the next required key: either it fails at position [n], or the
    equation of its value is recorded. *)
Ltac next_key H n :=
  cbv zeta in H;
  lazymatch type of H with
  | match ?x with Some _ => _ | None => _ end _ = Done _ =>
      let E := fresh "E" in
      destruct x eqn:E; rewrite ?lookup_delete_ne in E by done;
      [| mismatch_at H E n]
  end.

(** X4: whenever the constructor from a map returns, it has consumed the
    required keys in order up to the first one that is missing or holds a
    value of another type.  The keys before it were removed from the
    caller's map, the error returned is the one reserved for that key and
    nothing is logged.  When all nine keys pass, the map is left with the
    other keys only: empty on success, and not empty when the error is
    [errUndefinedKeyRemains]. *)
Theorem WithMap_first_mismatch (values : gmap TxValueKeyType Value) h out h' :
  newTxInternalDataDynamicFeeWithMap values h = Done (out, h') →
  ∃ n, n ≤ 9
       ∧ (∀ i, i < n → slot_ok i values = true)
       ∧ mo_values out = drain n values
       ∧ match mo_result out with
         | inr e => e = key_error n
                    ∧ (n < 9 → slot_ok n values = false ∧ mo_log out = [])
                    ∧ (n = 9 → mo_values out ≠ ∅)
         | inl _ => n = 9 ∧ mo_values out = ∅ ∧ mo_log out = []
         end.
Proof.
  intros H. unfold newTxInternalDataDynamicFeeWithMap in H. inv_bind H.
  next_key H 0. next_key H 1. next_key H 2. cbv zeta in H. inv_bind H.
  next_key H 3. cbv zeta in H. inv_bind H.
  next_key H 4. next_key H 5. cbv zeta in H. inv_bind H.
  next_key H 6. cbv zeta in H. inv_bind H.
  next_key H 7. cbv zeta in H. inv_bind H.
  next_key H 8. cbv zeta in H. inv_bind H.
  cbv zeta in H. case_decide as Hsize; apply ret_Done_inv in H; injection H as -> ->.
  - exists 9. split; [lia|]. split; [slots_below|]. split; [reflexivity|].
    cbn [mo_result mo_values]. split; [reflexivity|]. split; [intros; lia|].
    intros _ Hempty. rewrite Hempty, map_size_empty in Hsize. done.
  - exists 9. split; [lia|]. split; [slots_below|]. split; [reflexivity|].
    cbn [mo_result mo_values mo_log]. split_and!; try done.
    apply map_size_empty_iff. lia.
Qed.

Lemma WithMap_first_mismatch_witness :
  match newTxInternalDataDynamicFeeWithMap sample_values_no_recipient sample_heap with
  | Done (out, _) =>
      ∃ n, n ≤ 9
           ∧ (∀ i, i < n → slot_ok i sample_values_no_recipient = true)
           ∧ mo_values out = drain n sample_values_no_recipient
           ∧ match mo_result out with
             | inr e => e = key_error n
                        ∧ (n < 9 → slot_ok n sample_values_no_recipient = false
                                   ∧ mo_log out = [])
                        ∧ (n = 9 → mo_values out ≠ ∅)
             | inl _ => n = 9 ∧ mo_values out = ∅ ∧ mo_log out = []
             end
  | Panic _ => False
  end.
Proof.
  destruct (newTxInternalDataDynamicFeeWithMap sample_values_no_recipient sample_heap)
    as [[out h']|why] eqn:E.
  - exact (WithMap_first_mismatch _ _ _ _ E).
  - vm_compute in E. discriminate E.
Defined.

(** The run behind the witness: the recipient is missing, so the call
    stops at position 1 with the recipient error, the nonce key already
    removed from the map. *)
Example WithMap_missing_recipient :
  match newTxInternalDataDynamicFeeWithMap sample_values_no_recipient sample_heap with
  | Done (out, _) =>
      mo_result out = inr errValueKeyToMustAddress
      ∧ mo_values out = delete TxValueKeyNonce sample_values_no_recipient
      ∧ mo_values out !! TxValueKeyNonce = None
  | Panic _ => False
  end.
Proof. vm_compute. split_and!; reflexivity. Qed.

(* ===================================================================== *)
(** ** Accessors and signature attachment                                *)
(* ===================================================================== *)

(** X5: [GetAmount] hands out a copy.  On an instance whose amount cell
    exists it returns a pointer to a cell the store did not have, holding
    the amount; the instance's own cell and the rest of the store stay as
    they were, so a later write through the returned pointer cannot reach
    the instance.  On an instance without amount cell it panics. *)
Theorem GetAmount_returns_copy t h :
  (big_allocated h (Amount t) →
   ∃ l h', GetAmount t h = Done (Some l, h')
           ∧ bigInts h !! l = None
           ∧ big_value h' (Some l) = big_value h (Amount t)
           ∧ heap_extends h h'
           ∧ ∀ v, big_value (with_bigInts (insert l v) h') (Amount t)
                  = big_value h (Amount t))
  ∧ (Amount t = None → GetAmount t h = Panic nil_dereference).
Proof.
  split.
  - intros (la & Ea & [va Hva]). unfold GetAmount.
    destruct (big_new_spec h) as (l & Enew & Hl).
    rewrite (bind_Done _ _ _ _ _ Enew).
    assert (Hne : l ≠ la) by (intros ->; congruence).
    destruct (big_Set_writes (with_bigInts (insert l 0%Z) h) l (Amount t) va)
      as (h' & E & Hb & Hy & Ht).
    { simpl. rewrite lookup_insert_eq. eauto. }
    { rewrite Ea. simpl. by rewrite lookup_insert_ne. }
    simpl in Hb, Hy, Ht. rewrite insert_insert_eq in Hb.
    exists l, h'. rewrite E, Ea. simpl. rewrite Hb, Hva.
    split_and!; try done.
    + apply lookup_insert_eq.
    + split_and!; [|by rewrite Hy|by rewrite Ht]. rewrite Hb. by apply insert_subseteq.
    + intros v. rewrite insert_insert_eq. by rewrite lookup_insert_ne.
  - intros Ha. unfold GetAmount.
    destruct (big_new_spec h) as (l & Enew & Hl).
    rewrite (bind_Done _ _ _ _ _ Enew), Ha.
    unfold big_Set. rewrite decide_False by done. reflexivity.
Qed.

Lemma GetAmount_returns_copy_witness :
  (∃ l h', GetAmount sample_d sample_pair_heap = Done (Some l, h')
           ∧ bigInts sample_pair_heap !! l = None
           ∧ big_value h' (Some l) = big_value sample_pair_heap (Amount sample_d)
           ∧ heap_extends sample_pair_heap h'
           ∧ ∀ v, big_value (with_bigInts (insert l v) h') (Amount sample_d)
                  = big_value sample_pair_heap (Amount sample_d))
  ∧ GetAmount newEmptyTxInternalDataDynamicFee empty_heap = Panic nil_dereference.
Proof.
  split.
  - apply (proj1 (GetAmount_returns_copy sample_d sample_pair_heap)).
    exists 5%positive. split; [reflexivity|].
    apply (bool_decide_unpack _). vm_compute. exact I.
  - apply (proj2 (GetAmount_returns_copy newEmptyTxInternalDataDynamicFee empty_heap)).
    reflexivity.
Defined.

(** X6: attaching and reading back a signature.  [SetSignature] with
    exactly one triple stores its three pointers and changes no other
    field, and [RawSignatureValues] then returns that triple;
    [SetSignature] of what [RawSignatureValues] returns changes nothing;
    with no triple, or more than one, [SetSignature] does not return. *)
Theorem SetSignature_single t h :
  (∀ sig,
     SetSignature [Some sig] t h
     = Done (mkTx (ChainID t) (AccountNonce t) (GasTipCap t) (GasFeeCap t) (GasLimit t)
               (Recipient t) (Amount t) (Payload t) (AccessList t)
               (ts_V sig) (ts_R sig) (ts_S sig) (Hash t), h)
     ∧ RawSignatureValues
         (mkTx (ChainID t) (AccountNonce t) (GasTipCap t) (GasFeeCap t) (GasLimit t)
            (Recipient t) (Amount t) (Payload t) (AccessList t)
            (ts_V sig) (ts_R sig) (ts_S sig) (Hash t)) = [Some sig])
  ∧ SetSignature (RawSignatureValues t) t h = Done (t, h)
  ∧ (∀ signatures, length signatures ≠ 1 →
       SetSignature signatures t h
       = Panic "TxTypeDynamicFee can receive only single signature!").
Proof.
  split_and!.
  - intros [v r s]. split; [|reflexivity].
    unfold SetSignature. rewrite decide_False by (simpl; lia). reflexivity.
  - unfold SetSignature, RawSignatureValues. rewrite decide_False by (simpl; lia).
    by destruct t.
  - intros signatures Hlen. unfold SetSignature. by rewrite decide_True.
Qed.

Lemma SetSignature_single_witness :
  SetSignature [] sample_d sample_pair_heap
  = Panic "TxTypeDynamicFee can receive only single signature!"
  ∧ SetSignature (RawSignatureValues sample_d ++ RawSignatureValues sample_e) sample_d
      sample_pair_heap
    = Panic "TxTypeDynamicFee can receive only single signature!".
Proof.
  split.
  - apply (proj2 (proj2 (SetSignature_single sample_d sample_pair_heap))). simpl. lia.
  - apply (proj2 (proj2 (SetSignature_single sample_d sample_pair_heap))). simpl. lia.
Defined.

(* ===================================================================== *)
(** ** Equality as a relation                                            *)
(* ===================================================================== *)

Lemma agree_without_payload_refl h t : agree_without_payload h t t.
Proof. unfold agree_without_payload. by split_and!. Qed.

Lemma agree_without_payload_sym h t ta :
  agree_without_payload h t ta → agree_without_payload h ta t.
Proof. unfold agree_without_payload. intros (?&?&?&?&?&?&?&[??]&?&?&?). by split_and!. Qed.

Lemma agree_without_payload_trans h t1 t2 t3 :
  agree_without_payload h t1 t2 → agree_without_payload h t2 t3 →
  agree_without_payload h t1 t3.
Proof.
  unfold agree_without_payload.
  intros (?&?&?&?&?&?&?&[??]&?&?&?) (?&?&?&?&?&?&?&[??]&?&?&?).
  split_and!; etrans; eauto.
Qed.

(** X7: on instances whose cells exist, [Equal] is an equivalence: an
    instance equals itself, the answer does not depend on which of the
    two is the receiver, and equality carries over a chain of two.  A
    value of another transaction type never equals the instance. *)
Theorem Equal_equivalence h t1 t2 t3 :
  tx_allocated h t1 → tx_allocated h t2 → tx_allocated h t3 →
  Equal t1 (TxDynamicFee t1) h = Done (true, h)
  ∧ Equal t1 (TxDynamicFee t2) h = Equal t2 (TxDynamicFee t1) h
  ∧ (Equal t1 (TxDynamicFee t2) h = Done (true, h) →
     Equal t2 (TxDynamicFee t3) h = Done (true, h) →
     Equal t1 (TxDynamicFee t3) h = Done (true, h))
  ∧ (∀ typ, Equal t1 (TxOtherType typ) h = Done (false, h)).
Proof.
  intros A1 A2 A3.
  destruct (Equal_decides h t1 t1 A1 A1) as (b11 & E11 & D11).
  destruct (Equal_decides h t1 t2 A1 A2) as (b12 & E12 & D12).
  destruct (Equal_decides h t2 t1 A2 A1) as (b21 & E21 & D21).
  destruct (Equal_decides h t2 t3 A2 A3) as (b23 & E23 & D23).
  destruct (Equal_decides h t1 t3 A1 A3) as (b13 & E13 & D13).
  split_and!.
  - rewrite E11. do 2 f_equal. apply D11, agree_without_payload_refl.
  - rewrite E12, E21. do 2 f_equal.
    destruct b12, b21; try done.
    + symmetry. apply D21, agree_without_payload_sym, D12. done.
    + apply D12, agree_without_payload_sym, D21. done.
  - rewrite E12, E23, E13. intros [= ->] [= ->]. do 2 f_equal.
    apply D13. eapply agree_without_payload_trans; [by apply D12|by apply D23].
  - done.
Qed.

Ltac sample_allocated :=
  repeat split;
  (eexists; split; [reflexivity|]; apply (bool_decide_unpack _); vm_compute; exact I).

Lemma sample_d_allocated : tx_allocated sample_pair_heap sample_d.
Proof. sample_allocated. Qed.

Lemma sample_e_allocated : tx_allocated sample_pair_heap sample_e.
Proof. sample_allocated. Qed.

Lemma Equal_equivalence_witness :
  Equal sample_d (TxDynamicFee sample_e) sample_pair_heap
  = Equal sample_e (TxDynamicFee sample_d) sample_pair_heap
  ∧ Equal sample_d (TxDynamicFee sample_d) sample_pair_heap = Done (true, sample_pair_heap).
Proof.
  pose proof (Equal_equivalence sample_pair_heap sample_d sample_e sample_d
                sample_d_allocated sample_e_allocated sample_d_allocated)
    as (_ & Hsym & Htrans & _).
  split; [exact Hsym|].
  apply Htrans; vm_compute; reflexivity.
Defined.

Lemma slice_read_len0_any {A} (m : gmap loc (list A)) s :
  slice_len s = 0 → slice_read m s = [].
Proof. destruct s as [|a off n]; [done|]. simpl. by intros ->. Qed.

(** X17: [Equal] on two instances built one after the other by the
    constructor from explicit values.  The comparison returns, and it
    answers true exactly when the two calls were given the same nonce,
    recipient and gas limit and the same amount, tip cap, fee cap and
    chain id by value, a nil argument counting as zero.  The data and the
    access list passed play no part in the answer. *)
Theorem WithValues_Equal
    nonce to amount gasLimit gasTipCap gasFeeCap data accessList chainID
    nonce' to' amount' gasLimit' gasTipCap' gasFeeCap' data' accessList' chainID'
    h d h1 d' h2 :
  big_wf h amount → big_wf h gasTipCap → big_wf h gasFeeCap → big_wf h chainID →
  slice_ok (byteArrays h) data →
  newTxInternalDataDynamicFeeWithValues nonce to amount gasLimit gasTipCap
    gasFeeCap data accessList chainID h = Done (d, h1) →
  big_wf h1 amount' → big_wf h1 gasTipCap' → big_wf h1 gasFeeCap' → big_wf h1 chainID' →
  slice_ok (byteArrays h1) data' →
  newTxInternalDataDynamicFeeWithValues nonce' to' amount' gasLimit' gasTipCap'
    gasFeeCap' data' accessList' chainID' h1 = Done (d', h2) →
  ∃ b, Equal d (TxDynamicFee d') h2 = Done (b, h2)
       ∧ (b = true ↔
          nonce = nonce' ∧ to = to' ∧ gasLimit = gasLimit'
          ∧ default 0%Z (big_value h amount) = default 0%Z (big_value h1 amount')
          ∧ default 0%Z (big_value h gasTipCap) = default 0%Z (big_value h1 gasTipCap')
          ∧ default 0%Z (big_value h gasFeeCap) = default 0%Z (big_value h1 gasFeeCap')
          ∧ default 0%Z (big_value h chainID) = default 0%Z (big_value h1 chainID')).
Proof.
  intros Wa Wt Wf Wc Hdata H1 Wa' Wt' Wf' Wc' Hdata' H2.
  destruct (WithValues_builds nonce to amount gasLimit gasTipCap gasFeeCap data accessList
              chainID h Wa Wt Wf Wc Hdata)
    as (x & y & E & _ & Hn & Hto & Hg & Va & Vt & Vf & Vc & Vv & Vr & Vs & _ & _ & _ & _
        & Hnil & Hlen).
  rewrite E in H1. injection H1 as -> ->.
  destruct (WithValues_builds nonce' to' amount' gasLimit' gasTipCap' gasFeeCap' data'
              accessList' chainID' h1 Wa' Wt' Wf' Wc' Hdata')
    as (x & y & E' & Hext & Hn' & Hto' & Hg' & Va' & Vt' & Vf' & Vc' & Vv' & Vr' & Vs'
        & _ & _ & _ & _ & Hnil' & Hlen').
  rewrite E' in H2. injection H2 as -> ->.
  apply (big_value_extends _ _ _ _ Hext) in Va, Vt, Vf, Vc, Vv, Vr, Vs.
  destruct (Equal_decides h2 d d') as (b & Eb & Hb).
  { unfold tx_allocated. split_and!; by eapply big_value_allocated. }
  { unfold tx_allocated. split_and!; by eapply big_value_allocated. }
  exists b. split; [done|]. rewrite Hb. unfold agree_without_payload, access_list_of.
  rewrite Va, Vt, Vf, Vc, Vv, Vr, Vs, Va', Vt', Vf', Vc', Vv', Vr', Vs'.
  rewrite Hn, Hto, Hg, Hn', Hto', Hg', Hnil, Hnil'.
  rewrite !slice_read_len0_any by done.
  split.
  - intros (?&?&?&?&?&?&?&_&_). simplify_eq. by split_and!.
  - intros (?&?&?&?&?&?&?). split_and!; congruence.
Qed.

Lemma WithValues_Equal_witness :
  match newTxInternalDataDynamicFeeWithValues 3 (Some 9%Z) sample_bigInt 21000
          sample_bigInt sample_bigInt sample_bytes sample_AccessList sample_bigInt
          sample_heap
  with
  | Done (d, h1) =>
      match newTxInternalDataDynamicFeeWithValues 3 (Some 9%Z) None 21000
              None None SliceNil SliceNil None h1
      with
      | Done (d', h2) =>
          ∃ b, Equal d (TxDynamicFee d') h2 = Done (b, h2)
               ∧ (b = true ↔
                  3%Z = 3%Z ∧ Some 9%Z = Some 9%Z ∧ 21000%Z = 21000%Z
                  ∧ default 0%Z (big_value sample_heap sample_bigInt)
                    = default 0%Z (big_value h1 None)
                  ∧ default 0%Z (big_value sample_heap sample_bigInt)
                    = default 0%Z (big_value h1 None)
                  ∧ default 0%Z (big_value sample_heap sample_bigInt)
                    = default 0%Z (big_value h1 None)
                  ∧ default 0%Z (big_value sample_heap sample_bigInt)
                    = default 0%Z (big_value h1 None))
      | Panic _ => False
      end
  | Panic _ => False
  end.
Proof.
  destruct (newTxInternalDataDynamicFeeWithValues 3 (Some 9%Z) sample_bigInt 21000
              sample_bigInt sample_bigInt sample_bytes sample_AccessList sample_bigInt
              sample_heap) as [[d h1]|why] eqn:E.
  - destruct (newTxInternalDataDynamicFeeWithValues 3 (Some 9%Z) None 21000
                None None SliceNil SliceNil None h1) as [[d' h2]|why] eqn:E'.
    + refine (WithValues_Equal _ _ _ _ _ _ _ _ _ _ _ _ _ _ _ _ _ _ _ _ _ _ _
                _ _ _ _ _ E _ _ _ _ _ E').
      * right. apply sample_bigInt_allocated.
      * right. apply sample_bigInt_allocated.
      * right. apply sample_bigInt_allocated.
      * right. apply sample_bigInt_allocated.
      * exists [Byte.x01; Byte.x02]. split; [vm_compute; reflexivity | simpl; lia].
      * by left.
      * by left.
      * by left.
      * by left.
      * exact I.
    + vm_compute in E. injection E as <- <-. vm_compute in E'. discriminate E'.
  - vm_compute in E. discriminate E.
Defined.

(* ===================================================================== *)
(** ** What follows for instances built from a map                       *)
(* ===================================================================== *)

(** An instance built from a map has a recipient, the address under the
    recipient key, and a chain id cell. *)
Lemma WithMap_built_pointers (values : gmap TxValueKeyType Value) h out h' d :
  newTxInternalDataDynamicFeeWithMap values h = Done (out, h') →
  mo_result out = inl d →
  ∃ to, Recipient d = Some to ∧ values !! TxValueKeyTo = Some (V_Address to)
        ∧ ChainID d ≠ None.
Proof.
  intros H Hres. unfold newTxInternalDataDynamicFeeWithMap in H.
  inv_bind H. apply newTxInternalDataDynamicFee_inv in Hm as (_ & _ & (lc & Ec & _) & _).
  repeat map_step H Hres.
  cbv zeta in H. case_decide; inv_ret H; simpl in Hres; simplify_eq. simpl.
  apply assert_Address_Some in E0.
  rewrite lookup_delete_ne in E0 by done.
  eexists. split_and!; [done..|]. by rewrite Ec.
Qed.

(** X8: an instance built from a map is never a contract creation.
    [FillContractAddress] leaves every receipt as it is, [Execute]
    increments the sender's nonce and then calls the address found under
    the recipient key with the instance's payload, and [ChainId] returns
    the instance's own chain id without deriving one from the
    signature. *)
Theorem WithMap_built_is_call {W Other : Type}
    (values : gmap TxValueKeyType Value) h out h' d :
  newTxInternalDataDynamicFeeWithMap values h = Done (out, h') →
  mo_result out = inl d →
  ∃ to, values !! TxValueKeyTo = Some (V_Address to)
        ∧ (∀ crypto_CreateAddress from (r : Receipt Other),
             FillContractAddress crypto_CreateAddress d from r = r)
        ∧ (∀ (E : Engine W) sender currentBlockNumber gas value w,
             (run E (Execute d sender currentBlockNumber gas value) w).2
             = [InvIncNonce (ContractRef_Address sender);
                InvCall sender to (Payload d) gas value])
        ∧ (∀ deriveChainId h1,
             ChainId deriveChainId d h1 = Done (ChainID d, h1)).
Proof.
  intros H Hres.
  destruct (WithMap_built_pointers _ _ _ _ _ H Hres) as (to & Hto & Hkey & Hc).
  exists to. split_and!; [done| | |].
  - intros create from r. unfold FillContractAddress. by rewrite Hto.
  - intros E sender blk gas value w. unfold Execute. rewrite Hto. simpl.
    destruct (eng_Call _ _ _ _ _ _ _) as [[[ret1 used] err] w1]. reflexivity.
  - intros derive h1. unfold ChainId. by rewrite decide_True.
Qed.

Lemma WithMap_built_is_call_witness :
  match newTxInternalDataDynamicFeeWithMap sample_values sample_heap with
  | Done (out, _) =>
      match mo_result out with
      | inl d =>
          ∃ to, sample_values !! TxValueKeyTo = Some (V_Address to)
                ∧ (∀ crypto_CreateAddress from (r : Receipt unit),
                     FillContractAddress crypto_CreateAddress d from r = r)
                ∧ (∀ (E : Engine nat) sender currentBlockNumber gas value w,
                     (run E (Execute d sender currentBlockNumber gas value) w).2
                     = [InvIncNonce (ContractRef_Address sender);
                        InvCall sender to (Payload d) gas value])
                ∧ (∀ deriveChainId h1,
                     ChainId deriveChainId d h1 = Done (ChainID d, h1))
      | inr _ => False
      end
  | Panic _ => False
  end.
Proof.
  destruct (newTxInternalDataDynamicFeeWithMap sample_values sample_heap)
    as [[out h']|why] eqn:E.
  - destruct (mo_result out) as [d|e] eqn:R.
    + exact (WithMap_built_is_call _ _ _ _ _ E R).
    + vm_compute in E. injection E as <- _. discriminate R.
  - vm_compute in E. discriminate E.
Defined.

(* ===================================================================== *)
(** ** The values hashed for the sender                                  *)
(* ===================================================================== *)

(** X9: the values [SenderTxHash] hashes are the chain id, then the
    values [SerializeForSign] lists, then the three signature values.
    They determine every field of the instance except the cached hash:
    two instances hand the same values to the hash exactly when they
    differ at most in that field, and setting the cached hash does not
    change the sender hash. *)
Theorem SenderTxHash_fields_determine (TxTypeDynamicFee : Z)
    (prefixedRlpHash : Z → list Value → common_Hash) t :
  SenderTxHash_fields t
  = V_bigInt (ChainID t) :: SerializeForSign t
    ++ [V_bigInt (SigV t); V_bigInt (SigR t); V_bigInt (SigS t)]
  ∧ (∀ ta, SenderTxHash_fields t = SenderTxHash_fields ta ↔ SetHash (Hash ta) t = ta)
  ∧ (∀ hash, SenderTxHash TxTypeDynamicFee prefixedRlpHash (SetHash hash t)
             = SenderTxHash TxTypeDynamicFee prefixedRlpHash t).
Proof.
  split_and!; [reflexivity| |reflexivity].
  intros ta. destruct t, ta. unfold SenderTxHash_fields, SetHash. simpl. split.
  - intros [=]. by subst.
  - intros [=]. by subst.
Qed.

Lemma SenderTxHash_fields_determine_witness :
  SenderTxHash_fields sample_d = SenderTxHash_fields (SetHash (Some 7%Z) sample_d).
Proof.
  apply (proj2 (proj1 (proj2 (SenderTxHash_fields_determine 0%Z (λ _ _, 0%Z) sample_d))
                  (SetHash (Some 7%Z) sample_d))).
  reflexivity.
Defined.

(* ===================================================================== *)
(** ** The map handed to the RPC layer                                   *)
(* ===================================================================== *)

(** X10: the RPC map against the JSON struct.  Whenever [MakeRPCOutput]
    returns, its map is the members of the struct [MarshalJSON] encodes,
    under the same names, without the member [hash] and with [chainId]
    bound to what [ChainId] returned.  For an instance with a chain id
    cell the store is left as it was and [chainId] is the member of the
    struct too, so the two outputs differ in [hash] only. *)
Theorem MakeRPCOutput_members (TxTypeDynamicFee : Z) (TxTypeDynamicFee_String : string)
    (deriveChainId : option loc → M (option loc)) t h :
  (∀ m h', MakeRPCOutput TxTypeDynamicFee TxTypeDynamicFee_String deriveChainId t h
           = Done (m, h') →
     ∃ c, ChainId deriveChainId t h = Done (c, h')
          ∧ m = <["chainId" := R_Big c]>
                  (delete "hash"
                     (list_to_map
                        (json_members
                           (json_struct_of TxTypeDynamicFee TxTypeDynamicFee_String t)))))
  ∧ (ChainID t ≠ None →
     MakeRPCOutput TxTypeDynamicFee TxTypeDynamicFee_String deriveChainId t h
     = Done (delete "hash"
               (list_to_map
                  (json_members
                     (json_struct_of TxTypeDynamicFee TxTypeDynamicFee_String t))), h)).
Proof.
  assert (Hmap : ∀ c,
    (list_to_map
       [ ("typeInt", R_TxType TxTypeDynamicFee);
         ("chainId", R_Big c);
         ("type", R_string TxTypeDynamicFee_String);
         ("gas", R_Uint64 (GasLimit t));
         ("maxPriorityFeePerGas", R_Big (GasTipCap t));
         ("maxFeePerGas", R_Big (GasFeeCap t));
         ("input", R_Bytes (Payload t));
         ("nonce", R_Uint64 (AccountNonce t));
         ("to", R_AddressPtr (Recipient t));
         ("value", R_Big (Amount t));
         ("accessList", R_AccessList (AccessList t));
         ("signatures",
          R_Signatures [Some (mkTxSignatureJSON (SigV t) (SigR t) (SigS t))]) ]
     : gmap string RPCValue)
    = <["chainId" := R_Big c]>
        (delete "hash"
           (list_to_map
              (json_members
                 (json_struct_of TxTypeDynamicFee TxTypeDynamicFee_String t))))).
  { intros c. destruct t. vm_compute. reflexivity. }
  split.
  - intros m h' H. unfold MakeRPCOutput in H. inv_bind H. inv_ret H.
    eexists. split; [done|]. apply Hmap.
  - intros Hc. unfold MakeRPCOutput, ChainId. rewrite decide_True by done.
    unfold bind, ret. rewrite Hmap.
    rewrite insert_id; [done|]. destruct t. vm_compute. reflexivity.
Qed.

Lemma MakeRPCOutput_members_witness :
  MakeRPCOutput 30722 "TxTypeEthereumDynamicFee" (λ _, panic "not derived") sample_d
    sample_pair_heap
  = Done (delete "hash"
            (list_to_map
               (json_members (json_struct_of 30722 "TxTypeEthereumDynamicFee" sample_d))),
          sample_pair_heap).
Proof.
  apply (proj2 (MakeRPCOutput_members 30722 "TxTypeEthereumDynamicFee"
                  (λ _, panic "not derived") sample_d sample_pair_heap)).
  discriminate.
Defined.

(* ===================================================================== *)
(** ** Instances with nil cells                                          *)
(* ===================================================================== *)

(** X11: [Equal] and a nil chain id.  When exactly one of the two
    instances has no chain id cell the comparison panics instead of
    answering; when neither has one the comparison goes on, and two
    instances without any cell, as [newEmptyTxInternalDataDynamicFee]
    returns them, compare equal. *)
Theorem Equal_nil_ChainID t ta h :
  (ChainID t ≠ ChainID ta → ChainID t = None ∨ ChainID ta = None →
   Equal t (TxDynamicFee ta) h = Panic nil_dereference)
  ∧ Equal newEmptyTxInternalDataDynamicFee (TxDynamicFee newEmptyTxInternalDataDynamicFee) h
    = Done (true, h).
Proof.
  split.
  - intros Hne Hnil. unfold Equal, and_then at 1, bind at 1.
    unfold big_Cmp_is_0, bind at 1, big_Cmp. rewrite decide_False by done.
    unfold bind at 1, big_load at 1.
    destruct (ChainID t) as [l|]; [|done].
    destruct (bigInts h !! l); [|done].
    destruct Hnil as [Hn|Hn]; [done|]. by rewrite Hn.
  - reflexivity.
Qed.

Lemma Equal_nil_ChainID_witness :
  Equal newEmptyTxInternalDataDynamicFee (TxDynamicFee sample_d) sample_pair_heap
  = Panic nil_dereference
  ∧ Equal sample_d (TxDynamicFee newEmptyTxInternalDataDynamicFee) sample_pair_heap
    = Panic nil_dereference.
Proof.
  split.
  - apply (proj1 (Equal_nil_ChainID newEmptyTxInternalDataDynamicFee sample_d
                    sample_pair_heap)).
    + discriminate.
    + left. reflexivity.
  - apply (proj1 (Equal_nil_ChainID sample_d newEmptyTxInternalDataDynamicFee
                    sample_pair_heap)).
    + discriminate.
    + right. reflexivity.
Defined.

(** X12: an instance decoded from JSON whose first signature carries no
    [V].  [UnmarshalJSON] returns it without error, and
    [ValidateSignature] on it panics: it reads the recovery id before any
    range is checked.  If the text carried no chain id either, [ChainId]
    hands the nil [V] to the derivation. *)
Theorem decoded_without_V
    (json_Unmarshal : list Byte.byte → M (TxInternalDataDynamicFeeJSON + error))
    (deriveChainId : option loc → M (option loc)) t bytes h js h1 sig rest :
  json_Unmarshal bytes h = Done (inl js, h1) →
  js_TxSignatures js = Some sig :: rest →
  sig_V sig = None →
  ∃ t', UnmarshalJSON json_Unmarshal t bytes h = Done ((t', None), h1)
        ∧ (∀ h2, ValidateSignature t' h2 = Panic nil_dereference)
        ∧ (js_ChainID js = None → ∀ h2, ChainId deriveChainId t' h2 = deriveChainId None h2).
Proof.
  intros Hdec Hsig Hv. eexists. split; [by eapply UnmarshalJSON_first_present|].
  split.
  - intros h2. unfold ValidateSignature, bind, big_Uint64, bind, big_load. simpl.
    by rewrite Hv.
  - intros Hc h2. unfold ChainId. simpl. rewrite Hc, Hv.
    by rewrite decide_False by (intros ?; done).
Qed.

Lemma decoded_without_V_witness :
  ∃ t', UnmarshalJSON sample_json_Unmarshal_unsigned newEmptyTxInternalDataDynamicFee
          sample_json_text empty_heap
        = Done ((t', None), empty_heap)
        ∧ (∀ h2, ValidateSignature t' h2 = Panic nil_dereference)
        ∧ (∀ h2, ChainId (λ _, panic "derived") t' h2 = Panic "derived").
Proof.
  destruct (decoded_without_V sample_json_Unmarshal_unsigned (λ _, panic "derived")
              newEmptyTxInternalDataDynamicFee sample_json_text empty_heap
              sample_json_struct_unsigned empty_heap
              (mkTxSignatureJSON None None None) [] eq_refl eq_refl eq_refl)
    as (t' & E & Hv & Hc).
  exists t'. split; [exact E|]. split; [exact Hv|].
  intros h2. apply (Hc eq_refl h2).
Defined.

(* ===================================================================== *)
(** ** The genesis options                                               *)
(* ===================================================================== *)

Lemma makeGenesisAccount_foldl (addrs : list common_Address) balance
    (acc : gmap common_Address genesis.GenesisAccount) a :
  foldl (λ alloc addr, <[addr := genesis.mkGenesisAccount None balance]> alloc) acc addrs
    !! a
  = if decide (a ∈ addrs) then Some (genesis.mkGenesisAccount None balance) else acc !! a.
Proof.
  revert acc. induction addrs as [|x addrs IH]; intros acc; cbn [foldl].
  - rewrite decide_False; [done|]. apply not_elem_of_nil.
  - rewrite IH. destruct (decide (a ∈ addrs)) as [Hin|Hnin].
    + rewrite decide_True; [done|]. by right.
    + destruct (decide (a = x)) as [->|Hne].
      * rewrite lookup_insert_eq. rewrite decide_True; [done|]. by left.
      * rewrite lookup_insert_ne by done. rewrite decide_False; [done|].
        rewrite elem_of_cons. tauto.
Qed.

Lemma makeGenesisAccount_lookup addrs balance a :
  genesis.makeGenesisAccount addrs balance !! a
  = if decide (a ∈ addrs) then Some (genesis.mkGenesisAccount None balance) else None.
Proof. unfold genesis.makeGenesisAccount. by rewrite makeGenesisAccount_foldl. Qed.

Lemma makeGenesisAccount_dom addrs balance :
  dom (genesis.makeGenesisAccount addrs balance) = list_to_set addrs.
Proof.
  apply set_eq. intros a. rewrite elem_of_dom, makeGenesisAccount_lookup, elem_of_list_to_set.
  case_decide; split; intros; done.
Qed.

Lemma makeGenesisAccount_size_foldl (addrs : list common_Address) balance
    (acc : gmap common_Address genesis.GenesisAccount) :
  size (foldl (λ alloc addr, <[addr := genesis.mkGenesisAccount None balance]> alloc)
          acc addrs)
  ≤ size acc + length addrs.
Proof.
  revert acc. induction addrs as [|x addrs IH]; intros acc; cbn [foldl length].
  - lia.
  - etrans; [apply IH|].
    destruct (acc !! x) as [y|] eqn:E.
    + rewrite map_size_insert_Some by eauto. lia.
    + rewrite map_size_insert_None by done. lia.
Qed.

(** X13: the accounts [Alloc] installs.  The allocation of the genesis
    block is replaced by a map that holds, for every address listed and
    for no other, an account without code whose balance is the pointer
    passed: all accounts share one cell.  An address listed twice gives
    one account, so the map is never larger than the list, and as large
    when no address repeats.  The store and the rest of the block stay as
    they were. *)
Theorem Alloc_accounts {Other : Type} addrs balance (g : genesis.Genesis Other) h :
  ∃ m, genesis.Alloc addrs balance g h
       = Done (genesis.mkGenesis (genesis.Genesis_ExtraData g) (Some m)
                 (genesis.Genesis_other g), h)
       ∧ (∀ a, m !! a = if decide (a ∈ addrs)
                        then Some (genesis.mkGenesisAccount None balance) else None)
       ∧ size m ≤ length addrs
       ∧ (NoDup addrs → size m = length addrs).
Proof.
  exists (genesis.makeGenesisAccount addrs balance). split_and!.
  - reflexivity.
  - intros a. apply makeGenesisAccount_lookup.
  - unfold genesis.makeGenesisAccount.
    etrans; [apply makeGenesisAccount_size_foldl|]. rewrite map_size_empty. lia.
  - intros Hnd. rewrite <- size_dom, makeGenesisAccount_dom.
    by apply size_list_to_set.
Qed.

Lemma Alloc_accounts_witness :
  ∃ m, genesis.Alloc [1; 2; 3]%Z (Some 1%positive) (genesis.mkGenesis SliceNil None tt)
         empty_heap
       = Done (genesis.mkGenesis SliceNil (Some m) tt, empty_heap)
       ∧ size m = 3.
Proof.
  destruct (Alloc_accounts [1; 2; 3]%Z (Some 1%positive)
              (genesis.mkGenesis SliceNil None tt) empty_heap)
    as (m & E & _ & _ & Hsize).
  exists m. split; [exact E|]. apply Hsize.
  apply (bool_decide_unpack _). vm_compute. exact I.
Defined.

Lemma big_NewInt_spec x h :
  ∃ l, big_NewInt x h = Done (Some l, with_bigInts (insert l x) h)
       ∧ bigInts h !! l = None.
Proof.
  exists (fresh (dom (bigInts h))). split; [done|].
  apply not_elem_of_dom, is_fresh.
Qed.

(** Two contracts installed over the accounts of the caller, the address
    book last. *)
Lemma install_two {Other : Type} addrs balance (g : genesis.Genesis Other) h
    credit book creditBin bookBin :
  ∃ lc lb,
    (let alloc := genesis.makeGenesisAccount addrs balance in
     let* zero := big_NewInt 0 in
     let alloc := <[credit := genesis.mkGenesisAccount (Some creditBin) zero]> alloc in
     let* zero := big_NewInt 0 in
     let alloc := <[book := genesis.mkGenesisAccount (Some bookBin) zero]> alloc in
     ret (genesis.set_Alloc (Some alloc) g)) h
    = Done (genesis.set_Alloc
              (Some (<[book := genesis.mkGenesisAccount (Some bookBin) (Some lb)]>
                       (<[credit := genesis.mkGenesisAccount (Some creditBin) (Some lc)]>
                          (genesis.makeGenesisAccount addrs balance)))) g,
            with_bigInts (insert lb 0%Z) (with_bigInts (insert lc 0%Z) h))
    ∧ bigInts h !! lc = None ∧ bigInts h !! lb = None ∧ lc ≠ lb.
Proof.
  destruct (big_NewInt_spec 0 h) as (lc & Ec & Hc).
  destruct (big_NewInt_spec 0 (with_bigInts (insert lc 0%Z) h)) as (lb & Eb & Hb).
  exists lc, lb. cbv zeta.
  rewrite (bind_Done _ _ _ _ _ Ec), (bind_Done _ _ _ _ _ Eb).
  simpl in Hb. split_and!; [done|done| |].
  - apply lookup_insert_None in Hb. tauto.
  - apply lookup_insert_None in Hb. tauto.
Qed.

Lemma installs_two {Other : Type} (f : genesis.Option Other) addrs balance
    (g : genesis.Genesis Other) h credit book creditBin bookBin :
  (∃ lc lb,
     f g h
     = Done (genesis.set_Alloc
               (Some (<[book := genesis.mkGenesisAccount (Some bookBin) (Some lb)]>
                        (<[credit := genesis.mkGenesisAccount (Some creditBin) (Some lc)]>
                           (genesis.makeGenesisAccount addrs balance)))) g,
             with_bigInts (insert lb 0%Z) (with_bigInts (insert lc 0%Z) h))
     ∧ bigInts h !! lc = None ∧ bigInts h !! lb = None ∧ lc ≠ lb) →
  genesis.installs f g h addrs balance [credit; book]
    (λ h' m, ∃ lc lb, lc ≠ lb
                      ∧ genesis.contract_account h h' m book bookBin lb
                      ∧ (credit ≠ book →
                         genesis.contract_account h h' m credit creditBin lc)).
Proof.
  intros (lc & lb & E & Hc & Hb & Hne).
  eexists _, _. split; [exact E|]. simpl. split_and!; try done.
  - etrans; [|apply insert_subseteq; by rewrite lookup_insert_ne].
    by apply insert_subseteq.
  - intros a Ha. rewrite !not_elem_of_cons in Ha. destruct Ha as (Ha1 & Ha2 & _).
    by rewrite !lookup_insert_ne.
  - exists lc, lb. split; [done|]. split.
    + split_and!; [apply lookup_insert_eq|done|apply lookup_insert_eq].
    + intros Hcb. split_and!; [|done|simpl].
      * rewrite lookup_insert_ne by done. apply lookup_insert_eq.
      * rewrite lookup_insert_ne by done. apply lookup_insert_eq.
Qed.

(** X14: [AllocWithPrecypressContract] and [AllocWithCypressContract]
    replace the allocation by the accounts of [makeGenesisAccount]
    overlaid with two contract accounts.  The address book account
    carries its binary and, unless both contracts have one address, the
    credit account carries the credit binary; an address of the caller
    that is a contract address loses the caller's balance.  The two
    balances are two new cells holding zero, so neither is the cell the
    caller passed; the store is otherwise as it was. *)
Theorem AllocWithCypressContracts_accounts {Other : Type}
    (CypressCreditContractAddress AddressBookContractAddress : common_Address)
    (CypressCreditBin PreCypressAddressBookBin CypressAddressBookBin : list Byte.byte)
    addrs balance (g : genesis.Genesis Other) h :
  genesis.installs
    (genesis.AllocWithPrecypressContract CypressCreditContractAddress
       AddressBookContractAddress CypressCreditBin PreCypressAddressBookBin addrs balance)
    g h addrs balance [CypressCreditContractAddress; AddressBookContractAddress]
    (λ h' m, ∃ lc lb,
       lc ≠ lb
       ∧ genesis.contract_account h h' m AddressBookContractAddress
           PreCypressAddressBookBin lb
       ∧ (CypressCreditContractAddress ≠ AddressBookContractAddress →
          genesis.contract_account h h' m CypressCreditContractAddress
            CypressCreditBin lc))
  ∧ genesis.installs
      (genesis.AllocWithCypressContract CypressCreditContractAddress
         AddressBookContractAddress CypressCreditBin CypressAddressBookBin addrs balance)
      g h addrs balance [CypressCreditContractAddress; AddressBookContractAddress]
      (λ h' m, ∃ lc lb,
         lc ≠ lb
         ∧ genesis.contract_account h h' m AddressBookContractAddress
             CypressAddressBookBin lb
         ∧ (CypressCreditContractAddress ≠ AddressBookContractAddress →
            genesis.contract_account h h' m CypressCreditContractAddress
              CypressCreditBin lc)).
Proof.
  split; apply installs_two; apply install_two.
Qed.

Lemma AllocWithCypressContracts_accounts_witness :
  ∃ m h', genesis.AllocWithCypressContract 1024%Z 1025%Z [Byte.x60] [Byte.x61]
            [1; 1024]%Z sample_bigInt (genesis.mkGenesis SliceNil None tt) sample_heap
          = Done (genesis.mkGenesis SliceNil (Some m) tt, h')
          ∧ (∃ lc lb, lc ≠ lb
                      ∧ genesis.contract_account sample_heap h' m 1025%Z [Byte.x61] lb
                      ∧ genesis.contract_account sample_heap h' m 1024%Z [Byte.x60] lc)
          ∧ m !! 1%Z = Some (genesis.mkGenesisAccount None sample_bigInt).
Proof.
  destruct (proj2 (AllocWithCypressContracts_accounts 1024%Z 1025%Z [Byte.x60] [Byte.x61]
                     [Byte.x61] [1; 1024]%Z sample_bigInt
                     (genesis.mkGenesis SliceNil None tt) sample_heap))
    as (m & h' & E & _ & _ & _ & Hrest & lc & lb & Hne & Hb & Hc).
  exists m, h'. split; [exact E|]. split.
  - exists lc, lb. split; [exact Hne|]. split; [exact Hb|]. apply Hc. discriminate.
  - rewrite Hrest.
    + reflexivity.
    + apply (bool_decide_unpack _). vm_compute. exact I.
Defined.

(** X15: [AllocWithPrebaobabContract] and [AllocWithBaobabContract]
    replace the allocation by the accounts of [makeGenesisAccount]
    overlaid with the address book account alone, which carries its
    binary and a new balance cell holding zero; no credit contract is
    installed. *)
Theorem AllocWithBaobabContracts_accounts {Other : Type}
    (AddressBookContractAddress : common_Address)
    (PrebaobabAddressBookBin BaobabAddressBookBin : list Byte.byte)
    addrs balance (g : genesis.Genesis Other) h :
  genesis.installs
    (genesis.AllocWithPrebaobabContract AddressBookContractAddress
       PrebaobabAddressBookBin addrs balance)
    g h addrs balance [AddressBookContractAddress]
    (λ h' m, ∃ lb, genesis.contract_account h h' m AddressBookContractAddress
                     PrebaobabAddressBookBin lb)
  ∧ genesis.installs
      (genesis.AllocWithBaobabContract AddressBookContractAddress
         BaobabAddressBookBin addrs balance)
      g h addrs balance [AddressBookContractAddress]
      (λ h' m, ∃ lb, genesis.contract_account h h' m AddressBookContractAddress
                       BaobabAddressBookBin lb).
Proof.
  split.
  all: destruct (big_NewInt_spec 0 h) as (lb & Eb & Hb).
  all: eexists _, _; split;
    [unfold genesis.AllocWithPrebaobabContract, genesis.AllocWithBaobabContract;
     cbv zeta; rewrite (bind_Done _ _ _ _ _ Eb); reflexivity|].
  all: simpl; split_and!; try done.
  all: try (by apply insert_subseteq).
  all: try (intros a Ha; rewrite !not_elem_of_cons in Ha; destruct Ha as (Ha1 & _);
            by rewrite lookup_insert_ne).
  all: exists lb; split_and!; [apply lookup_insert_eq|done|apply lookup_insert_eq].
Qed.

Lemma AllocWithBaobabContracts_accounts_witness :
  genesis.installs
    (genesis.AllocWithBaobabContract 1024%Z [Byte.x60] [1; 1024]%Z sample_bigInt)
    (genesis.mkGenesis SliceNil None tt) sample_heap [1; 1024]%Z sample_bigInt [1024%Z]
    (λ h' m, ∃ lb, genesis.contract_account sample_heap h' m 1024%Z [Byte.x60] lb).
Proof.
  exact (proj2 (AllocWithBaobabContracts_accounts 1024%Z [Byte.x61] [Byte.x60]
                  [1; 1024]%Z sample_bigInt (genesis.mkGenesis SliceNil None tt)
                  sample_heap)).
Defined.

(** The loop of [ValidatorsOfClique] on an array that holds [pre] up to
    the offset of signer [i] and zeros from there on: each signer's bytes
    follow the previous one's. *)
Lemma copy_signers_spec (AddressLength sealed : nat) signers :
  ∀ i pre bi m0 ta a total,
    length pre = 32 + i * AddressLength →
    total = length pre + (length signers * AddressLength + sealed) →
    genesis.copy_signers AddressLength (Slice a 0 total) i signers
      (mkHeap bi
         (<[a := pre ++ replicate (length signers * AddressLength + sealed) zero_byte]> m0)
         ta)
    = Done (tt, mkHeap bi
                  (<[a := pre ++ mjoin (be_fixed AddressLength <$> signers)
                               ++ replicate sealed zero_byte]> m0)
                  ta).
Proof.
  induction signers as [|s signers IH]; intros i pre bi m0 ta a total Hpre Htotal.
  - reflexivity.
  - cbn [genesis.copy_signers length] in *. unfold bind at 1. unfold slice_from.
    rewrite decide_True by lia. unfold ret at 1. unfold bind at 1.
    unfold array_copy_from. cbn [slice_len byteArrays with_byteArrays bigInts tupleArrays].
    rewrite (take_ge (be_fixed AddressLength s)) by (rewrite length_be_fixed; lia).
    rewrite alter_insert_eq, length_be_fixed.
    replace (0 + (32 + i * AddressLength)) with (length pre) by lia.
    rewrite take_app_length, drop_app_add.
    replace (S (length signers) * AddressLength + sealed)
      with (AddressLength + (length signers * AddressLength + sealed)) by lia.
    rewrite drop_replicate_add.
    rewrite (assoc_L (++) pre).
    unfold with_byteArrays. cbn [bigInts tupleArrays].
    rewrite (IH (S i) (pre ++ be_fixed AddressLength s) bi m0 ta a total).
    + rewrite fmap_cons. cbn [mjoin list_join]. by rewrite <- !(assoc_L (++)).
    + rewrite length_app, length_be_fixed. lia.
    + rewrite length_app, length_be_fixed. lia.
Qed.

(** X16: the extra data [ValidatorsOfClique] builds.  When the vanity
    constant is at least 32, the call returns with the extra data a new
    array of [ExtraVanity + n * AddressLength + ExtraSeal] bytes: 32 zero
    bytes, then the bytes of each signer in the order given, then zero
    bytes to the end.  The signers start at byte 32 whatever the vanity
    constant is.  The allocation, the rest of the block and the arrays
    the store had stay as they were. *)
Theorem ValidatorsOfClique_layout {Other : Type} (ExtraVanity ExtraSeal AddressLength : nat)
    signers (g : genesis.Genesis Other) h :
  32 ≤ ExtraVanity →
  ∃ a, byteArrays h !! a = None
       ∧ genesis.ValidatorsOfClique ExtraVanity ExtraSeal AddressLength signers g h
         = Done (genesis.mkGenesis
                   (Slice a 0 (ExtraVanity + length signers * AddressLength + ExtraSeal))
                   (genesis.Genesis_Alloc g) (genesis.Genesis_other g),
                 with_byteArrays
                   (insert a (replicate 32 zero_byte
                              ++ mjoin (be_fixed AddressLength <$> signers)
                              ++ replicate (ExtraVanity - 32 + ExtraSeal) zero_byte)) h).
Proof.
  intros Hvanity. exists (fresh (dom (byteArrays h))).
  split; [apply not_elem_of_dom, is_fresh|].
  unfold genesis.ValidatorsOfClique, make_bytes, array_make. unfold bind at 1.
  cbn [genesis.set_ExtraData genesis.Genesis_ExtraData].
  unfold with_byteArrays at 1.
  replace (replicate (ExtraVanity + length signers * AddressLength + ExtraSeal) zero_byte)
    with (replicate 32 zero_byte
          ++ replicate (length signers * AddressLength + (ExtraVanity - 32 + ExtraSeal))
               zero_byte)
    by (rewrite <- replicate_add; f_equal; lia).
  unfold bind.
  rewrite (copy_signers_spec AddressLength (ExtraVanity - 32 + ExtraSeal) signers 0
             (replicate 32 zero_byte)).
  - reflexivity.
  - by rewrite length_replicate.
  - rewrite length_replicate. lia.
Qed.

Lemma ValidatorsOfClique_layout_witness :
  ∃ a, byteArrays empty_heap !! a = None
       ∧ genesis.ValidatorsOfClique 32 65 20 [1; 2]%Z (genesis.mkGenesis SliceNil None tt)
           empty_heap
         = Done (genesis.mkGenesis (Slice a 0 (32 + 2 * 20 + 65)) None tt,
                 with_byteArrays
                   (insert a (replicate 32 zero_byte
                              ++ mjoin (be_fixed 20 <$> [1; 2]%Z)
                              ++ replicate (32 - 32 + 65) zero_byte)) empty_heap).
Proof.
  apply (ValidatorsOfClique_layout 32 65 20 [1; 2]%Z (genesis.mkGenesis SliceNil None tt)
           empty_heap).
  lia.
Defined.
